(** * Sentinel dashboard: scan orchestration and simulation service

    A shallow embedding of the client-side state orchestration of the
    dashboard (the two versions of [App.tsx], the types of [types.ts]) and
    of the wrapper around the generative-text API ([geminiService.ts]).

    Conventions of the embedding.
    - React state is a record; every call of a state setter and every
      timer callback of the source is one constructor of an [Event] type,
      and [step] applies it.  Functional updates are applied once each, in
      the order in which they were enqueued.
    - [startScan] is an [async] function: it is embedded as a computation
      that emits, in program order, the state updates it performs, the
      timers it arms and the points where it awaits.
    - What the code reads from its host (Math.random, the clock, the
      environment, JSON.parse, the answer of the remote API) is a field of
      [Host]; the n-th read of a source of values is the n-th value of
      the corresponding field.  Values drawn inside a functional update or
      a timer callback are drawn when the update is enqueued or the timer
      armed: the host's values are unconstrained, so this fixes no
      behaviour.
    - A run of the component is a sequence of updates: those that
      [startScan] performs, in program order, interleaved with the
      callbacks of the timers it armed and of the interval.  The state
      invariants are proved for every sequence of updates, hence for every
      interleaving.
    - Counters are JavaScript numbers that start at 0 and grow by 1; they
      are embedded as [Z].  The other numbers are doubles: a double is
      embedded as the rational that it denotes, and a product is rounded
      to the nearest double ([fl64]) before it is used.
    - A JavaScript string is embedded as the UTF-8 encoding of its text, a
      [string] of bytes.  The patterns that the code searches and removes
      are ASCII, so that they match at the same places in both forms; the
      white space that [trim] drops is recognised by its encoding, of one,
      two or three bytes. *)

From Stdlib Require Import String Ascii List ZArith Lia Lqa Bool.
From Stdlib Require Import QArith Qround Qabs Qpower DecimalString.
Import ListNotations.
Open Scope string_scope.
Open Scope list_scope.
Open Scope Z_scope.

(** ** types.ts *)

Inductive LogLevel := INFO | WARN | ERROR | SUCCESS | SYSTEM.

(** The union ['CRAWLER' | 'DAST' | 'FORM_BOT' | 'CORE']. *)
Inductive ModuleTag := CRAWLER | DAST | FORM_BOT | CORE.

Inductive Severity := CRITICAL | HIGH | MEDIUM | LOW.

Inductive NodeStatus := pending | visited | vuln.

Module LogEntry.
Record t := mk {
  id : string;
  timestamp : string;
  level : LogLevel;
  message : string;
  module : ModuleTag }.
End LogEntry.

Module Vulnerability.
Record t := mk {
  id : string;
  type : string;
  severity : Severity;
  description : string;
  location : string;
  payload_used : option string }.
End Vulnerability.

Module CrawlNode.
Record t := mk {
  id : string;
  url : string;
  status : NodeStatus;
  depth : Z;
  parent : option string }.
End CrawlNode.

Module ScanStats.
Record t := mk {
  pagesCrawled : Z;
  formsDetected : Z;
  vulnsFound : Z;
  durationSeconds : Z }.

(** The object literal [{ pagesCrawled: 0, formsDetected: 0, vulnsFound: 0,
    durationSeconds: 0 }]. *)
Definition zero : t := mk 0 0 0 0.

Definition le (a b : t) : Prop :=
  pagesCrawled a <= pagesCrawled b /\ formsDetected a <= formsDetected b /\
  vulnsFound a <= vulnsFound b /\ durationSeconds a <= durationSeconds b.
End ScanStats.

(** ** The result type of [analyzeTargetForSimulation] *)

(** An element of [logs]: [{ level; message; module }]. *)
Module SimLog.
Record t := mk {
  level : LogLevel;
  message : string;
  module : ModuleTag }.
End SimLog.

(** [Omit<Vulnerability, 'id'>]. *)
Module Finding.
Record t := mk {
  type : string;
  severity : Severity;
  description : string;
  location : string;
  payload_used : option string }.

(** The spread [{ ...v, id }]. *)
Definition with_id (v : t) (id : string) : Vulnerability.t :=
  Vulnerability.mk id (type v) (severity v) (description v) (location v)
    (payload_used v).
End Finding.

Module SimData.
Record t := mk {
  logs : list SimLog.t;
  vulnerabilities : list Finding.t }.
End SimData.

(** ** The host: JavaScript runtime, environment and remote API *)

(** A thrown value. *)
Inductive Exn := Thrown (what : string).

(** The argument of [ai.models.generateContent].  The response schema is a
    constant of the source and is left out. *)
Record GenerateContentParameters := {
  model : string;
  contents : string;
  systemInstruction : string;
  responseMimeType : string }.

(** How a call of [generateContent] settles: the promise rejects, or it
    resolves to a response whose [text] is a string or [undefined]. *)
Inductive ApiOutcome :=
| Rejects (e : Exn)
| Resolves (text : option string).

Record Host := {
  (** [process.env.API_KEY] *)
  API_KEY : option string;
  (** the n-th value of [Math.random()], a double from 0 (included) to 1
      (excluded), given by the rational that it denotes *)
  Math_random : nat -> Q;
  (** the n-th value of [new Date().toLocaleTimeString('en-US', ...)] *)
  Date_toLocaleTimeString : nat -> string;
  (** [Number.prototype.toString(radix)] *)
  Number_toString : Q -> Z -> string;
  (** [JSON.parse], typed by the declared result of the service *)
  JSON_parse : string -> Exn + SimData.t;
  (** how the n-th call of [generateContent] settles *)
  generateContent_settles : nat -> GenerateContentParameters -> ApiOutcome }.

(** JavaScript truthiness of a string and of a string or [undefined]. *)
Definition truthy (s : string) : bool :=
  match s with EmptyString => false | String _ _ => true end.

Definition truthy_opt (s : option string) : bool :=
  match s with None => false | Some s => truthy s end.

(** Template interpolation of an integer. *)
Definition string_of_Z (z : Z) : string := NilZero.string_of_int (Z.to_int z).

(** ** Asynchronous computations

    A computation reads the host through a cursor (how many values of each
    source were consumed), may throw, and emits items in program order. *)

Record Cursor := {
  randoms : nat;
  clocks : nat;
  calls : nat }.

Definition cursor0 : Cursor := {| randoms := 0; clocks := 0; calls := 0 |}.

Section Async.
(** The state updates of the component that runs the computation. *)
Variable E : Type.

Inductive Item :=
| Do (e : E)                         (** a state update, enqueued now *)
| SetTimeout (cb : E) (ms : Z)       (** [setTimeout(cb, ms)] *)
| AwaitTimeout (ms : Z)              (** [await new Promise(r => setTimeout(r, ms))] *)
| AwaitGenerateContent (req : GenerateContentParameters).

Definition M (A : Type) : Type := Cursor -> (Exn + A) * Cursor * list Item.

Definition ret {A} (a : A) : M A := fun c => (inr a, c, []).

Definition bind {A B} (m : M A) (k : A -> M B) : M B := fun c =>
  match m c with
  | (inl e, c1, t1) => (inl e, c1, t1)
  | (inr a, c1, t1) =>
      match k a c1 with
      | (r, c2, t2) => (r, c2, t1 ++ t2)
      end
  end.

Definition throw {A} (e : Exn) : M A := fun c => (inl e, c, []).

Definition emit (i : Item) : M unit := fun c => (inr tt, c, [i]).

(** [try { body } catch (e) { handler e }] *)
Definition try_catch {A} (body : M A) (handler : Exn -> M A) : M A := fun c =>
  match body c with
  | (inl e, c1, t1) =>
      match handler e c1 with
      | (r, c2, t2) => (r, c2, t1 ++ t2)
      end
  | (inr a, c1, t1) => (inr a, c1, t1)
  end.

(** [try { body } finally { fin }] *)
Definition try_finally {A} (body : M A) (fin : M unit) : M A := fun c =>
  match body c with
  | (r, c1, t1) =>
      match fin c1 with
      | (inl e, c2, t2) => (inl e, c2, t1 ++ t2)
      | (inr _, c2, t2) => (r, c2, t1 ++ t2)
      end
  end.

(** [m], started at cursor [c], returns [a] at cursor [c'] after emitting [t]. *)
Definition runs {A} (m : M A) (c : Cursor) (a : A) (c' : Cursor) (t : list Item) : Prop :=
  m c = (inr a, c', t).

Definition result {A} (m : M A) (c : Cursor) : Exn + A := fst (fst (m c)).
Definition after {A} (m : M A) (c : Cursor) : Cursor := snd (fst (m c)).
Definition script {A} (m : M A) (c : Cursor) : list Item := snd (m c).

(** The requests sent to the remote API, the updates performed directly
    and the callbacks handed to timers. *)
Definition requests (t : list Item) : list GenerateContentParameters :=
  flat_map (fun i => match i with AwaitGenerateContent r => [r] | _ => [] end) t.

Definition updates (t : list Item) : list E :=
  flat_map (fun i => match i with Do e => [e] | _ => [] end) t.

Definition callbacks (t : list Item) : list E :=
  flat_map (fun i => match i with SetTimeout e _ => [e] | _ => [] end) t.

Definition waits (t : list Item) : list Z :=
  flat_map (fun i => match i with AwaitTimeout ms => [ms] | _ => [] end) t.
End Async.

Arguments Do {E} e.
Arguments SetTimeout {E} cb ms.
Arguments AwaitTimeout {E} ms.
Arguments AwaitGenerateContent {E} req.
Arguments ret {E A} a.
Arguments bind {E A B} m k.
Arguments throw {E A} e.
Arguments emit {E} i.
Arguments try_catch {E A} body handler.
Arguments try_finally {E A} body fin.
Arguments runs {E A} m c a c' t.
Arguments result {E A} m c.
Arguments after {E A} m c.
Arguments script {E A} m c.
Arguments requests {E} t.
Arguments updates {E} t.
Arguments callbacks {E} t.
Arguments waits {E} t.

Declare Scope async_scope.
Delimit Scope async_scope with async.
Notation "x <- m ;; k" := (bind m (fun x => k))
  (at level 61, m at next level, right associativity) : async_scope.
Notation "m ;; k" := (bind m (fun _ => k))
  (at level 61, right associativity) : async_scope.
Open Scope async_scope.

Section HostReads.
Variable h : Host.
Variable E : Type.

(** [Math.random()] *)
Definition random : M E Q := fun c =>
  (inr (Math_random h (randoms c)),
   {| randoms := S (randoms c); clocks := clocks c; calls := calls c |}, []).

(** [new Date().toLocaleTimeString('en-US', { hour12: false, ... })] *)
Definition timeString : M E string := fun c =>
  (inr (Date_toLocaleTimeString h (clocks c)),
   {| randoms := randoms c; clocks := S (clocks c); calls := calls c |}, []).

(** [await ai.models.generateContent(req)] *)
Definition generateContent (req : GenerateContentParameters) : M E (option string) :=
  fun c =>
    let c' := {| randoms := randoms c; clocks := clocks c; calls := S (calls c) |} in
    match generateContent_settles h (calls c) req with
    | Rejects e => (inl e, c', [AwaitGenerateContent req])
    | Resolves text => (inr text, c', [AwaitGenerateContent req])
    end.

(** [await new Promise(r => setTimeout(r, ms))] *)
Definition sleep (ms : Z) : M E unit := emit (AwaitTimeout ms).
End HostReads.

Arguments random h {E}.
Arguments timeString h {E}.
Arguments generateContent h {E} req.
Arguments sleep {E} ms.

(** Loops. [for_range i n body] is [for (let j = i; j < i + n; j++) body(j)],
    where the body may [break]. *)
Inductive Ctl := Continue | Break.

Fixpoint for_range {E} (i : Z) (n : nat) (body : Z -> M E Ctl) : M E unit :=
  match n with
  | O => ret tt
  | S n' =>
      c <- body i ;;
      match c with
      | Break => ret tt
      | Continue => for_range (i + 1) n' body
      end
  end.

(** [xs.forEach((x, idx) => body x idx)], from index [idx]. *)
Fixpoint forEach_from {E A} (idx : Z) (xs : list A) (body : A -> Z -> M E unit) : M E unit :=
  match xs with
  | [] => ret tt
  | x :: xs' => body x idx ;; forEach_from (idx + 1) xs' body
  end.

Definition forEach {E A} (xs : list A) (body : A -> Z -> M E unit) : M E unit :=
  forEach_from 0 xs body.

(** ** String helpers of the runtime *)

(** The double quote character. *)
Definition dq : string := String (ascii_of_nat 34) EmptyString.

(** [s.replace(/pat/g, '')] for a literal, non-empty pattern: every
    occurrence is removed, scanning from the left; [skip] counts the
    characters of a match that remain to be dropped. *)
Fixpoint remove_all_from (skip : nat) (pat s : string) : string :=
  match s with
  | EmptyString => EmptyString
  | String ch rest =>
      match skip with
      | S k => remove_all_from k pat rest
      | O =>
          if String.prefix pat s
          then remove_all_from (Nat.pred (String.length pat)) pat rest
          else String ch (remove_all_from O pat rest)
      end
  end.

Definition remove_all (pat s : string) : string := remove_all_from O pat s.

(** White space and line terminators, as [String.prototype.trim] knows
    them (WhiteSpace and LineTerminator of the language: TAB, VT, FF, the
    space separators of Unicode, U+FEFF, LF, CR, U+2028 and U+2029), by the
    number of bytes of their encoding.

    One byte: TAB, LF, VT, FF, CR and SPACE. *)
Definition space1 (c1 : ascii) : bool :=
  let a := nat_of_ascii c1 in
  (Nat.leb 9 a && Nat.leb a 13) || Nat.eqb a 32.

(** Two bytes: U+00A0 (C2 A0). *)
Definition space2 (c1 c2 : ascii) : bool :=
  Nat.eqb (nat_of_ascii c2) 160 && Nat.eqb (nat_of_ascii c1) 194.

(** Three bytes: U+1680 (E1 9A 80), U+2000 to U+200A (E2 80 80 to
    E2 80 8A), U+2028 and U+2029 (E2 80 A8, E2 80 A9), U+202F (E2 80 AF),
    U+205F (E2 81 9F), U+3000 (E3 80 80) and U+FEFF (EF BB BF). *)
Definition space3 (c1 c2 c3 : ascii) : bool :=
  let a := nat_of_ascii c1 in
  let b := nat_of_ascii c2 in
  let c := nat_of_ascii c3 in
  (Nat.eqb c 128 && Nat.eqb b 154 && Nat.eqb a 225)
  || (((Nat.leb 128 c && Nat.leb c 138) || Nat.eqb c 168 || Nat.eqb c 169 || Nat.eqb c 175)
      && Nat.eqb b 128 && Nat.eqb a 226)
  || (Nat.eqb c 159 && Nat.eqb b 129 && Nat.eqb a 226)
  || (Nat.eqb c 128 && Nat.eqb b 128 && Nat.eqb a 227)
  || (Nat.eqb c 191 && Nat.eqb b 187 && Nat.eqb a 239).

(** The text after the white space it starts with, if it starts with one. *)
Definition skipSpace (s : string) : option string :=
  match s with
  | EmptyString => None
  | String c1 r1 =>
      if space1 c1 then Some r1
      else
        match r1 with
        | EmptyString => None
        | String c2 r2 =>
            if space2 c1 c2 then Some r2
            else
              match r2 with
              | EmptyString => None
              | String c3 r3 => if space3 c1 c2 c3 then Some r3 else None
              end
        end
  end.

(** [s.trimStart()] *)
Fixpoint trimStart (s : string) : string :=
  match s with
  | EmptyString => EmptyString
  | String c1 r1 =>
      if space1 c1 then trimStart r1
      else
        match r1 with
        | EmptyString => s
        | String c2 r2 =>
            if space2 c1 c2 then trimStart r2
            else
              match r2 with
              | EmptyString => s
              | String c3 r3 => if space3 c1 c2 c3 then trimStart r3 else s
              end
        end
  end.

(** A text of white space only. *)
Definition blank (s : string) : bool :=
  match trimStart s with
  | EmptyString => true
  | String _ _ => false
  end.

(** [s.trimEnd()]: the text up to the white space it ends with. *)
Fixpoint trimEnd (s : string) : string :=
  match s with
  | EmptyString => EmptyString
  | String ch rest => if blank s then EmptyString else String ch (trimEnd rest)
  end.

(** [s.trim()] *)
Definition trim (s : string) : string := trimEnd (trimStart s).

(** ** Numbers of the runtime

    A finite Number is embedded as the rational that it denotes; the
    result of an arithmetic operation is the double nearest to the exact
    result. *)

(** The nearest integer, the even one of two that are equally near. *)
Definition rne (x : Q) : Z :=
  let f := Qfloor x in
  match (x - inject_Z f ?= 1 # 2)%Q with
  | Lt => f
  | Eq => if Z.even f then f else f + 1
  | Gt => f + 1
  end.

(** The integer part of the binary logarithm of a positive rational. *)
Definition flog2 (x : Q) : Z :=
  if Qle_bool 1 x then Z.log2 (Qfloor x) else - Z.log2_up (Qceiling (/ x)).

(** The double nearest to [x] (binary64, round to nearest, ties to even):
    a multiple [m * 2^e] of the power of two 52 places below the leading
    bit of [x], and of [2^-1074] at least.  The results of this program
    are far below the largest double. *)
Definition fl64 (x : Q) : Q :=
  if Qeq_bool x 0 then 0%Q
  else
    let e := Z.max (flog2 (Qabs x) - 52) (-1074) in
    let m := rne (Qabs x / Qpower 2 e) in
    let y := (inject_Z m * Qpower 2 e)%Q in
    if Qle_bool 0 x then y else (- y)%Q.

(** [x * y] *)
Definition mul64 (x y : Q) : Q := fl64 (x * y).

(** The rationals that are doubles. *)
Definition isDouble (x : Q) : bool := Qeq_bool (fl64 x) x.

(** The text of [xs[k]] in a template literal, for an integer [k]. *)
Definition item (xs : list string) (k : Z) : string :=
  if k <? 0 then "undefined" else nth (Z.to_nat k) xs "undefined".

(** ** services/geminiService.ts *)

Module geminiService.

Definition SYSTEM_INSTRUCTION : string :=
  "
You are the kernel of an elite automated security agent named " ++ dq ++ "Sentinel" ++ dq ++ ". 
Your job is to generate realistic, highly technical, and slightly cyberpunk execution logs 
for a security audit. You understand Puppeteer, SQL Injection, XSS, and Network protocols deeply.
Output must be raw data, no conversational filler.
"%string.

(** The template literal [prompt]. *)
Definition prompt (targetUrl : string) : string :=
  ("
    Simulate a 30-second slice of a high-speed security crawl and audit on: "
   ++ targetUrl ++
   ".
    
    The target is a hypothetical implementation of this domain. 
    If the domain is generic (e.g., example.com), invent a " ++ dq ++ "Corp Enterprise" ++ dq ++ " structure for it.
    
    Return a JSON object with two arrays:
    1. 'logs': 12-15 specific technical log entries. varying modules (CRAWLER, DAST, FORM_BOT).
       - CRAWLER: visiting paths, bypassing WAF (Cloudflare/Akamai), handling cookies.
       - FORM_BOT: detecting input[name='email'], injecting heuristical data.
       - DAST: testing payloads ( ' OR 1=1 -- ), checking timings.
    2. 'vulnerabilities': 1-3 plausible vulnerabilities found (or empty if unlikely).
       - XSS in search bars, SQLi in ID parameters, exposed .env files.
    
    Make it sound like an elite hacker tool output.
    ")%string.

Definition request (targetUrl : string) : GenerateContentParameters :=
  {| model := "gemini-3-flash-preview";
     contents := prompt targetUrl;
     systemInstruction := SYSTEM_INSTRUCTION;
     responseMimeType := "application/json" |}.

(** The mock data returned by the [catch] block. *)
Definition fallback (targetUrl : string) : SimData.t :=
  {| SimData.logs :=
       [ SimLog.mk ERROR "Gemini Uplink Failed. Reverting to local heuristics." CORE;
         SimLog.mk WARN "Connection unstable. Retrying handshake..." CRAWLER;
         SimLog.mk INFO "Falling back to offline simulation database..." CORE;
         SimLog.mk WARN ("Simulating scan for " ++ targetUrl)%string CORE;
         SimLog.mk INFO "GET /login [200 OK] - 45ms" CRAWLER;
         SimLog.mk INFO "Found input[name='username']" FORM_BOT;
         SimLog.mk INFO "Testing payload: ' OR 1=1 --" DAST ];
     SimData.vulnerabilities := [] |}.

(** [{ logs: [], vulnerabilities: [] }] *)
Definition empty : SimData.t :=
  {| SimData.logs := []; SimData.vulnerabilities := [] |}.

(** [text.replace(/```json/g, '').replace(/```/g, '').trim()] *)
Definition cleanText (text : string) : string :=
  trim (remove_all "```" (remove_all "```json" text)).

Section Service.
Variable h : Host.
Variable E : Type.

(** The body of the [try] block. *)
Definition attempt (targetUrl : string) : M E SimData.t :=
  text <- generateContent h (request targetUrl) ;;
  match text with
  | Some text =>
      if truthy text then
        match JSON_parse h (cleanText text) with
        | inl e => throw e
        | inr data => ret data
        end
      else ret empty
  | None => ret empty
  end.

(** [console.error] has no effect on the state of the program. *)
Definition analyzeTargetForSimulation (targetUrl : string) : M E SimData.t :=
  try_catch (attempt targetUrl) (fun _ => ret (fallback targetUrl)).
End Service.

Arguments attempt h {E} targetUrl.
Arguments analyzeTargetForSimulation h {E} targetUrl.

End geminiService.

(** ** Updates shared by the two versions of App.tsx *)

(** The functional updates [s => ({ ...s, field: s.field + 1 })]. *)
Definition incPagesCrawled (s : ScanStats.t) : ScanStats.t :=
  ScanStats.mk (ScanStats.pagesCrawled s + 1) (ScanStats.formsDetected s)
    (ScanStats.vulnsFound s) (ScanStats.durationSeconds s).

Definition incFormsDetected (s : ScanStats.t) : ScanStats.t :=
  ScanStats.mk (ScanStats.pagesCrawled s) (ScanStats.formsDetected s + 1)
    (ScanStats.vulnsFound s) (ScanStats.durationSeconds s).

Definition incVulnsFound (s : ScanStats.t) : ScanStats.t :=
  ScanStats.mk (ScanStats.pagesCrawled s) (ScanStats.formsDetected s)
    (ScanStats.vulnsFound s + 1) (ScanStats.durationSeconds s).

Definition incDurationSeconds (s : ScanStats.t) : ScanStats.t :=
  ScanStats.mk (ScanStats.pagesCrawled s) (ScanStats.formsDetected s)
    (ScanStats.vulnsFound s) (ScanStats.durationSeconds s + 1).

(** [prev.find(p => p.type === v.type)], as a truth value. *)
Definition known (prev : list Vulnerability.t) (v : Finding.t) : bool :=
  existsb (fun p => String.eqb (Vulnerability.type p) (Finding.type v)) prev.

(** The entry built by [addLog]. *)
Definition newLog (id timestamp : string) (level : LogLevel) (message : string)
    (module : ModuleTag) : LogEntry.t :=
  {| LogEntry.id := id; LogEntry.timestamp := timestamp; LogEntry.level := level;
     LogEntry.message := message; LogEntry.module := module |}.

(** [prev.slice(-n)]: the last [n] elements. *)
Definition slice_last {A} (n : nat) (prev : list A) : list A :=
  skipn (length prev - n) prev.


(** ** App.tsx, the version with the site map (TOPOLOGY tab) *)

Module App.

(** The state hooks read or written by the scan. *)
Record State := {
  logs : list LogEntry.t;
  vulnerabilities : list Vulnerability.t;
  crawlNodes : list CrawlNode.t;
  isScanning : bool;
  targetUrl : string;
  stats : ScanStats.t }.

(** The initial values given to [useState]. *)
Definition initial : State :=
  {| logs := []; vulnerabilities := []; crawlNodes := []; isScanning := false;
     targetUrl := EmptyString; stats := ScanStats.zero |}.

(** Every state update and timer callback of the component. *)
Inductive Event :=
| SetTargetUrl (value : string)      (** [setTargetUrl(e.target.value)] *)
| SetIsScanning (b : bool)           (** [setIsScanning(b)] *)
| ClearLogs                          (** [setLogs([])] *)
| ClearVulnerabilities               (** [setVulnerabilities([])] *)
| ClearCrawlNodes                    (** [setCrawlNodes([])] *)
| ResetStats                         (** [setStats({ pagesCrawled: 0, ... })] *)
| AddLog (newLog : LogEntry.t)       (** [setLogs(prev => [...prev.slice(-49), newLog])] *)
| SeedRoot                           (** [setCrawlNodes([rootNode])] *)
| PushNode (id path : string) (simData : SimData.t) (i : Z)
                                     (** [setCrawlNodes(prev => [...prev, { ... }])] *)
| LogTimer (log : SimLog.t) (id timestamp : string)
                                     (** the callback given to [setTimeout] for a log of a batch *)
| MergeVuln (v : Finding.t) (id logId logTimestamp : string)
                                     (** [setVulnerabilities(prev => { ... })] *)
| DurationTick.                      (** the callback given to [setInterval] *)

(** The functional update of [addLog]. *)
Definition addLog_update (newLog : LogEntry.t) (prev : list LogEntry.t) : list LogEntry.t :=
  slice_last 49 prev ++ [newLog].

Definition pushLog (newLog : LogEntry.t) (s : State) : State :=
  {| logs := addLog_update newLog (logs s); vulnerabilities := vulnerabilities s;
     crawlNodes := crawlNodes s; isScanning := isScanning s;
     targetUrl := targetUrl s; stats := stats s |}.

Definition setStats (f : ScanStats.t -> ScanStats.t) (s : State) : State :=
  {| logs := logs s; vulnerabilities := vulnerabilities s;
     crawlNodes := crawlNodes s; isScanning := isScanning s;
     targetUrl := targetUrl s; stats := f (stats s) |}.

Definition setCrawlNodes (f : list CrawlNode.t -> list CrawlNode.t) (s : State) : State :=
  {| logs := logs s; vulnerabilities := vulnerabilities s;
     crawlNodes := f (crawlNodes s); isScanning := isScanning s;
     targetUrl := targetUrl s; stats := stats s |}.

(** [const rootNode = { id: 'root', url: '/', status: 'visited', depth: 0 }] *)
Definition rootNode : CrawlNode.t :=
  {| CrawlNode.id := "root"; CrawlNode.url := "/"; CrawlNode.status := visited;
     CrawlNode.depth := 0; CrawlNode.parent := None |}.

(** The node literal of a tick:
    [{ id, url: path, status: simData.vulnerabilities.length > 0 ? 'vuln' : 'visited', depth: i + 1 }] *)
Definition tickNode (id path : string) (simData : SimData.t) (i : Z) : CrawlNode.t :=
  {| CrawlNode.id := id; CrawlNode.url := path;
     CrawlNode.status :=
       if (0 <? length (SimData.vulnerabilities simData))%nat then vuln else visited;
     CrawlNode.depth := i + 1; CrawlNode.parent := None |}.

(** The alert logged for an accepted finding. *)
Definition alert (v : Finding.t) (id timestamp : string) : LogEntry.t :=
  newLog id timestamp WARN
    ("ALERT: Found " ++ Finding.type v ++ " at " ++ Finding.location v)%string DAST.

(** The functional update of [setVulnerabilities], with the two updates it
    performs when the finding is new. *)
Definition mergeVuln (v : Finding.t) (id logId logTimestamp : string) (s : State) : State :=
  if known (vulnerabilities s) v then s
  else
    let s1 := pushLog (alert v logId logTimestamp) s in
    let s2 := setStats incVulnsFound s1 in
    {| logs := logs s2;
       vulnerabilities := vulnerabilities s2 ++ [Finding.with_id v id];
       crawlNodes := crawlNodes s2; isScanning := isScanning s2;
       targetUrl := targetUrl s2; stats := stats s2 |}.

(** The callback of the timer armed for one log of a batch. *)
Definition logTimer (log : SimLog.t) (id timestamp : string) (s : State) : State :=
  let s1 := pushLog (newLog id timestamp (SimLog.level log) (SimLog.message log)
                       (SimLog.module log)) s in
  let s2 := match SimLog.module log with
            | CRAWLER => setStats incPagesCrawled s1
            | _ => s1
            end in
  match SimLog.module log with
  | FORM_BOT => setStats incFormsDetected s2
  | _ => s2
  end.

Definition step (e : Event) (s : State) : State :=
  match e with
  | SetTargetUrl value =>
      {| logs := logs s; vulnerabilities := vulnerabilities s;
         crawlNodes := crawlNodes s; isScanning := isScanning s;
         targetUrl := value; stats := stats s |}
  | SetIsScanning b =>
      {| logs := logs s; vulnerabilities := vulnerabilities s;
         crawlNodes := crawlNodes s; isScanning := b;
         targetUrl := targetUrl s; stats := stats s |}
  | ClearLogs =>
      {| logs := []; vulnerabilities := vulnerabilities s;
         crawlNodes := crawlNodes s; isScanning := isScanning s;
         targetUrl := targetUrl s; stats := stats s |}
  | ClearVulnerabilities =>
      {| logs := logs s; vulnerabilities := [];
         crawlNodes := crawlNodes s; isScanning := isScanning s;
         targetUrl := targetUrl s; stats := stats s |}
  | ClearCrawlNodes => setCrawlNodes (fun _ => []) s
  | ResetStats => setStats (fun _ => ScanStats.zero) s
  | AddLog l => pushLog l s
  | SeedRoot => setCrawlNodes (fun _ => [rootNode]) s
  | PushNode id path simData i =>
      setCrawlNodes (fun prev => prev ++ [tickNode id path simData i]) s
  | LogTimer log id timestamp => logTimer log id timestamp s
  | MergeVuln v id logId logTimestamp => mergeVuln v id logId logTimestamp s
  | DurationTick => setStats incDurationSeconds s
  end.

(** The state after a sequence of updates, applied in order. *)
Definition run (tr : list Event) (s : State) : State :=
  fold_left (fun s e => step e s) tr s.

(** The five updates at the start of a session, in program order. *)
Definition sessionStart : list Event :=
  [SetIsScanning true; ClearLogs; ClearVulnerabilities; ClearCrawlNodes; ResetStats].

Definition newPaths : list string :=
  ["/api/v1"; "/login"; "/dashboard"; "/settings"; "/search"; "/assets/js"; "/.env";
   "/config.php"].

Section Scan.
Variable h : Host.

(** [const API_KEY_AVAILABLE = !!process.env.API_KEY] *)
Definition API_KEY_AVAILABLE : bool := truthy_opt (API_KEY h).

(** [Math.random().toString(36).substr(2, 9)] *)
Definition logId (r : Q) : string := substring 2 9 (Number_toString h r 36).

Definition addLog (level : LogLevel) (message : string) (module : ModuleTag)
  : M Event unit :=
  r <- random h ;;
  timestamp <- timeString h ;;
  emit (Do (AddLog (newLog (logId r) timestamp level message module))).

(** The body of [simData.logs.forEach((log, idx) => setTimeout(..., idx * 150))]. *)
Definition scheduleLog (log : SimLog.t) (idx : Z) : M Event unit :=
  r <- random h ;;
  timestamp <- timeString h ;;
  emit (SetTimeout (LogTimer log (logId r) timestamp) (idx * 150)).

(** The body of [simData.vulnerabilities.forEach(v => setVulnerabilities(...))]. *)
Definition submitVuln (v : Finding.t) (_ : Z) : M Event unit :=
  r <- random h ;;
  timestamp <- timeString h ;;
  r' <- random h ;;
  emit (Do (MergeVuln v (Number_toString h r' 36) (logId r) timestamp)).

(** One iteration of the loop, after its guard. *)
Definition tick (url : string) (i : Z) : M Event unit :=
  addLog INFO ("Deep-scanning path segment " ++ string_of_Z (i + 1) ++ "...")%string
    CRAWLER ;;
  simData <- geminiService.analyzeTargetForSimulation h url ;;
  r1 <- random h ;;
  r2 <- random h ;;
  let path :=
    (item newPaths (Qfloor (mul64 r1 (inject_Z (Z.of_nat (length newPaths)))))
     ++ "?id=" ++ string_of_Z (Qfloor (mul64 r2 100)))%string in
  r3 <- random h ;;
  emit (Do (PushNode (Number_toString h r3 10) path simData i)) ;;
  forEach (SimData.logs simData) scheduleLog ;;
  (if (0 <? length (SimData.vulnerabilities simData))%nat
   then forEach (SimData.vulnerabilities simData) submitVuln
   else ret tt) ;;
  sleep 3000.

(** The statements between the guards and the [try] block. *)
Definition prologue (url : string) : M Event unit :=
  emit (Do (SetIsScanning true)) ;;
  emit (Do ClearLogs) ;;
  emit (Do ClearVulnerabilities) ;;
  emit (Do ClearCrawlNodes) ;;
  emit (Do ResetStats) ;;
  addLog SYSTEM "Initializing Sentinel Agent v2.4" CORE ;;
  addLog INFO ("Target acquired: " ++ url)%string CORE.

(** The [try] block. [scanning] is the value of [isScanning] that the
    closure captured. *)
Definition mission (url : string) (scanning : bool) : M Event unit :=
  sleep 800 ;;
  emit (Do SeedRoot) ;;
  for_range 0 5 (fun i =>
    if negb scanning then ret Break
    else tick url i ;; ret Continue) ;;
  addLog SUCCESS "Mission Parameters Met. Finalizing data..." CORE.

(** [startScan], as created by the render of state [s]: it reads
    [targetUrl] and [isScanning] of that render for its whole run. *)
Definition startScan (s : State) : M Event unit :=
  if negb (truthy (targetUrl s)) then ret tt
  else if negb API_KEY_AVAILABLE then
    addLog ERROR "API_KEY not found in environment." CORE
  else
    prologue (targetUrl s) ;;
    try_finally
      (try_catch (mission (targetUrl s) (isScanning s))
         (fun _ => addLog ERROR "Simulation error: check console." CORE))
      (emit (Do (SetIsScanning false))).
End Scan.

End App.

(** ** App.tsx, the version without the site map *)

Module AppPlain.

(** The state hooks read or written by the scan. *)
Record State := {
  logs : list LogEntry.t;
  vulnerabilities : list Vulnerability.t;
  isScanning : bool;
  targetUrl : string;
  stats : ScanStats.t }.

Definition initial : State :=
  {| logs := []; vulnerabilities := []; isScanning := false; targetUrl := EmptyString;
     stats := ScanStats.zero |}.

Inductive Event :=
| SetTargetUrl (value : string)      (** [setTargetUrl(e.target.value)] *)
| SetIsScanning (b : bool)           (** [setIsScanning(b)] *)
| ClearLogs                          (** [setLogs([])] *)
| ClearVulnerabilities               (** [setVulnerabilities([])] *)
| ResetStats                         (** [setStats({ pagesCrawled: 0, ... })] *)
| AddLog (newLog : LogEntry.t)       (** [setLogs(prev => [...prev, newLog])] *)
| LogTimer (log : SimLog.t) (id timestamp : string)
                                     (** the callback given to [setTimeout] for a log of a batch *)
| MergeVuln (v : Finding.t) (id logId logTimestamp : string)
                                     (** [setVulnerabilities(prev => { ... })] *)
| DurationTick.                      (** the callback given to [setInterval] *)

(** The functional update of [addLog]. *)
Definition addLog_update (newLog : LogEntry.t) (prev : list LogEntry.t) : list LogEntry.t :=
  prev ++ [newLog].

Definition pushLog (newLog : LogEntry.t) (s : State) : State :=
  {| logs := addLog_update newLog (logs s); vulnerabilities := vulnerabilities s;
     isScanning := isScanning s; targetUrl := targetUrl s; stats := stats s |}.

Definition setStats (f : ScanStats.t -> ScanStats.t) (s : State) : State :=
  {| logs := logs s; vulnerabilities := vulnerabilities s;
     isScanning := isScanning s; targetUrl := targetUrl s; stats := f (stats s) |}.

(** The alert logged for an accepted finding. *)
Definition alert (v : Finding.t) (id timestamp : string) : LogEntry.t :=
  newLog id timestamp WARN ("VULNERABILITY DETECTED: " ++ Finding.type v)%string DAST.

Definition mergeVuln (v : Finding.t) (id logId logTimestamp : string) (s : State) : State :=
  if known (vulnerabilities s) v then s
  else
    let s1 := pushLog (alert v logId logTimestamp) s in
    let s2 := setStats incVulnsFound s1 in
    {| logs := logs s2;
       vulnerabilities := vulnerabilities s2 ++ [Finding.with_id v id];
       isScanning := isScanning s2; targetUrl := targetUrl s2; stats := stats s2 |}.

Definition logTimer (log : SimLog.t) (id timestamp : string) (s : State) : State :=
  let s1 := pushLog (newLog id timestamp (SimLog.level log) (SimLog.message log)
                       (SimLog.module log)) s in
  let s2 := match SimLog.module log with
            | CRAWLER => setStats incPagesCrawled s1
            | _ => s1
            end in
  match SimLog.module log with
  | FORM_BOT => setStats incFormsDetected s2
  | _ => s2
  end.

Definition step (e : Event) (s : State) : State :=
  match e with
  | SetTargetUrl value =>
      {| logs := logs s; vulnerabilities := vulnerabilities s;
         isScanning := isScanning s; targetUrl := value; stats := stats s |}
  | SetIsScanning b =>
      {| logs := logs s; vulnerabilities := vulnerabilities s;
         isScanning := b; targetUrl := targetUrl s; stats := stats s |}
  | ClearLogs =>
      {| logs := []; vulnerabilities := vulnerabilities s;
         isScanning := isScanning s; targetUrl := targetUrl s; stats := stats s |}
  | ClearVulnerabilities =>
      {| logs := logs s; vulnerabilities := [];
         isScanning := isScanning s; targetUrl := targetUrl s; stats := stats s |}
  | ResetStats => setStats (fun _ => ScanStats.zero) s
  | AddLog l => pushLog l s
  | LogTimer log id timestamp => logTimer log id timestamp s
  | MergeVuln v id logId logTimestamp => mergeVuln v id logId logTimestamp s
  | DurationTick => setStats incDurationSeconds s
  end.

Definition run (tr : list Event) (s : State) : State :=
  fold_left (fun s e => step e s) tr s.

(** The four updates at the start of a session, in program order. *)
Definition sessionStart : list Event :=
  [SetIsScanning true; ClearLogs; ClearVulnerabilities; ResetStats].

Section Scan.
Variable h : Host.

Definition API_KEY_AVAILABLE : bool := truthy_opt (API_KEY h).

Definition logId (r : Q) : string := substring 2 9 (Number_toString h r 36).

Definition addLog (level : LogLevel) (message : string) (module : ModuleTag)
  : M Event unit :=
  r <- random h ;;
  timestamp <- timeString h ;;
  emit (Do (AddLog (newLog (logId r) timestamp level message module))).

(** The body of [simData.logs.forEach((log, idx) => setTimeout(..., idx * 200))]. *)
Definition scheduleLog (log : SimLog.t) (idx : Z) : M Event unit :=
  r <- random h ;;
  timestamp <- timeString h ;;
  emit (SetTimeout (LogTimer log (logId r) timestamp) (idx * 200)).

Definition submitVuln (v : Finding.t) (_ : Z) : M Event unit :=
  r <- random h ;;
  timestamp <- timeString h ;;
  r' <- random h ;;
  emit (Do (MergeVuln v (Number_toString h r' 36) (logId r) timestamp)).

(** One iteration of the loop, after its guard. *)
Definition tick (url : string) : M Event unit :=
  simData <- geminiService.analyzeTargetForSimulation h url ;;
  forEach (SimData.logs simData) scheduleLog ;;
  (if (0 <? length (SimData.vulnerabilities simData))%nat
   then forEach (SimData.vulnerabilities simData) submitVuln
   else ret tt) ;;
  sleep 4000.

Definition prologue (url : string) : M Event unit :=
  emit (Do (SetIsScanning true)) ;;
  emit (Do ClearLogs) ;;
  emit (Do ClearVulnerabilities) ;;
  emit (Do ResetStats) ;;
  addLog SYSTEM "Initializing Sentinel Agent v2.4" CORE ;;
  addLog INFO ("Target acquired: " ++ url)%string CORE ;;
  addLog INFO "Loading stealth modules (puppeteer-extra-plugin-stealth)..." CRAWLER.

(** [const steps = 4] *)
Definition steps : nat := 4.

(** The [try] block. [scanning] is the value of [isScanning] that the
    closure captured. *)
Definition mission (url : string) (scanning : bool) : M Event unit :=
  sleep 800 ;;
  r <- random h ;;
  addLog SUCCESS
    ("Headless Browser Launched (PID: " ++ string_of_Z (Qfloor (mul64 r 9000) + 1000)
     ++ ")")%string
    CRAWLER ;;
  for_range 0 steps (fun i =>
    if negb scanning && (0 <? i) then ret Break
    else tick url ;; ret Continue) ;;
  addLog SUCCESS "Scan Complete. Generating Report..." CORE.

(** [startScan], as created by the render of state [s]. *)
Definition startScan (s : State) : M Event unit :=
  if negb (truthy (targetUrl s)) then
    addLog ERROR "Target URL is required." CORE
  else if negb API_KEY_AVAILABLE then
    addLog ERROR "API_KEY not found in environment." CORE
  else
    prologue (targetUrl s) ;;
    try_finally
      (try_catch (mission (targetUrl s) (isScanning s))
         (fun _ => addLog ERROR "Agent connection severed unexpectedly." CORE))
      (emit (Do (SetIsScanning false))).

Definition stopScan : M Event unit :=
  emit (Do (SetIsScanning false)) ;;
  addLog WARN "Manual Override: Scan Aborted." CORE.
End Scan.

End AppPlain.

(** ** Vocabulary of the properties of the site-map version *)

Module AppSpec.
Import App.

(** The updates that only the start of a session performs. *)
Definition isReset (e : Event) : bool :=
  match e with
  | ClearLogs | ClearVulnerabilities | ClearCrawlNodes | ResetStats => true
  | _ => false
  end.

(** A node without a parent that is not pending. *)
Definition flat (n : CrawlNode.t) : Prop :=
  CrawlNode.parent n = None /\ CrawlNode.status n <> pending.

(** What an update adds to each counter. *)
Definition gain (e : Event) (s : State) : ScanStats.t :=
  match e with
  | LogTimer log _ _ =>
      ScanStats.mk (match SimLog.module log with CRAWLER => 1 | _ => 0 end)
                   (match SimLog.module log with FORM_BOT => 1 | _ => 0 end) 0 0
  | MergeVuln v _ _ _ =>
      ScanStats.mk 0 0 (if known (vulnerabilities s) v then 0 else 1) 0
  | DurationTick => ScanStats.mk 0 0 0 1
  | _ => ScanStats.zero
  end.

Definition plus (a b : ScanStats.t) : ScanStats.t :=
  ScanStats.mk (ScanStats.pagesCrawled a + ScanStats.pagesCrawled b)
               (ScanStats.formsDetected a + ScanStats.formsDetected b)
               (ScanStats.vulnsFound a + ScanStats.vulnsFound b)
               (ScanStats.durationSeconds a + ScanStats.durationSeconds b).

(** The counter of findings and the list of findings move together. *)
Definition counted (s : State) : Prop :=
  ScanStats.vulnsFound (stats s) = Z.of_nat (length (vulnerabilities s)).

(** The nodes that an update adds to the site map. *)
Definition nodesOf (e : Event) : list CrawlNode.t :=
  match e with
  | SeedRoot => [rootNode]
  | PushNode id path simData i => [tickNode id path simData i]
  | _ => []
  end.

(** The log that a timer callback merges, the finding that an update of
    the finding list submits. *)
Definition logOf (e : Event) : list SimLog.t :=
  match e with LogTimer log _ _ => [log] | _ => [] end.

Definition findingOf (e : Event) : list Finding.t :=
  match e with MergeVuln v _ _ _ => [v] | _ => [] end.
End AppSpec.

(** ** Sample data, used to run the definitions *)

Module Sample.

Definition xss : Finding.t :=
  Finding.mk "XSS" HIGH "Reflected input in the search bar" "/search" None.

Definition sqli : Finding.t :=
  Finding.mk "SQLi" CRITICAL "Injectable id parameter" "/api/v1?id=1"
    (Some "' OR 1=1 --").

(** A batch with two logs and three findings, two of them of one type. *)
Definition batch : SimData.t :=
  SimData.mk
    [SimLog.mk INFO "GET /search [200 OK]" CRAWLER;
     SimLog.mk INFO "Found input[name='q']" FORM_BOT]
    [xss; sqli; xss].

(** A host whose API rejects the first call, answers the second with a
    fenced JSON text, the third with an empty text and the others with
    the bare text; its parser knows one text.  Its values of
    [Math.random] are multiples of 1/64, hence doubles. *)
Definition host : Host :=
  {| API_KEY := Some "key";
     Math_random := fun n => (Z.of_nat (n mod 64) # 64)%Q;
     Date_toLocaleTimeString := fun n => ("12:00:" ++ string_of_Z (Z.of_nat n))%string;
     Number_toString := fun q _ => ("0." ++ string_of_Z (Qfloor (q * 1000000000000)))%string;
     JSON_parse := fun s =>
       if String.eqb s "{}" then inr batch else inl (Thrown "SyntaxError");
     generateContent_settles := fun n _ =>
       match n with
       | O => Rejects (Thrown "fetch failed")
       | 1%nat => Resolves (Some "```json
{}
```
")
       | 2%nat => Resolves (Some EmptyString)
       | _ => Resolves (Some "{}")
       end |}.

(** The cursor after [n] calls of the API. *)
Definition atCall (n : nat) : Cursor := {| randoms := 0; clocks := 0; calls := n |}.

Definition entry (i : nat) : LogEntry.t :=
  newLog (string_of_Z (Z.of_nat i)) "12:00:00" INFO "GET / [200 OK]" CRAWLER.

(** A site-map App with a target typed in, idle and scanning. *)
Definition idle : App.State := App.step (App.SetTargetUrl "https://example.com") App.initial.
Definition busy : App.State := App.step (App.SetIsScanning true) idle.

Definition idlePlain : AppPlain.State :=
  AppPlain.step (AppPlain.SetTargetUrl "https://example.com") AppPlain.initial.
Definition busyPlain : AppPlain.State :=
  AppPlain.step (AppPlain.SetIsScanning true) idlePlain.

(** A site-map App that holds one finding of type XSS. *)
Definition found : App.State :=
  App.run [App.MergeVuln xss "0.k3x9" "a1b2c3d4e" "12:00:01"] idle.

(** The sample host without [process.env.API_KEY]. *)
Definition noKey : Host :=
  {| API_KEY := None;
     Math_random := Math_random host;
     Date_toLocaleTimeString := Date_toLocaleTimeString host;
     Number_toString := Number_toString host;
     JSON_parse := JSON_parse host;
     generateContent_settles := generateContent_settles host |}.

(** The updates of [n] successive runs of [startScan] of the version
    without the site map, from cursor [c]. *)
Fixpoint presses (h : Host) (s : AppPlain.State) (n : nat) (c : Cursor)
  : list AppPlain.Event :=
  match n with
  | O => []
  | S n' =>
      updates (script (AppPlain.startScan h s) c)
      ++ presses h s n' (after (AppPlain.startScan h s) c)
  end.

End Sample.

(** ** services/geminiService.ts: the static-analysis call *)

Module geminiCode.

(** The argument of the call of [analyzeCodeSnippet]; its [config] holds
    no [responseMimeType], which the record renders as the empty string. *)
Definition request (code : string) : GenerateContentParameters :=
  {| model := "gemini-3-pro-preview";
     contents :=
       ("Analyze this code snippet for security vulnerabilities. Provide a concise, bulleted markdown report focusing on critical risks like Injection, Auth bypass, or XSS.

Code:
" ++ code)%string;
     systemInstruction := "You are a Static Application Security Testing (SAST) engine.";
     responseMimeType := EmptyString |}.

Definition noAnalysis : string := "No analysis generated.".

Definition analysisError : string :=
  "Error analyzing code snippet. Ensure API Key is valid.".

Section Service.
Variable h : Host.
Variable E : Type.

(** [console.error] has no effect on the state of the program. *)
Definition analyzeCodeSnippet (code : string) : M E string :=
  try_catch
    (text <- generateContent h (request code) ;;
     (* response.text || noAnalysis *)
     ret (match text with
          | Some t => if truthy t then t else noAnalysis
          | None => noAnalysis
          end))
    (fun _ => ret analysisError).
End Service.

Arguments analyzeCodeSnippet h {E} code.

End geminiCode.

(** ** App.tsx: the SAST lab (both versions) *)

Module CodeLab.

(** The two state hooks of the lab. *)
Record State := {
  codeSnippet : string;
  codeAnalysis : string }.

Definition initial : State :=
  {| codeSnippet := EmptyString; codeAnalysis := EmptyString |}.

Inductive Event :=
| SetCodeSnippet (value : string)     (** [setCodeSnippet(e.target.value)] *)
| SetCodeAnalysis (value : string).   (** [setCodeAnalysis(value)] *)

Definition step (e : Event) (s : State) : State :=
  match e with
  | SetCodeSnippet value => {| codeSnippet := value; codeAnalysis := codeAnalysis s |}
  | SetCodeAnalysis value => {| codeSnippet := codeSnippet s; codeAnalysis := value |}
  end.

Definition run (tr : list Event) (s : State) : State :=
  fold_left (fun s e => step e s) tr s.

Section Lab.
Variable h : Host.

(** [analyzeCode] of the version with the site map, as created by the
    render of state [s]. *)
Definition analyzeCode (s : State) : M Event unit :=
  if negb (truthy (trim (codeSnippet s))) then ret tt
  else
    emit (Do (SetCodeAnalysis "Initializing Static Analysis Engine...")) ;;
    try_catch
      (result <- geminiCode.analyzeCodeSnippet h (codeSnippet s) ;;
       emit (Do (SetCodeAnalysis result)))
      (fun _ => emit (Do (SetCodeAnalysis "Analysis failed. Check logs."))).

(** [analyzeCode] of the version without the site map. *)
Definition analyzeCodePlain (s : State) : M Event unit :=
  if negb (truthy (codeSnippet s)) then ret tt
  else
    emit (Do (SetCodeAnalysis "Analyzing...")) ;;
    result <- geminiCode.analyzeCodeSnippet h (codeSnippet s) ;;
    emit (Do (SetCodeAnalysis result)).
End Lab.

(** What the output panel shows: [{codeAnalysis || 'SAST Idle.'}] in the
    version with the site map, the analysis or 'Waiting for input...' in
    the other. *)
Definition shown (s : State) : string :=
  if truthy (codeAnalysis s) then codeAnalysis s else "SAST Idle.".

Definition shownPlain (s : State) : string :=
  if truthy (codeAnalysis s) then codeAnalysis s else "Waiting for input...".

End CodeLab.

(** ** App.tsx: the main button *)

Module AppButton.
Import App.

(** [onClick={isScanning ? () => setIsScanning(false) : startScan}] *)
Definition onClick (h : Host) (s : State) : M Event unit :=
  if isScanning s then emit (Do (SetIsScanning false)) else startScan h s.

(** [disabled={!targetUrl && !isScanning}] *)
Definition disabled (s : State) : bool :=
  negb (truthy (targetUrl s)) && negb (isScanning s).

End AppButton.

Module AppPlainButton.
Import AppPlain.

(** The STOP button while scanning, the ENGAGE button otherwise. *)
Definition onClick (h : Host) (s : State) : M Event unit :=
  if isScanning s then stopScan h else startScan h s.

(** The STOP button is never disabled; ENGAGE has [disabled={!targetUrl}]. *)
Definition disabled (s : State) : bool :=
  if isScanning s then false else negb (truthy (targetUrl s)).

End AppPlainButton.

(** ** components/StatsPanel.tsx *)

Module StatsPanel.

(** The two slices given to the pie chart. *)
Definition data (stats : ScanStats.t) : list (string * Z) :=
  [("Secure", 100 - ScanStats.vulnsFound stats * 5);
   ("Critical", ScanStats.vulnsFound stats * 5)].

Definition COLORS : list string := ["#334155"; "#ef4444"].

(** [COLORS[index % COLORS.length]] *)
Definition fill (index : nat) : option string :=
  nth_error COLORS (index mod length COLORS).

End StatsPanel.

(** ** components/CrawlMap.tsx *)

Module CrawlMap.

(** The part of the class of a node that depends on its status. *)
Definition nodeClass (node : CrawlNode.t) : string :=
  match CrawlNode.status node with
  | vuln => "bg-red-500/20 border-red-500 text-red-400"
  | visited => "bg-green-500/10 border-green-500/50 text-green-400"
  | pending => "bg-slate-800/50 border-slate-700 text-slate-500"
  end.

(** [{nodes.length === 0 && ...}]: the notice of the empty map. *)
Definition emptyNotice (nodes : list CrawlNode.t) : bool :=
  Nat.eqb (length nodes) 0.

(** What the map renders for its nodes: the class and the text of each. *)
Definition cells (nodes : list CrawlNode.t) : list (string * string) :=
  map (fun node => (nodeClass node, CrawlNode.url node)) nodes.

End CrawlMap.

(** ** Vocabulary of the further properties *)

Module Vocabulary.
Import App.

(** [pat] occurs in [s]. *)
Fixpoint occurs (pat s : string) : bool :=
  String.prefix pat s ||
  match s with
  | EmptyString => false
  | String _ rest => occurs pat rest
  end.

Definition fence : string := "```".

(** The pattern of the first replacement of [cleanText]. *)
Definition fenceJson : string := "```json".

(** The character is a backtick. *)
Definition isTick (ch : ascii) : bool :=
  if ascii_dec "`"%char ch then true else false.

(** The line feed, as a character and as a text. *)
Definition lfc : ascii := ascii_of_nat 10.

Definition lf : string := String lfc EmptyString.

(** The delays of the timers that a script arms. *)
Definition delays {E} (t : list (Item E)) : list Z :=
  flat_map (fun i => match i with SetTimeout _ ms => [ms] | _ => [] end) t.

(** What an update of the list of findings carries: the finding, the
    identifier drawn for it, and the identifier and the time of its alert. *)
Definition Submission : Type := (Finding.t * string * string * string)%type.

Definition submissionOf (e : Event) : list Submission :=
  match e with MergeVuln v id logId ts => [(v, id, logId, ts)] | _ => [] end.

Definition submissionOfPlain (e : AppPlain.Event) : list Submission :=
  match e with AppPlain.MergeVuln v id logId ts => [(v, id, logId, ts)] | _ => [] end.

Definition idOf (x : Submission) : string :=
  match x with (_, id, _, _) => id end.

(** The submissions of the findings [vs] when [r] values of [Math.random]
    and [k] readings of the clock have been taken: each finding takes a
    value for the identifier of its alert, a reading of the clock, and a
    value of its own, whose text in base 36 is its identifier. *)
Fixpoint submissions (h : Host) (r k : nat) (vs : list Finding.t) : list Submission :=
  match vs with
  | [] => []
  | v :: vs' =>
      (v, Number_toString h (Math_random h (S r)) 36,
       substring 2 9 (Number_toString h (Math_random h r) 36),
       Date_toLocaleTimeString h k)
      :: submissions h (S (S r)) (S k) vs'
  end.

(** The URL of the node of a tick, from the two values of [Math.random]
    that the tick draws for it. *)
Definition tickPath (r1 r2 : Q) : string :=
  (item newPaths (Qfloor (mul64 r1 (inject_Z (Z.of_nat (length newPaths)))))
   ++ "?id=" ++ string_of_Z (Qfloor (mul64 r2 100)))%string.

(** How many updates of a sequence are timer callbacks that merge a log of
    module [m], and how many are ticks of the interval. *)
Definition mergesLog (m : ModuleTag) (e : Event) : bool :=
  match e with
  | LogTimer log _ _ =>
      match SimLog.module log, m with
      | CRAWLER, CRAWLER | DAST, DAST | FORM_BOT, FORM_BOT | CORE, CORE => true
      | _, _ => false
      end
  | _ => false
  end.

Definition isDurationTick (e : Event) : bool :=
  match e with DurationTick => true | _ => false end.

(** The updates that add to the list of crawl nodes or leave it alone. *)
Definition keepsNodes (e : Event) : bool :=
  match e with ClearCrawlNodes | SeedRoot => false | _ => true end.

(** The callbacks of timers: they run after the code that armed them. *)
Definition isTimer (e : Event) : bool :=
  match e with LogTimer _ _ _ | DurationTick => true | _ => false end.

Definition isTimerPlain (e : AppPlain.Event) : bool :=
  match e with AppPlain.LogTimer _ _ _ | AppPlain.DurationTick => true | _ => false end.

End Vocabulary.

(** ** Further sample data *)

Module Sample2.

(** A lab whose snippet is blank, and one with code in it. *)
Definition blankLab : CodeLab.State :=
  CodeLab.step (CodeLab.SetCodeSnippet "   ") CodeLab.initial.

Definition codeLab : CodeLab.State :=
  CodeLab.step (CodeLab.SetCodeSnippet "eval(req.query.q)") CodeLab.initial.

(** White space outside the ASCII range: U+00A0, U+FEFF and U+2028. *)
Definition nbsp : string := String (ascii_of_nat 194) (String (ascii_of_nat 160) EmptyString).

Definition bom : string :=
  String (ascii_of_nat 239) (String (ascii_of_nat 187) (String (ascii_of_nat 191) EmptyString)).

Definition lineSeparator : string :=
  String (ascii_of_nat 226) (String (ascii_of_nat 128) (String (ascii_of_nat 168) EmptyString)).

(** The letter a with a grave accent, U+00E0 (C3 A0). *)
Definition agrave : string := String (ascii_of_nat 195) (String (ascii_of_nat 160) EmptyString).

(** The double that the literal [0.24] denotes, and the largest double
    below 1. *)
Definition point24 : Q := (1080863910568919 # 4503599627370496)%Q.

Definition nearOne : Q := (9007199254740991 # 9007199254740992)%Q.

(** The sample host, with these two values of [Math.random] in turn. *)
Definition doubleHost : Host :=
  {| API_KEY := API_KEY Sample.host;
     Math_random := fun n => if Nat.even n then point24 else nearOne;
     Date_toLocaleTimeString := Date_toLocaleTimeString Sample.host;
     Number_toString := Number_toString Sample.host;
     JSON_parse := JSON_parse Sample.host;
     generateContent_settles := generateContent_settles Sample.host |}.

(** A lab whose snippet is a no-break space, a tab and a byte order mark. *)
Definition nbspLab : CodeLab.State :=
  CodeLab.step (CodeLab.SetCodeSnippet (nbsp ++ String (ascii_of_nat 9) bom)%string)
    CodeLab.initial.

(** A list of fifty log entries. *)
Definition fiftyLogs : list LogEntry.t := map Sample.entry (seq 0 50).

Definition fullLog : App.State := App.run (map App.AddLog fiftyLogs) Sample.idle.

End Sample2.

(** * Properties *)

(** ** Running computations *)

Section AsyncFacts.
Context {E : Type}.

Lemma bind_ok {A B} (m : M E A) (k : A -> M E B) c a c1 t1 :
  m c = (inr a, c1, t1) ->
  bind m k c = (fst (fst (k a c1)), snd (fst (k a c1)), t1 ++ snd (k a c1)).
Proof.
  intros Hm. unfold bind. rewrite Hm. destruct (k a c1) as [[r c2] t2]. reflexivity.
Qed.

Lemma bind_throws {A B} (m : M E A) (k : A -> M E B) c e c1 t1 :
  m c = (inl e, c1, t1) -> bind m k c = (inl e, c1, t1).
Proof. intros Hm. unfold bind. rewrite Hm. reflexivity. Qed.

Lemma requests_app (t1 t2 : list (Item E)) :
  requests (t1 ++ t2) = requests t1 ++ requests t2.
Proof. unfold requests. apply flat_map_app. Qed.

Lemma updates_app (t1 t2 : list (Item E)) :
  updates (t1 ++ t2) = updates t1 ++ updates t2.
Proof. unfold updates. apply flat_map_app. Qed.

Lemma callbacks_app (t1 t2 : list (Item E)) :
  callbacks (t1 ++ t2) = callbacks t1 ++ callbacks t2.
Proof. unfold callbacks. apply flat_map_app. Qed.

Lemma waits_app (t1 t2 : list (Item E)) :
  waits (t1 ++ t2) = waits t1 ++ waits t2.
Proof. unfold waits. apply flat_map_app. Qed.
End AsyncFacts.

(** ** The simulation service *)

Section ServiceFacts.
Variable h : Host.
Variable E : Type.

Import geminiService.

(** Whatever the API does, the [try] block sends one request. *)
Lemma attempt_script url c :
  script (attempt h (E:=E) url) c = [AwaitGenerateContent (request url)].
Proof.
  unfold script, attempt, bind, generateContent.
  destruct (generateContent_settles h (calls c) (request url)) as [e | [text |]]; cbn;
    try reflexivity.
  destruct (truthy text); cbn; [| reflexivity].
  destruct (JSON_parse h (cleanText text)); reflexivity.
Qed.

Lemma analyze_run url c :
  exists data,
    analyzeTargetForSimulation h (E:=E) url c =
      (inr data,
       {| randoms := randoms c; clocks := clocks c; calls := S (calls c) |},
       [AwaitGenerateContent (request url)]).
Proof.
  unfold analyzeTargetForSimulation, try_catch, attempt, bind, generateContent.
  destruct (generateContent_settles h (calls c) (request url)) as [e | [text |]]; cbn;
    try (eexists; reflexivity).
  destruct (truthy text); cbn; [| eexists; reflexivity].
  destruct (JSON_parse h (cleanText text)); cbn; eexists; reflexivity.
Qed.

(** C3: when the call of the generative API throws, the service returns
    the fallback (seven fixed log entries, of which only the fourth
    carries the target URL, and no vulnerability), as a value and not as
    an exception. *)
Theorem analyze_fallback_on_failure url c e :
  generateContent_settles h (calls c) (request url) = Rejects e ->
  result (analyzeTargetForSimulation h (E:=E) url) c = inr (fallback url) /\
  length (SimData.logs (fallback url)) = 7%nat /\
  SimData.vulnerabilities (fallback url) = [] /\
  nth_error (SimData.logs (fallback url)) 3 =
    Some (SimLog.mk WARN ("Simulating scan for " ++ url)%string CORE) /\
  (forall url' i, i <> 3%nat ->
     nth_error (SimData.logs (fallback url)) i =
     nth_error (SimData.logs (fallback url')) i).
Proof.
  intros Hrej. repeat split.
  - unfold result, analyzeTargetForSimulation, try_catch, attempt, bind, generateContent.
    rewrite Hrej. reflexivity.
  - intros url' i Hi.
    do 7 (destruct i as [| i]; [try reflexivity; congruence |]).
    destruct i; reflexivity.
Qed.

(** C8: an invocation sends exactly one request and awaits nothing else;
    its result is a value in every case, and it is the empty result when
    the response has no text. *)
Theorem analyze_single_request url c :
  script (analyzeTargetForSimulation h (E:=E) url) c =
    [AwaitGenerateContent (request url)] /\
  calls (after (analyzeTargetForSimulation h (E:=E) url) c) = S (calls c) /\
  (exists data, result (analyzeTargetForSimulation h (E:=E) url) c = inr data) /\
  (forall text,
     generateContent_settles h (calls c) (request url) = Resolves text ->
     truthy_opt text = false ->
     result (analyzeTargetForSimulation h (E:=E) url) c = inr empty).
Proof.
  destruct (analyze_run url c) as [data Hrun].
  unfold script, after, result. rewrite Hrun. cbn.
  repeat split; [eexists; reflexivity |].
  intros text Hres Hfalsy.
  unfold analyzeTargetForSimulation, try_catch, attempt, bind, generateContent in Hrun.
  rewrite Hres in Hrun.
  destruct text as [text |]; cbn in *.
  - rewrite Hfalsy in Hrun. cbn in Hrun. congruence.
  - congruence.
Qed.
End ServiceFacts.

(** At the sample host the first call is rejected. *)
Lemma analyze_fallback_on_failure_witness :
  result (geminiService.analyzeTargetForSimulation Sample.host (E:=App.Event)
            "https://example.com") (Sample.atCall 0)
  = inr (geminiService.fallback "https://example.com").
Proof.
  apply (analyze_fallback_on_failure Sample.host App.Event "https://example.com"
           (Sample.atCall 0) (Thrown "fetch failed")).
  reflexivity.
Defined.

(** At the sample host the third call resolves with an empty text. *)
Lemma analyze_single_request_witness :
  result (geminiService.analyzeTargetForSimulation Sample.host (E:=App.Event)
            "https://example.com") (Sample.atCall 2)
  = inr geminiService.empty.
Proof.
  apply (analyze_single_request Sample.host App.Event "https://example.com"
           (Sample.atCall 2)) with (text := Some EmptyString); reflexivity.
Defined.

(** ** Shared updates *)

Lemma known_spec prev v :
  known prev v = true <->
  exists p, In p prev /\ Vulnerability.type p = Finding.type v.
Proof.
  unfold known. rewrite existsb_exists.
  split; intros [p [Hin Heq]]; exists p; split; auto; apply String.eqb_eq; exact Heq.
Qed.

Lemma known_false_notin prev v :
  known prev v = false -> ~ In (Finding.type v) (map Vulnerability.type prev).
Proof.
  intros Hk Hin. apply in_map_iff in Hin. destruct Hin as [p [Heq Hin]].
  assert (known prev v = true) by (apply known_spec; eauto).
  congruence.
Qed.

Lemma NoDup_snoc {A} (l : list A) (x : A) :
  NoDup l -> ~ In x l -> NoDup (l ++ [x]).
Proof.
  intros Hl Hx. apply NoDup_app; auto.
  - constructor; [intros [] | constructor].
  - intros a Ha [<- | []]. contradiction.
Qed.

Lemma slice_last_suffix {A} n (prev : list A) :
  firstn (length prev - n) prev ++ slice_last n prev = prev.
Proof. unfold slice_last. apply firstn_skipn. Qed.

Lemma slice_last_length {A} n (prev : list A) :
  (length (slice_last n prev) <= n)%nat.
Proof. unfold slice_last. rewrite length_skipn. lia. Qed.

Lemma slice_last_short {A} n (prev : list A) :
  (length prev <= n)%nat -> slice_last n prev = prev.
Proof.
  intros Hle. unfold slice_last.
  replace (length prev - n)%nat with 0%nat by lia. reflexivity.
Qed.

(** ** The site-map version: invariants of the state *)

Module AppFacts.
Import App AppSpec.

Lemma run_app tr1 tr2 s : run (tr1 ++ tr2) s = run tr2 (run tr1 s).
Proof. unfold run. apply fold_left_app. Qed.

Lemma run_cons e tr s : run (e :: tr) s = run tr (step e s).
Proof. reflexivity. Qed.

(** A property kept by the updates that satisfy [Q] is kept by their
    sequences. *)
Lemma run_invariant (P : State -> Prop) (Q : Event -> Prop) :
  (forall e s, Q e -> P s -> P (step e s)) ->
  forall tr s, Forall Q tr -> P s -> P (run tr s).
Proof.
  intros Hstep tr. induction tr as [| e tr IH]; intros s Hall Hs.
  - exact Hs.
  - rewrite run_cons. inversion Hall; subst. apply IH; auto.
Qed.

Lemma run_invariant_all (P : State -> Prop) :
  (forall e s, P s -> P (step e s)) ->
  forall tr s, P s -> P (run tr s).
Proof.
  intros Hstep tr s Hs.
  apply (run_invariant P (fun _ => True)); auto.
  apply Forall_forall. auto.
Qed.

Lemma sessionStart_run s :
  run sessionStart s =
    {| logs := []; vulnerabilities := []; crawlNodes := []; isScanning := true;
       targetUrl := targetUrl s; stats := ScanStats.zero |}.
Proof. reflexivity. Qed.

Ltac crush_step :=
  repeat match goal with
         | |- context [SimLog.module ?l] => destruct (SimLog.module l)
         | |- context [known ?p ?v] => destruct (known p v) eqn:?
         end; cbn; auto.

Lemma logTimer_vulnerabilities log id ts s :
  vulnerabilities (logTimer log id ts s) = vulnerabilities s.
Proof. unfold logTimer. crush_step. Qed.

Lemma logTimer_crawlNodes log id ts s :
  crawlNodes (logTimer log id ts s) = crawlNodes s.
Proof. unfold logTimer. crush_step. Qed.

Lemma logTimer_logs log id ts s :
  logs (logTimer log id ts s) =
    addLog_update (newLog id ts (SimLog.level log) (SimLog.message log)
                     (SimLog.module log)) (logs s).
Proof. unfold logTimer. destruct (SimLog.module log) eqn:Hm; reflexivity. Qed.

Lemma logTimer_vulnsFound log id ts s :
  ScanStats.vulnsFound (stats (logTimer log id ts s)) = ScanStats.vulnsFound (stats s).
Proof. unfold logTimer. crush_step. Qed.

(** Distinct types are kept by every update. *)
Lemma step_types_unique e s :
  NoDup (map Vulnerability.type (vulnerabilities s)) ->
  NoDup (map Vulnerability.type (vulnerabilities (step e s))).
Proof.
  intros Hs. destruct e; cbn; auto.
  - constructor.
  - rewrite logTimer_vulnerabilities. exact Hs.
  - unfold mergeVuln. destruct (known (vulnerabilities s) v) eqn:Hk; cbn; auto.
    rewrite map_app. cbn. apply NoDup_snoc; auto.
    now apply known_false_notin.
Qed.

(** The log list holds at most 50 entries after any update that adds to it. *)
Lemma addLog_update_length l prev :
  (length (addLog_update l prev) <= 50)%nat.
Proof.
  unfold addLog_update. rewrite length_app. cbn.
  pose proof (slice_last_length 49 prev). lia.
Qed.

Lemma step_logs_capped e s :
  (length (logs s) <= 50)%nat -> (length (logs (step e s)) <= 50)%nat.
Proof.
  intros Hs. destruct e; cbn; auto; try lia.
  - apply addLog_update_length.
  - rewrite logTimer_logs. apply addLog_update_length.
  - unfold mergeVuln. destruct (known (vulnerabilities s) v); cbn; auto.
    apply addLog_update_length.
Qed.

(** Nodes stay flat. *)
Lemma tickNode_flat id path simData i : flat (tickNode id path simData i).
Proof.
  unfold flat, tickNode; cbn. split; [reflexivity |].
  destruct (SimData.vulnerabilities simData); cbn; discriminate.
Qed.

Lemma step_nodes_flat e s :
  Forall flat (crawlNodes s) -> Forall flat (crawlNodes (step e s)).
Proof.
  intros Hs. destruct e; cbn; auto.
  - repeat constructor. discriminate.
  - apply Forall_app. split; auto. repeat constructor; apply tickNode_flat.
  - rewrite logTimer_crawlNodes. exact Hs.
  - unfold mergeVuln. destruct (known (vulnerabilities s) v); cbn; auto.
Qed.

Lemma stats_eta (t : ScanStats.t) :
  ScanStats.mk (ScanStats.pagesCrawled t) (ScanStats.formsDetected t)
    (ScanStats.vulnsFound t) (ScanStats.durationSeconds t) = t.
Proof. destruct t; reflexivity. Qed.

Lemma step_gain e s :
  e <> ResetStats -> stats (step e s) = plus (stats s) (gain e s).
Proof.
  intros He. unfold plus.
  destruct e; cbn; try congruence;
    rewrite ?Z.add_0_r; try (symmetry; apply stats_eta).
  - unfold logTimer. destruct (SimLog.module log); cbn;
      rewrite ?Z.add_0_r; try (symmetry; apply stats_eta); reflexivity.
  - unfold mergeVuln. destruct (known (vulnerabilities s) v); cbn;
      rewrite ?Z.add_0_r; try (symmetry; apply stats_eta); reflexivity.
  - reflexivity.
Qed.

Lemma gain_unit e s :
  let g := gain e s in
  (ScanStats.pagesCrawled g = 0 \/ ScanStats.pagesCrawled g = 1) /\
  (ScanStats.formsDetected g = 0 \/ ScanStats.formsDetected g = 1) /\
  (ScanStats.vulnsFound g = 0 \/ ScanStats.vulnsFound g = 1) /\
  (ScanStats.durationSeconds g = 0 \/ ScanStats.durationSeconds g = 1).
Proof.
  destruct e; cbn; auto.
  - destruct (SimLog.module log); cbn; auto.
  - destruct (known (vulnerabilities s) v); cbn; auto.
Qed.

Lemma le_refl t : ScanStats.le t t.
Proof. unfold ScanStats.le. lia. Qed.

Lemma le_trans a b c : ScanStats.le a b -> ScanStats.le b c -> ScanStats.le a c.
Proof. unfold ScanStats.le. lia. Qed.

Lemma step_stats_le e s : e <> ResetStats -> ScanStats.le (stats s) (stats (step e s)).
Proof.
  intros He. rewrite (step_gain e s He).
  pose proof (gain_unit e s) as Hg. cbn in Hg.
  unfold ScanStats.le, plus; cbn. lia.
Qed.

Lemma run_stats_le tr : forall s,
  Forall (fun e => e <> ResetStats) tr -> ScanStats.le (stats s) (stats (run tr s)).
Proof.
  induction tr as [| e tr IH]; intros s Hall.
  - apply le_refl.
  - inversion Hall; subst. rewrite run_cons.
    apply le_trans with (stats (step e s)).
    + apply step_stats_le. assumption.
    + apply IH. assumption.
Qed.

Lemma step_counted e s : isReset e = false -> counted s -> counted (step e s).
Proof.
  unfold counted. intros He Hs. destruct e; cbn in *; auto; try discriminate.
  - rewrite logTimer_vulnsFound, logTimer_vulnerabilities. exact Hs.
  - unfold mergeVuln. destruct (known (vulnerabilities s) v); cbn; auto.
    rewrite length_app. cbn. lia.
Qed.
End AppFacts.

(** ** Composition of runs *)

Section RunFacts.
Context {E : Type}.

Lemma runs_ret {A} (a : A) c : runs (ret (E:=E) a) c a c [].
Proof. reflexivity. Qed.

Lemma runs_emit (i : Item E) c : runs (emit i) c tt c [i].
Proof. reflexivity. Qed.

Lemma runs_bind {A B} (m : M E A) (k : A -> M E B) c a c1 t1 b c2 t2 :
  runs m c a c1 t1 -> runs (k a) c1 b c2 t2 -> runs (bind m k) c b c2 (t1 ++ t2).
Proof.
  unfold runs. intros Hm Hk. unfold bind. rewrite Hm, Hk. reflexivity.
Qed.

Lemma runs_try_catch {A} (body : M E A) handler c a c1 t1 :
  runs body c a c1 t1 -> runs (try_catch body handler) c a c1 t1.
Proof. unfold runs. intros Hb. unfold try_catch. rewrite Hb. reflexivity. Qed.

Lemma runs_try_finally {A} (body : M E A) fin c a c1 t1 c2 t2 :
  runs body c a c1 t1 -> runs fin c1 tt c2 t2 ->
  runs (try_finally body fin) c a c2 (t1 ++ t2).
Proof.
  unfold runs. intros Hb Hf. unfold try_finally. rewrite Hb, Hf. reflexivity.
Qed.

Lemma runs_script {A} (m : M E A) c a c1 t1 : runs m c a c1 t1 -> script m c = t1.
Proof. unfold runs, script. intros ->. reflexivity. Qed.

(** A loop whose body never breaks and sends one request per iteration
    sends as many requests as it has iterations. *)
Lemma for_range_requests (body : Z -> M E Ctl) :
  (forall i c, exists c1 t1,
      runs (body i) c Continue c1 t1 /\ length (requests t1) = 1%nat) ->
  forall n i c, exists c1 t1,
    runs (for_range i n body) c tt c1 t1 /\ length (requests t1) = n.
Proof.
  intros Hbody n. induction n as [| n IH]; intros i c.
  - exists c, []. split; reflexivity.
  - destruct (Hbody i c) as [c1 [t1 [Hrun Hreq]]].
    destruct (IH (i + 1) c1) as [c2 [t2 [Hrun2 Hreq2]]].
    exists c2, (t1 ++ t2). split.
    + cbn [for_range]. eapply runs_bind; eassumption.
    + rewrite requests_app, length_app. lia.
Qed.
End RunFacts.

(** ** The site-map version: the scan *)

Module ScanFacts.
Import App AppSpec.

Section WithHost.
Variable h : Host.

Lemma addLog_runs level message module c :
  runs (addLog h level message module) c tt
    {| randoms := S (randoms c); clocks := S (clocks c); calls := calls c |}
    [Do (AddLog (newLog (logId h (Math_random h (randoms c)))
                   (Date_toLocaleTimeString h (clocks c)) level message module))].
Proof. reflexivity. Qed.

(** Arming the timers of a batch: one callback per log, in order, and
    nothing else. *)
Lemma scheduleLogs_runs logs : forall idx c, exists c1 t1,
  runs (forEach_from idx logs (scheduleLog h)) c tt c1 t1 /\
  requests t1 = [] /\ updates t1 = [] /\ waits t1 = [] /\
  flat_map logOf (callbacks t1) = logs.
Proof.
  induction logs as [| log logs IH]; intros idx c.
  - exists c, []. repeat split.
  - destruct (IH (idx + 1)
                {| randoms := S (randoms c); clocks := S (clocks c); calls := calls c |})
      as [c1 [t1 [Hrun [Hreq [Hupd [Hw Hcb]]]]]].
    exists c1. eexists ([_] ++ t1). split; [| repeat split].
    + cbn [forEach_from]. eapply (runs_bind _ _ _ tt); [reflexivity | exact Hrun].
    + rewrite requests_app, Hreq. reflexivity.
    + rewrite updates_app, Hupd. reflexivity.
    + rewrite waits_app, Hw. reflexivity.
    + rewrite callbacks_app, flat_map_app, Hcb. reflexivity.
Qed.

(** Submitting the findings of a batch: one update per finding, in
    order, and nothing else. *)
Lemma submitVulns_runs vs : forall idx c, exists c1 t1,
  runs (forEach_from idx vs (submitVuln h)) c tt c1 t1 /\
  requests t1 = [] /\ callbacks t1 = [] /\ waits t1 = [] /\
  flat_map findingOf (updates t1) = vs /\
  flat_map nodesOf (updates t1) = [].
Proof.
  induction vs as [| v vs IH]; intros idx c.
  - exists c, []. repeat split.
  - destruct (IH (idx + 1)
                {| randoms := S (S (randoms c)); clocks := S (clocks c);
                   calls := calls c |})
      as [c1 [t1 [Hrun [Hreq [Hcb [Hw [Hupd Hnodes]]]]]]].
    exists c1. eexists ([_] ++ t1). split; [| repeat split].
    + cbn [forEach_from]. eapply (runs_bind _ _ _ tt); [reflexivity | exact Hrun].
    + rewrite requests_app, Hreq. reflexivity.
    + rewrite callbacks_app, Hcb. reflexivity.
    + rewrite waits_app, Hw. reflexivity.
    + rewrite updates_app, flat_map_app, Hupd. reflexivity.
    + rewrite updates_app, flat_map_app, Hnodes. reflexivity.
Qed.

Lemma analyze_runs url c : exists data,
  runs (geminiService.analyzeTargetForSimulation h (E:=Event) url) c data
    {| randoms := randoms c; clocks := clocks c; calls := S (calls c) |}
    [AwaitGenerateContent (geminiService.request url)].
Proof. apply analyze_run. Qed.

(** One tick: a log, one request, one node built from the batch that
    the request returned, a timer per log of the batch, an update per
    finding of the batch, and a pause. *)
Lemma tick_runs url i c : exists data c1 t1,
  runs (tick h url i) c tt c1 t1 /\
  result (geminiService.analyzeTargetForSimulation h (E:=Event) url)
    {| randoms := S (randoms c); clocks := S (clocks c); calls := calls c |}
    = inr data /\
  requests t1 = [geminiService.request url] /\
  (exists id path, flat_map nodesOf (updates t1) = [tickNode id path data i]) /\
  flat_map logOf (callbacks t1) = SimData.logs data /\
  flat_map findingOf (updates t1) = SimData.vulnerabilities data /\
  waits t1 = [3000].
Proof.
  pose (c0 := {| randoms := S (randoms c); clocks := S (clocks c); calls := calls c |}).
  destruct (analyze_runs url c0) as [data Hdata].
  pose (c2 := {| randoms := S (S (S (randoms c0))); clocks := clocks c0;
                 calls := S (calls c0) |}).
  destruct (scheduleLogs_runs (SimData.logs data) 0 c2)
    as [c3 [tl [Hlogs [Hlreq [Hlupd [Hlw Hlcb]]]]]].
  assert (Hvs : exists c4 tv,
             runs (if (0 <? length (SimData.vulnerabilities data))%nat
                   then forEach (SimData.vulnerabilities data) (submitVuln h)
                   else ret tt) c3 tt c4 tv /\
             requests tv = [] /\ callbacks tv = [] /\ waits tv = [] /\
             flat_map findingOf (updates tv) = SimData.vulnerabilities data /\
             flat_map nodesOf (updates tv) = []).
  { destruct (SimData.vulnerabilities data) as [| v vs] eqn:Hv.
    - exists c3, []. repeat split.
    - rewrite <- Hv. destruct (submitVulns_runs (SimData.vulnerabilities data) 0 c3)
        as [c4 [tv Htv]].
      exists c4, tv. rewrite Hv in *. exact Htv. }
  destruct Hvs as [c4 [tv [Hvrun [Hvreq [Hvcb [Hvw [Hvupd Hvnodes]]]]]]].
  exists data, c4.
  eexists. split; [| split; [| split; [| split; [| split; [| split]]]]].
  - unfold tick.
    eapply runs_bind; [apply addLog_runs |].
    eapply runs_bind; [exact Hdata |].
    eapply (runs_bind _ _ _ (Math_random h (randoms c0))); [reflexivity |].
    eapply (runs_bind _ _ _ (Math_random h (S (randoms c0)))); [reflexivity |].
    eapply (runs_bind _ _ _ (Math_random h (S (S (randoms c0))))); [reflexivity |].
    eapply runs_bind; [apply runs_emit |].
    eapply runs_bind; [exact Hlogs |].
    eapply runs_bind; [exact Hvrun |].
    apply runs_emit.
  - unfold result. unfold runs in Hdata. subst c0. rewrite Hdata. reflexivity.
  - rewrite !requests_app, Hlreq, Hvreq. reflexivity.
  - eexists _, _. rewrite !updates_app, !flat_map_app, Hlupd, Hvnodes. reflexivity.
  - rewrite !callbacks_app, !flat_map_app, Hlcb, Hvcb.
    cbn [callbacks flat_map app]. apply app_nil_r.
  - rewrite !updates_app, !flat_map_app, Hlupd, Hvupd.
    cbn [updates flat_map app findingOf]. apply app_nil_r.
  - rewrite !waits_app, Hlw, Hvw. reflexivity.
Qed.

Lemma prologue_runs url c : exists c1 l1 l2,
  runs (prologue h url) c tt c1 (map Do sessionStart ++ [Do (AddLog l1); Do (AddLog l2)]) /\
  calls c1 = calls c.
Proof. eexists _, _, _. split; reflexivity. Qed.

(** With the flag captured as [false] the loop stops before its first
    iteration. *)
Lemma mission_idle_runs url c : exists c1 l1,
  runs (mission h url false) c tt c1 [AwaitTimeout 800; Do SeedRoot; Do (AddLog l1)].
Proof. eexists _, _. reflexivity. Qed.

(** With the flag captured as [true] the five iterations run. *)
Lemma mission_busy_runs url c : exists c1 t1,
  runs (mission h url true) c tt c1 t1 /\ length (requests t1) = 5%nat.
Proof.
  assert (Hbody : forall i c, exists c1 t1,
             runs (if negb true then ret Break else tick h url i ;; ret Continue)
               c Continue c1 t1 /\ length (requests t1) = 1%nat).
  { intros i c0. destruct (tick_runs url i c0) as [data [c1 [t1 [Hrun [_ [Hreq _]]]]]].
    exists c1, (t1 ++ []). split.
    - cbn [negb]. eapply runs_bind; [exact Hrun | apply runs_ret].
    - rewrite app_nil_r, Hreq. reflexivity. }
  destruct (for_range_requests _ Hbody 5%nat 0 c) as [c1 [t1 [Hrun Hreq]]].
  eexists _, _. split.
  - unfold mission.
    eapply runs_bind; [apply runs_emit |].
    eapply runs_bind; [apply runs_emit |].
    eapply runs_bind; [exact Hrun |].
    apply addLog_runs.
  - rewrite !requests_app, !length_app, Hreq. reflexivity.
Qed.

Lemma mission_runs url scanning c : exists c1 t1,
  runs (mission h url scanning) c tt c1 t1 /\
  length (requests t1) = (if scanning then 5 else 0)%nat.
Proof.
  destruct scanning.
  - apply mission_busy_runs.
  - destruct (mission_idle_runs url c) as [c1 [l1 Hrun]].
    eexists _, _. split; [exact Hrun | reflexivity].
Qed.

(** Past its guards, [startScan] performs the updates of the session
    start first, and sends as many requests as its loop has iterations
    that pass the guard on the captured flag. *)
Lemma startScan_runs s c :
  truthy (targetUrl s) = true -> API_KEY_AVAILABLE h = true ->
  exists c1 rest,
    runs (startScan h s) c tt c1 (map Do sessionStart ++ rest) /\
    length (requests rest) = (if isScanning s then 5 else 0)%nat.
Proof.
  intros Hurl Hkey.
  destruct (prologue_runs (targetUrl s) c) as [c1 [l1 [l2 [Hpro _]]]].
  destruct (mission_runs (targetUrl s) (isScanning s) c1) as [c2 [t2 [Hmis Hreq]]].
  exists c2, ([Do (AddLog l1); Do (AddLog l2)] ++ t2 ++ [Do (SetIsScanning false)]).
  split.
  - unfold startScan. rewrite Hurl, Hkey. cbn [negb].
    rewrite app_assoc.
    eapply runs_bind; [exact Hpro |].
    eapply runs_try_finally; [apply runs_try_catch; exact Hmis | apply runs_emit].
  - rewrite !requests_app, !length_app, Hreq. cbn. lia.
Qed.
End WithHost.
End ScanFacts.

(** ** The version without the site map *)

Module PlainFacts.
Import AppPlain.

Lemma plain_run_app tr1 tr2 s : run (tr1 ++ tr2) s = run tr2 (run tr1 s).
Proof. unfold run. apply fold_left_app. Qed.

Lemma plain_run_cons e tr s : run (e :: tr) s = run tr (step e s).
Proof. reflexivity. Qed.

Lemma plain_run_invariant_all (P : State -> Prop) :
  (forall e s, P s -> P (step e s)) ->
  forall tr s, P s -> P (run tr s).
Proof.
  intros Hstep tr. induction tr as [| e tr IH]; intros s Hs.
  - exact Hs.
  - rewrite plain_run_cons. apply IH. apply Hstep. exact Hs.
Qed.

Lemma plain_sessionStart_run s :
  run sessionStart s =
    {| logs := []; vulnerabilities := []; isScanning := true;
       targetUrl := targetUrl s; stats := ScanStats.zero |}.
Proof. reflexivity. Qed.

Lemma plain_logTimer_vulnerabilities log id ts s :
  vulnerabilities (logTimer log id ts s) = vulnerabilities s.
Proof. unfold logTimer. destruct (SimLog.module log); reflexivity. Qed.

Lemma plain_step_types_unique e s :
  NoDup (map Vulnerability.type (vulnerabilities s)) ->
  NoDup (map Vulnerability.type (vulnerabilities (step e s))).
Proof.
  intros Hs. destruct e; cbn; auto.
  - constructor.
  - rewrite plain_logTimer_vulnerabilities. exact Hs.
  - unfold mergeVuln. destruct (known (vulnerabilities s) v) eqn:Hk; cbn; auto.
    rewrite map_app. cbn. apply NoDup_snoc; auto.
    now apply known_false_notin.
Qed.

Section WithHost.
Variable h : Host.

Lemma plain_addLog_runs level message module c :
  runs (addLog h level message module) c tt
    {| randoms := S (randoms c); clocks := S (clocks c); calls := calls c |}
    [Do (AddLog (newLog (logId h (Math_random h (randoms c)))
                   (Date_toLocaleTimeString h (clocks c)) level message module))].
Proof. reflexivity. Qed.

Lemma plain_scheduleLogs_runs logs : forall idx c, exists c1 t1,
  runs (forEach_from idx logs (scheduleLog h)) c tt c1 t1 /\ requests t1 = [].
Proof.
  induction logs as [| log logs IH]; intros idx c.
  - exists c, []. split; reflexivity.
  - destruct (IH (idx + 1)
                {| randoms := S (randoms c); clocks := S (clocks c); calls := calls c |})
      as [c1 [t1 [Hrun Hreq]]].
    exists c1. eexists ([_] ++ t1). split.
    + cbn [forEach_from]. eapply (runs_bind _ _ _ tt); [reflexivity | exact Hrun].
    + rewrite requests_app, Hreq. reflexivity.
Qed.

Lemma plain_submitVulns_runs vs : forall idx c, exists c1 t1,
  runs (forEach_from idx vs (submitVuln h)) c tt c1 t1 /\ requests t1 = [].
Proof.
  induction vs as [| v vs IH]; intros idx c.
  - exists c, []. split; reflexivity.
  - destruct (IH (idx + 1)
                {| randoms := S (S (randoms c)); clocks := S (clocks c);
                   calls := calls c |})
      as [c1 [t1 [Hrun Hreq]]].
    exists c1. eexists ([_] ++ t1). split.
    + cbn [forEach_from]. eapply (runs_bind _ _ _ tt); [reflexivity | exact Hrun].
    + rewrite requests_app, Hreq. reflexivity.
Qed.

(** One tick sends one request. *)
Lemma plain_tick_runs url c : exists c1 t1,
  runs (tick h url) c tt c1 t1 /\ requests t1 = [geminiService.request url].
Proof.
  destruct (analyze_run h Event url c) as [data Hdata].
  destruct (plain_scheduleLogs_runs (SimData.logs data) 0
              {| randoms := randoms c; clocks := clocks c; calls := S (calls c) |})
    as [c3 [tl [Hlogs Hlreq]]].
  assert (Hvs : exists c4 tv,
             runs (if (0 <? length (SimData.vulnerabilities data))%nat
                   then forEach (SimData.vulnerabilities data) (submitVuln h)
                   else ret tt) c3 tt c4 tv /\ requests tv = []).
  { destruct (0 <? length (SimData.vulnerabilities data))%nat.
    - apply plain_submitVulns_runs.
    - exists c3, []. split; reflexivity. }
  destruct Hvs as [c4 [tv [Hvrun Hvreq]]].
  exists c4. eexists. split.
  - unfold tick.
    eapply runs_bind; [exact Hdata |].
    eapply runs_bind; [exact Hlogs |].
    eapply runs_bind; [exact Hvrun |].
    apply runs_emit.
  - rewrite !requests_app, Hlreq, Hvreq. reflexivity.
Qed.

Lemma plain_prologue_runs url c : exists c1 l1 l2 l3,
  runs (prologue h url) c tt c1
    (map Do sessionStart ++ [Do (AddLog l1); Do (AddLog l2); Do (AddLog l3)]).
Proof. eexists _, _, _, _. reflexivity. Qed.

(** With the flag captured as [false] the loop runs its first
    iteration and stops before the second. *)
Lemma loop_idle_runs url c : exists c1 t1,
  runs (for_range 0 steps (fun i =>
          if negb false && (0 <? i) then ret Break else tick h url ;; ret Continue))
    c tt c1 t1 /\
  length (requests t1) = 1%nat.
Proof.
  destruct (plain_tick_runs url c) as [c1 [t1 [Hrun Hreq]]].
  exists c1. eexists. split.
  - unfold steps. cbn [for_range].
    eapply (runs_bind _ _ _ Continue).
    + cbn. eapply runs_bind; [exact Hrun | apply runs_ret].
    + cbn. reflexivity.
  - rewrite !requests_app, Hreq. reflexivity.
Qed.

Lemma loop_busy_runs url c : exists c1 t1,
  runs (for_range 0 steps (fun i =>
          if negb true && (0 <? i) then ret Break else tick h url ;; ret Continue))
    c tt c1 t1 /\
  length (requests t1) = 4%nat.
Proof.
  apply for_range_requests. intros i c0.
  destruct (plain_tick_runs url c0) as [c1 [t1 [Hrun Hreq]]].
  exists c1, (t1 ++ []). split.
  - cbn [negb andb]. eapply runs_bind; [exact Hrun | apply runs_ret].
  - rewrite app_nil_r, Hreq. reflexivity.
Qed.

Lemma plain_mission_runs url scanning c : exists c1 t1,
  runs (mission h url scanning) c tt c1 t1 /\
  length (requests t1) = (if scanning then 4 else 1)%nat.
Proof.
  pose (c0 := {| randoms := S (S (randoms c)); clocks := S (clocks c);
                 calls := calls c |}).
  assert (Hloop : exists c1 t1,
             runs (for_range 0 steps (fun i =>
                     if negb scanning && (0 <? i) then ret Break
                     else tick h url ;; ret Continue)) c0 tt c1 t1 /\
             length (requests t1) = (if scanning then 4 else 1)%nat).
  { destruct scanning; [apply loop_busy_runs | apply loop_idle_runs]. }
  destruct Hloop as [c1 [t1 [Hrun Hreq]]].
  eexists _, _. split.
  - unfold mission.
    eapply runs_bind; [apply runs_emit |].
    eapply (runs_bind _ _ _ (Math_random h (randoms c))); [reflexivity |].
    eapply runs_bind; [apply plain_addLog_runs |].
    eapply runs_bind; [exact Hrun |].
    apply plain_addLog_runs.
  - rewrite !requests_app, !length_app, Hreq. cbn. lia.
Qed.

Lemma plain_startScan_runs s c :
  truthy (targetUrl s) = true -> API_KEY_AVAILABLE h = true ->
  exists c1 rest,
    runs (startScan h s) c tt c1 (map Do sessionStart ++ rest) /\
    length (requests rest) = (if isScanning s then 4 else 1)%nat.
Proof.
  intros Hurl Hkey.
  destruct (plain_prologue_runs (targetUrl s) c) as [c1 [l1 [l2 [l3 Hpro]]]].
  destruct (plain_mission_runs (targetUrl s) (isScanning s) c1) as [c2 [t2 [Hmis Hreq]]].
  exists c2, ([Do (AddLog l1); Do (AddLog l2); Do (AddLog l3)] ++ t2
              ++ [Do (SetIsScanning false)]).
  split.
  - unfold startScan. rewrite Hurl, Hkey. cbn [negb].
    rewrite app_assoc.
    eapply runs_bind; [exact Hpro |].
    eapply runs_try_finally; [apply runs_try_catch; exact Hmis | apply runs_emit].
  - rewrite !requests_app, !length_app, Hreq. cbn. lia.
Qed.
End WithHost.
End PlainFacts.

(** ** The identifiers of the findings *)

Module SubmitFacts.
Import Vocabulary.

Section WithHost.
Variable h : Host.

(** Arming the timers of a batch takes one value of [Math.random] and one
    reading of the clock per log, and enqueues no update. *)
Lemma scheduleLogs_cursor logs : forall idx c, exists t1,
  runs (forEach_from idx logs (App.scheduleLog h)) c tt
    {| randoms := length logs + randoms c; clocks := length logs + clocks c;
       calls := calls c |} t1 /\
  updates t1 = [].
Proof.
  induction logs as [| log logs IH]; intros idx c.
  - exists []. destruct c. split; reflexivity.
  - destruct (IH (idx + 1)
                {| randoms := S (randoms c); clocks := S (clocks c); calls := calls c |})
      as [t1 [Hrun Hupd]].
    eexists ([_] ++ t1). split.
    + cbn [forEach_from]. eapply (runs_bind _ _ _ tt); [reflexivity |].
      cbn [randoms clocks calls length] in *.
      rewrite <- !plus_n_Sm in Hrun. exact Hrun.
    + rewrite updates_app, Hupd. reflexivity.
Qed.

Lemma plain_scheduleLogs_cursor logs : forall idx c, exists t1,
  runs (forEach_from idx logs (AppPlain.scheduleLog h)) c tt
    {| randoms := length logs + randoms c; clocks := length logs + clocks c;
       calls := calls c |} t1 /\
  updates t1 = [].
Proof.
  induction logs as [| log logs IH]; intros idx c.
  - exists []. destruct c. split; reflexivity.
  - destruct (IH (idx + 1)
                {| randoms := S (randoms c); clocks := S (clocks c); calls := calls c |})
      as [t1 [Hrun Hupd]].
    eexists ([_] ++ t1). split.
    + cbn [forEach_from]. eapply (runs_bind _ _ _ tt); [reflexivity |].
      cbn [randoms clocks calls length] in *.
      rewrite <- !plus_n_Sm in Hrun. exact Hrun.
    + rewrite updates_app, Hupd. reflexivity.
Qed.

(** Submitting the findings of a batch: each finding is submitted with the
    values drawn for it. *)
Lemma submitVulns_cursor vs : forall idx c, exists c1 t1,
  runs (forEach_from idx vs (App.submitVuln h)) c tt c1 t1 /\
  flat_map submissionOf (updates t1) = submissions h (randoms c) (clocks c) vs.
Proof.
  induction vs as [| v vs IH]; intros idx c.
  - exists c, []. split; reflexivity.
  - destruct (IH (idx + 1)
                {| randoms := S (S (randoms c)); clocks := S (clocks c);
                   calls := calls c |})
      as [c1 [t1 [Hrun Hupd]]].
    exists c1. eexists ([_] ++ t1). split.
    + cbn [forEach_from]. eapply (runs_bind _ _ _ tt); [reflexivity | exact Hrun].
    + rewrite updates_app, flat_map_app, Hupd. reflexivity.
Qed.

Lemma plain_submitVulns_cursor vs : forall idx c, exists c1 t1,
  runs (forEach_from idx vs (AppPlain.submitVuln h)) c tt c1 t1 /\
  flat_map submissionOfPlain (updates t1) = submissions h (randoms c) (clocks c) vs.
Proof.
  induction vs as [| v vs IH]; intros idx c.
  - exists c, []. split; reflexivity.
  - destruct (IH (idx + 1)
                {| randoms := S (S (randoms c)); clocks := S (clocks c);
                   calls := calls c |})
      as [c1 [t1 [Hrun Hupd]]].
    exists c1. eexists ([_] ++ t1). split.
    + cbn [forEach_from]. eapply (runs_bind _ _ _ tt); [reflexivity | exact Hrun].
    + rewrite updates_app, flat_map_app, Hupd. reflexivity.
Qed.

(** The submissions of a tick are those of the batch that its request
    returned, with the values drawn after those of the tick's own log, of
    the node and of the timers. *)
Lemma tick_submissions url i c : exists data,
  result (geminiService.analyzeTargetForSimulation h (E:=App.Event) url)
    {| randoms := S (randoms c); clocks := S (clocks c); calls := calls c |} = inr data /\
  flat_map submissionOf (updates (script (App.tick h url i) c)) =
    submissions h (length (SimData.logs data) + 4 + randoms c)
      (length (SimData.logs data) + 1 + clocks c) (SimData.vulnerabilities data).
Proof.
  pose (c0 := {| randoms := S (randoms c); clocks := S (clocks c); calls := calls c |}).
  destruct (analyze_run h App.Event url c0) as [data Hdata].
  pose (c2 := {| randoms := S (S (S (randoms c0))); clocks := clocks c0;
                 calls := S (calls c0) |}).
  destruct (scheduleLogs_cursor (SimData.logs data) 0 c2) as [tl [Hlogs Hlupd]].
  set (c3 := {| randoms := length (SimData.logs data) + randoms c2;
                clocks := length (SimData.logs data) + clocks c2;
                calls := calls c2 |}) in *.
  assert (Hvs : exists c4 tv,
             runs (if (0 <? length (SimData.vulnerabilities data))%nat
                   then forEach (SimData.vulnerabilities data) (App.submitVuln h)
                   else ret tt) c3 tt c4 tv /\
             flat_map submissionOf (updates tv) =
               submissions h (randoms c3) (clocks c3) (SimData.vulnerabilities data)).
  { destruct (SimData.vulnerabilities data) as [| v vs] eqn:Hv.
    - exists c3, []. split; reflexivity.
    - rewrite <- Hv.
      destruct (submitVulns_cursor (SimData.vulnerabilities data) 0 c3) as [c4 [tv Htv]].
      exists c4, tv. rewrite Hv in *. exact Htv. }
  destruct Hvs as [c4 [tv [Hvrun Hvupd]]].
  exists data. split.
  - unfold result. unfold runs in Hdata. subst c0. rewrite Hdata. reflexivity.
  - assert (Hrun : runs (App.tick h url i) c tt c4
                     ([Do (App.AddLog
                             (newLog (App.logId h (Math_random h (randoms c)))
                                (Date_toLocaleTimeString h (clocks c)) INFO
                                ("Deep-scanning path segment " ++ string_of_Z (i + 1)
                                 ++ "...")%string CRAWLER))]
                      ++ [AwaitGenerateContent (geminiService.request url)]
                      ++ [] ++ [] ++ []
                      ++ [Do (App.PushNode
                                (Number_toString h (Math_random h (S (S (randoms c0)))) 10)
                                (tickPath (Math_random h (randoms c0))
                                   (Math_random h (S (randoms c0))))
                                data i)]
                      ++ tl ++ tv ++ [AwaitTimeout 3000])).
    { unfold App.tick.
      eapply runs_bind; [reflexivity |].
      eapply runs_bind; [exact Hdata |].
      eapply (runs_bind _ _ _ (Math_random h (randoms c0))); [reflexivity |].
      eapply (runs_bind _ _ _ (Math_random h (S (randoms c0)))); [reflexivity |].
      eapply (runs_bind _ _ _ (Math_random h (S (S (randoms c0))))); [reflexivity |].
      eapply runs_bind; [apply runs_emit |].
      eapply runs_bind; [exact Hlogs |].
      eapply runs_bind; [exact Hvrun |].
      apply runs_emit. }
    rewrite (runs_script _ _ _ _ _ Hrun), !updates_app, !flat_map_app, Hlupd, Hvupd.
    cbn [updates flat_map app submissionOf].
    rewrite app_nil_r. subst c3 c2 c0. cbn [randoms clocks].
    f_equal; lia.
Qed.

Lemma plain_tick_submissions url c : exists data,
  result (geminiService.analyzeTargetForSimulation h (E:=AppPlain.Event) url) c = inr data /\
  flat_map submissionOfPlain (updates (script (AppPlain.tick h url) c)) =
    submissions h (length (SimData.logs data) + randoms c)
      (length (SimData.logs data) + clocks c) (SimData.vulnerabilities data).
Proof.
  destruct (analyze_run h AppPlain.Event url c) as [data Hdata].
  pose (c2 := {| randoms := randoms c; clocks := clocks c; calls := S (calls c) |}).
  destruct (plain_scheduleLogs_cursor (SimData.logs data) 0 c2) as [tl [Hlogs Hlupd]].
  set (c3 := {| randoms := length (SimData.logs data) + randoms c2;
                clocks := length (SimData.logs data) + clocks c2;
                calls := calls c2 |}) in *.
  assert (Hvs : exists c4 tv,
             runs (if (0 <? length (SimData.vulnerabilities data))%nat
                   then forEach (SimData.vulnerabilities data) (AppPlain.submitVuln h)
                   else ret tt) c3 tt c4 tv /\
             flat_map submissionOfPlain (updates tv) =
               submissions h (randoms c3) (clocks c3) (SimData.vulnerabilities data)).
  { destruct (SimData.vulnerabilities data) as [| v vs] eqn:Hv.
    - exists c3, []. split; reflexivity.
    - rewrite <- Hv.
      destruct (plain_submitVulns_cursor (SimData.vulnerabilities data) 0 c3)
        as [c4 [tv Htv]].
      exists c4, tv. rewrite Hv in *. exact Htv. }
  destruct Hvs as [c4 [tv [Hvrun Hvupd]]].
  exists data. split.
  - unfold result. unfold runs in Hdata. rewrite Hdata. reflexivity.
  - assert (Hrun : runs (AppPlain.tick h url) c tt c4
                     ([AwaitGenerateContent (geminiService.request url)]
                      ++ tl ++ tv ++ [AwaitTimeout 4000])).
    { unfold AppPlain.tick.
      eapply runs_bind; [exact Hdata |].
      eapply runs_bind; [exact Hlogs |].
      eapply runs_bind; [exact Hvrun |].
      apply runs_emit. }
    rewrite (runs_script _ _ _ _ _ Hrun), !updates_app, !flat_map_app, Hlupd, Hvupd.
    cbn [updates flat_map app submissionOfPlain].
    rewrite app_nil_r. reflexivity.
Qed.

(** The identifiers of a batch are texts of values drawn after the first. *)
Lemma submissions_ids vs : forall r k x,
  In x (map idOf (submissions h r k vs)) ->
  exists a, (r < a)%nat /\ x = Number_toString h (Math_random h a) 36.
Proof.
  induction vs as [| v vs IH]; intros r k x Hin; [destruct Hin |].
  cbn [submissions map idOf] in Hin. destruct Hin as [<- | Hin].
  - exists (S r). split; [lia | reflexivity].
  - destruct (IH _ _ _ Hin) as [a [Ha Hx]]. exists a. split; [lia | exact Hx].
Qed.

(** When the values of [Math.random] have different texts, the identifiers
    of a batch differ. *)
Lemma submissions_fresh vs : forall r k,
  (forall a b,
      Number_toString h (Math_random h a) 36 = Number_toString h (Math_random h b) 36 ->
      a = b) ->
  NoDup (map idOf (submissions h r k vs)).
Proof.
  induction vs as [| v vs IH]; intros r k Hinj; [constructor |].
  cbn [submissions map idOf]. constructor; [| apply IH; exact Hinj].
  intros Hin. destruct (submissions_ids _ _ _ _ Hin) as [a [Ha Hx]].
  apply Hinj in Hx. lia.
Qed.
End WithHost.
End SubmitFacts.

(** * The claims *)

(** C1: within a session the list of findings never holds two entries of
    one type.  An update that submits a finding whose type is already in
    the list leaves the whole state as it is (no alert, no increment of
    [vulnsFound]); otherwise the finding is appended, with its fields and
    the identifier submitted with it, the alert is logged and [vulnsFound]
    grows by one.  The identifier is fresh in this sense: [submitVuln]
    takes for it a value of [Math.random] that nothing else reads, and
    submits its text in base 36; in a tick, the findings of the batch that
    the request returned are submitted in order, each with its own value,
    and when the values drawn have different texts the identifiers of the
    batch differ.  The code never compares an identifier with those of the
    list.  Both versions of the component. *)
Theorem findings_deduplicated_by_type :
  (forall prev v,
      known prev v = true <->
      exists p, In p prev /\ Vulnerability.type p = Finding.type v) /\
  (forall s tr,
      NoDup (map Vulnerability.type
               (App.vulnerabilities (App.run (App.sessionStart ++ tr) s)))) /\
  (forall s v id logId ts,
      known (App.vulnerabilities s) v = true ->
      App.step (App.MergeVuln v id logId ts) s = s) /\
  (forall s v id logId ts,
      known (App.vulnerabilities s) v = false ->
      App.step (App.MergeVuln v id logId ts) s =
        {| App.logs := App.addLog_update (App.alert v logId ts) (App.logs s);
           App.vulnerabilities :=
             App.vulnerabilities s
             ++ [{| Vulnerability.id := id;
                    Vulnerability.type := Finding.type v;
                    Vulnerability.severity := Finding.severity v;
                    Vulnerability.description := Finding.description v;
                    Vulnerability.location := Finding.location v;
                    Vulnerability.payload_used := Finding.payload_used v |}];
           App.crawlNodes := App.crawlNodes s;
           App.isScanning := App.isScanning s;
           App.targetUrl := App.targetUrl s;
           App.stats := incVulnsFound (App.stats s) |}) /\
  (forall s tr,
      NoDup (map Vulnerability.type
               (AppPlain.vulnerabilities (AppPlain.run (AppPlain.sessionStart ++ tr) s)))) /\
  (forall s v id logId ts,
      known (AppPlain.vulnerabilities s) v = true ->
      AppPlain.step (AppPlain.MergeVuln v id logId ts) s = s) /\
  (forall s v id logId ts,
      known (AppPlain.vulnerabilities s) v = false ->
      AppPlain.step (AppPlain.MergeVuln v id logId ts) s =
        {| AppPlain.logs :=
             AppPlain.addLog_update (AppPlain.alert v logId ts) (AppPlain.logs s);
           AppPlain.vulnerabilities :=
             AppPlain.vulnerabilities s
             ++ [{| Vulnerability.id := id;
                    Vulnerability.type := Finding.type v;
                    Vulnerability.severity := Finding.severity v;
                    Vulnerability.description := Finding.description v;
                    Vulnerability.location := Finding.location v;
                    Vulnerability.payload_used := Finding.payload_used v |}];
           AppPlain.isScanning := AppPlain.isScanning s;
           AppPlain.targetUrl := AppPlain.targetUrl s;
           AppPlain.stats := incVulnsFound (AppPlain.stats s) |}) /\
  (forall h v idx c,
      App.submitVuln h v idx c =
        (inr tt,
         {| randoms := S (S (randoms c)); clocks := S (clocks c); calls := calls c |},
         [Do (App.MergeVuln v
                (Number_toString h (Math_random h (S (randoms c))) 36)
                (substring 2 9 (Number_toString h (Math_random h (randoms c)) 36))
                (Date_toLocaleTimeString h (clocks c)))])) /\
  (forall h v idx c,
      AppPlain.submitVuln h v idx c =
        (inr tt,
         {| randoms := S (S (randoms c)); clocks := S (clocks c); calls := calls c |},
         [Do (AppPlain.MergeVuln v
                (Number_toString h (Math_random h (S (randoms c))) 36)
                (substring 2 9 (Number_toString h (Math_random h (randoms c)) 36))
                (Date_toLocaleTimeString h (clocks c)))])) /\
  (forall h url i c,
      exists data,
        result (geminiService.analyzeTargetForSimulation h (E:=App.Event) url)
          {| randoms := S (randoms c); clocks := S (clocks c); calls := calls c |}
          = inr data /\
        flat_map Vocabulary.submissionOf (updates (script (App.tick h url i) c)) =
          Vocabulary.submissions h (length (SimData.logs data) + 4 + randoms c)
            (length (SimData.logs data) + 1 + clocks c) (SimData.vulnerabilities data)) /\
  (forall h url c,
      exists data,
        result (geminiService.analyzeTargetForSimulation h (E:=AppPlain.Event) url) c
          = inr data /\
        flat_map Vocabulary.submissionOfPlain (updates (script (AppPlain.tick h url) c)) =
          Vocabulary.submissions h (length (SimData.logs data) + randoms c)
            (length (SimData.logs data) + clocks c) (SimData.vulnerabilities data)) /\
  (forall h r k vs,
      (forall a b,
          Number_toString h (Math_random h a) 36 = Number_toString h (Math_random h b) 36 ->
          a = b) ->
      NoDup (map Vocabulary.idOf (Vocabulary.submissions h r k vs))).
Proof.
  split; [exact known_spec |].
  split.
  { intros s tr. rewrite AppFacts.run_app.
    apply AppFacts.run_invariant_all; [apply AppFacts.step_types_unique |].
    rewrite AppFacts.sessionStart_run. constructor. }
  split.
  { intros s v id logId ts Hk. cbn. unfold App.mergeVuln. rewrite Hk. reflexivity. }
  split.
  { intros s v id logId ts Hk. cbn. unfold App.mergeVuln. rewrite Hk. reflexivity. }
  split.
  { intros s tr. rewrite PlainFacts.plain_run_app.
    apply PlainFacts.plain_run_invariant_all; [apply PlainFacts.plain_step_types_unique |].
    rewrite PlainFacts.plain_sessionStart_run. constructor. }
  split.
  { intros s v id logId ts Hk. cbn. unfold AppPlain.mergeVuln. rewrite Hk. reflexivity. }
  split.
  { intros s v id logId ts Hk. cbn. unfold AppPlain.mergeVuln. rewrite Hk. reflexivity. }
  split; [reflexivity |].
  split; [reflexivity |].
  split; [exact SubmitFacts.tick_submissions |].
  split; [exact SubmitFacts.plain_tick_submissions |].
  intros h r k vs Hinj. apply SubmitFacts.submissions_fresh. exact Hinj.
Qed.

(** A second finding of type XSS leaves the sample state as it is. *)
Lemma findings_deduplicated_by_type_witness :
  App.step (App.MergeVuln Sample.xss "0.z7q" "f5g6h7i8j" "12:00:02") Sample.found
  = Sample.found.
Proof.
  apply (proj1 (proj2 (proj2 findings_deduplicated_by_type))).
  reflexivity.
Defined.

(** In the version without the site map, 51 runs of [startScan] without an
    API key leave 51 entries in the log list: the list has no cap of 50
    there. *)
Lemma log_list_uncapped_without_site_map :
  (50 < length (AppPlain.logs
                  (AppPlain.run
                     (Sample.presses Sample.noKey Sample.idlePlain 51 cursor0)
                     AppPlain.initial)))%nat.
Proof. vm_compute. apply Nat.le_refl. Qed.

(** C2, amended: the log list is append-only.  A call of [addLog] enqueues
    one update, which appends the new entry at the end and keeps the
    retained entries in their order.  In the version with the site map the
    update keeps the last 49 entries of the list, so the list never exceeds
    50 entries; in the version without the site map nothing is dropped and
    the list grows by one entry per call. *)
Theorem log_list_append_only :
  (forall h level message module c,
      exists l, script (App.addLog h level message module) c = [Do (App.AddLog l)]) /\
  (forall l s,
      App.logs (App.step (App.AddLog l) s) = slice_last 49 (App.logs s) ++ [l] /\
      exists dropped, App.logs s = dropped ++ slice_last 49 (App.logs s)) /\
  (forall l s,
      (length (App.logs s) <= 49)%nat ->
      App.logs (App.step (App.AddLog l) s) = App.logs s ++ [l]) /\
  (forall tr s,
      (length (App.logs s) <= 50)%nat ->
      (length (App.logs (App.run tr s)) <= 50)%nat) /\
  (forall tr s, (length (App.logs (App.run (App.sessionStart ++ tr) s)) <= 50)%nat) /\
  (forall h level message module c,
      exists l,
        script (AppPlain.addLog h level message module) c = [Do (AppPlain.AddLog l)]) /\
  (forall l s,
      AppPlain.logs (AppPlain.step (AppPlain.AddLog l) s) = AppPlain.logs s ++ [l]).
Proof.
  split; [intros; eexists; reflexivity |].
  split.
  { intros l s. split; [reflexivity |].
    exists (firstn (length (App.logs s) - 49) (App.logs s)).
    symmetry. apply slice_last_suffix. }
  split.
  { intros l s Hlen. cbn. unfold App.addLog_update.
    rewrite slice_last_short by exact Hlen. reflexivity. }
  split.
  { intros tr s Hs.
    apply (AppFacts.run_invariant_all (fun s => (length (App.logs s) <= 50)%nat));
      [apply AppFacts.step_logs_capped | exact Hs]. }
  split.
  { intros tr s. rewrite AppFacts.run_app.
    apply (AppFacts.run_invariant_all (fun s => (length (App.logs s) <= 50)%nat));
      [apply AppFacts.step_logs_capped |].
    rewrite AppFacts.sessionStart_run. cbn. lia. }
  split; [intros; eexists; reflexivity |].
  intros l s. reflexivity.
Qed.

(** Sixty entries added from the initial state leave at most 50. *)
Lemma log_list_append_only_witness :
  (length (App.logs (App.run (map (fun i => App.AddLog (Sample.entry i)) (seq 0 60))
                       App.initial)) <= 50)%nat.
Proof.
  apply (proj1 (proj2 (proj2 (proj2 log_list_append_only)))
           (map (fun i => App.AddLog (Sample.entry i)) (seq 0 60)) App.initial).
  cbn. lia.
Defined.

(** C4: when [startScan] passes its guards (a non-empty target URL, an API
    key), the first updates it performs are those of the session start, and
    they leave the log list, the list of findings and the list of crawl
    nodes empty and the four counters at zero, whatever the state before;
    everything else the run does comes after them.  The version without the
    site map has no list of crawl nodes. *)
Theorem startScan_resets_session h :
  (forall s c,
      truthy (App.targetUrl s) = true -> App.API_KEY_AVAILABLE h = true ->
      exists rest, script (App.startScan h s) c = map Do App.sessionStart ++ rest) /\
  (forall s0,
      App.run App.sessionStart s0 =
        {| App.logs := []; App.vulnerabilities := []; App.crawlNodes := [];
           App.isScanning := true; App.targetUrl := App.targetUrl s0;
           App.stats := ScanStats.mk 0 0 0 0 |}) /\
  (forall s c,
      truthy (AppPlain.targetUrl s) = true -> AppPlain.API_KEY_AVAILABLE h = true ->
      exists rest,
        script (AppPlain.startScan h s) c = map Do AppPlain.sessionStart ++ rest) /\
  (forall s0,
      AppPlain.run AppPlain.sessionStart s0 =
        {| AppPlain.logs := []; AppPlain.vulnerabilities := [];
           AppPlain.isScanning := true; AppPlain.targetUrl := AppPlain.targetUrl s0;
           AppPlain.stats := ScanStats.mk 0 0 0 0 |}).
Proof.
  split.
  { intros s c Hurl Hkey.
    destruct (ScanFacts.startScan_runs h s c Hurl Hkey) as [c1 [rest [Hrun _]]].
    exists rest. apply (runs_script _ _ _ _ _ Hrun). }
  split; [reflexivity |].
  split; [| reflexivity].
  intros s c Hurl Hkey.
  destruct (PlainFacts.plain_startScan_runs h s c Hurl Hkey) as [c1 [rest [Hrun _]]].
  exists rest. apply (runs_script _ _ _ _ _ Hrun).
Qed.

(** At the sample host, a scan of the sample target starts with the reset. *)
Lemma startScan_resets_session_witness :
  exists rest,
    script (App.startScan Sample.host Sample.idle) cursor0 = map Do App.sessionStart ++ rest.
Proof.
  apply (proj1 (startScan_resets_session Sample.host) Sample.idle cursor0); reflexivity.
Defined.

(** C5: the number of requests of a run of [startScan] past its guards.
    The guard of the loop reads the value of [isScanning] that the closure
    captured: with [true] the loop runs its 5 (respectively 4) iterations,
    one request each; with [false], the value at every start from the idle
    state, the version with the site map sends no request and the version
    without it sends one. *)
Theorem startScan_ticks_follow_captured_flag h :
  (forall s c,
      truthy (App.targetUrl s) = true -> App.API_KEY_AVAILABLE h = true ->
      length (requests (script (App.startScan h s) c)) =
        (if App.isScanning s then 5 else 0)%nat) /\
  (forall s c,
      truthy (AppPlain.targetUrl s) = true -> AppPlain.API_KEY_AVAILABLE h = true ->
      length (requests (script (AppPlain.startScan h s) c)) =
        (if AppPlain.isScanning s then 4 else 1)%nat).
Proof.
  split.
  - intros s c Hurl Hkey.
    destruct (ScanFacts.startScan_runs h s c Hurl Hkey) as [c1 [rest [Hrun Hreq]]].
    rewrite (runs_script _ _ _ _ _ Hrun), requests_app, length_app, Hreq.
    reflexivity.
  - intros s c Hurl Hkey.
    destruct (PlainFacts.plain_startScan_runs h s c Hurl Hkey) as [c1 [rest [Hrun Hreq]]].
    rewrite (runs_script _ _ _ _ _ Hrun), requests_app, length_app, Hreq.
    reflexivity.
Qed.

(** Started from the idle sample state, the version with the site map sends
    no request. *)
Lemma startScan_ticks_follow_captured_flag_witness :
  length (requests (script (App.startScan Sample.host Sample.idle) cursor0)) = 0%nat.
Proof.
  apply (proj1 (startScan_ticks_follow_captured_flag Sample.host) Sample.idle cursor0);
    reflexivity.
Defined.

(** C6: no update other than the reset of the session start lowers a
    counter.  Each update adds 0 or 1 to each counter: 1 to
    [durationSeconds] for a tick of the interval, to [pagesCrawled] for a
    merged CRAWLER log, to [formsDetected] for a merged FORM_BOT log, to
    [vulnsFound] for an accepted finding; so the counters only grow along
    any sequence of such updates. *)
Theorem stats_only_increase :
  (forall e s,
      e <> App.ResetStats ->
      App.stats (App.step e s) = AppSpec.plus (App.stats s) (AppSpec.gain e s)) /\
  (forall e s,
      let g := AppSpec.gain e s in
      (ScanStats.pagesCrawled g = 0 \/ ScanStats.pagesCrawled g = 1) /\
      (ScanStats.formsDetected g = 0 \/ ScanStats.formsDetected g = 1) /\
      (ScanStats.vulnsFound g = 0 \/ ScanStats.vulnsFound g = 1) /\
      (ScanStats.durationSeconds g = 0 \/ ScanStats.durationSeconds g = 1)) /\
  (forall s, App.stats (App.step App.DurationTick s) = incDurationSeconds (App.stats s)) /\
  (forall e s,
      e <> App.ResetStats -> ScanStats.le (App.stats s) (App.stats (App.step e s))) /\
  (forall tr s,
      Forall (fun e => e <> App.ResetStats) tr ->
      ScanStats.le (App.stats s) (App.stats (App.run tr s))).
Proof.
  split; [exact AppFacts.step_gain |].
  split; [exact AppFacts.gain_unit |].
  split; [reflexivity |].
  split; [exact AppFacts.step_stats_le |].
  exact AppFacts.run_stats_le.
Qed.

(** A tick of the interval and a merged CRAWLER log do not lower the
    counters of the sample state. *)
Lemma stats_only_increase_witness :
  ScanStats.le (App.stats Sample.found)
    (App.stats (App.run [App.DurationTick;
                         App.LogTimer (SimLog.mk INFO "GET /login [200 OK]" CRAWLER)
                           "q1w2e3r4t" "12:00:03"] Sample.found)).
Proof.
  apply (proj2 (proj2 (proj2 (proj2 stats_only_increase)))).
  repeat constructor; discriminate.
Defined.

(** C7: the crawl nodes form a flat list.  The root node and the node of a
    tick have no parent; no node is pending; the node of a tick is built
    from the batch that the tick's request returned, and its status is
    'vuln' exactly when that batch holds at least one finding and 'visited'
    otherwise; a tick adds one node; and every node of the list, after any
    sequence of updates of a session, has no parent and is not pending. *)
Theorem crawl_nodes_flat :
  (CrawlNode.parent App.rootNode = None /\ CrawlNode.status App.rootNode = visited) /\
  (forall id path simData i,
      let n := App.tickNode id path simData i in
      CrawlNode.parent n = None /\
      (CrawlNode.status n = vuln <-> SimData.vulnerabilities simData <> []) /\
      (CrawlNode.status n = visited <-> SimData.vulnerabilities simData = [])) /\
  (forall e, Forall AppSpec.flat (AppSpec.nodesOf e)) /\
  (forall h url i c,
      exists data id path,
        result (geminiService.analyzeTargetForSimulation h (E:=App.Event) url)
          {| randoms := S (randoms c); clocks := S (clocks c); calls := calls c |}
        = inr data /\
        flat_map AppSpec.nodesOf (updates (script (App.tick h url i) c)) =
          [App.tickNode id path data i]) /\
  (forall tr s,
      Forall AppSpec.flat (App.crawlNodes (App.run (App.sessionStart ++ tr) s))) /\
  (forall tr, Forall AppSpec.flat (App.crawlNodes (App.run tr App.initial))).
Proof.
  split; [split; reflexivity |].
  split.
  { intros id path simData i. cbn.
    destruct (SimData.vulnerabilities simData) as [| v vs]; cbn.
    - repeat split; intros; congruence.
    - repeat split; intros; congruence. }
  split.
  { intros e. destruct e; cbn [AppSpec.nodesOf]; try apply Forall_nil.
    - apply Forall_cons; [split; [reflexivity | discriminate] | apply Forall_nil].
    - apply Forall_cons; [apply AppFacts.tickNode_flat | apply Forall_nil]. }
  split.
  { intros h url i c.
    destruct (ScanFacts.tick_runs h url i c)
      as [data [c1 [t1 [Hrun [Hres [_ [[id [path Hnodes]] _]]]]]]].
    exists data, id, path. split; [exact Hres |].
    rewrite (runs_script _ _ _ _ _ Hrun). exact Hnodes. }
  split.
  { intros tr s. rewrite AppFacts.run_app.
    apply AppFacts.run_invariant_all; [apply AppFacts.step_nodes_flat |].
    rewrite AppFacts.sessionStart_run. constructor. }
  intros tr. apply AppFacts.run_invariant_all; [apply AppFacts.step_nodes_flat |].
  constructor.
Qed.

(** C9: in a session [vulnsFound] is the length of the list of findings.
    Both are empty after the updates of the session start; an accepted
    finding adds one entry and adds 1 to the counter; a rejected one
    changes neither; and no other update of a session touches them. *)
Theorem vulnsFound_counts_findings :
  (forall s,
      App.vulnerabilities (App.run App.sessionStart s) = [] /\
      ScanStats.vulnsFound (App.stats (App.run App.sessionStart s)) = 0) /\
  (forall s v id logId ts,
      known (App.vulnerabilities s) v = false ->
      let s' := App.step (App.MergeVuln v id logId ts) s in
      length (App.vulnerabilities s') = S (length (App.vulnerabilities s)) /\
      ScanStats.vulnsFound (App.stats s') = ScanStats.vulnsFound (App.stats s) + 1) /\
  (forall s v id logId ts,
      known (App.vulnerabilities s) v = true ->
      let s' := App.step (App.MergeVuln v id logId ts) s in
      App.vulnerabilities s' = App.vulnerabilities s /\ App.stats s' = App.stats s) /\
  (forall tr s,
      Forall (fun e => AppSpec.isReset e = false) tr ->
      let s' := App.run (App.sessionStart ++ tr) s in
      ScanStats.vulnsFound (App.stats s') = Z.of_nat (length (App.vulnerabilities s'))).
Proof.
  split; [intros s; split; reflexivity |].
  split.
  { intros s v id logId ts Hk. cbn. unfold App.mergeVuln. rewrite Hk. cbn.
    rewrite length_app. cbn. split; [lia | reflexivity]. }
  split.
  { intros s v id logId ts Hk. cbn. unfold App.mergeVuln. rewrite Hk.
    split; reflexivity. }
  intros tr s Hall. cbn zeta. rewrite AppFacts.run_app.
  apply (AppFacts.run_invariant AppSpec.counted (fun e => AppSpec.isReset e = false));
    [exact AppFacts.step_counted | exact Hall |].
  reflexivity.
Qed.

(** A session of the sample App that merges the sample batch: three
    findings submitted, two accepted. *)
Lemma vulnsFound_counts_findings_witness :
  let tr := [App.MergeVuln Sample.xss "0.a" "l1" "12:00:01";
             App.LogTimer (SimLog.mk INFO "GET /search [200 OK]" CRAWLER) "l2" "12:00:01";
             App.MergeVuln Sample.sqli "0.b" "l3" "12:00:01";
             App.MergeVuln Sample.xss "0.c" "l4" "12:00:01";
             App.DurationTick] in
  ScanStats.vulnsFound (App.stats (App.run (App.sessionStart ++ tr) Sample.found)) = 2 /\
  length (App.vulnerabilities (App.run (App.sessionStart ++ tr) Sample.found)) = 2%nat.
Proof.
  intros tr. split; [| reflexivity].
  rewrite (proj2 (proj2 (proj2 vulnsFound_counts_findings)) tr Sample.found).
  - reflexivity.
  - repeat constructor.
Defined.

(** C10: [startScan] with an empty target URL starts nothing.  In the
    version with the site map the call has no effect at all; in the other
    version it enqueues one update, which appends an ERROR entry to the log
    list and leaves [isScanning], the findings, the stats and the target
    as they are; no request is sent. *)
Theorem startScan_without_target h :
  (forall s c,
      App.targetUrl s = EmptyString ->
      App.startScan h s c = (inr tt, c, [])) /\
  (forall s c,
      AppPlain.targetUrl s = EmptyString ->
      exists l,
        script (AppPlain.startScan h s) c = [Do (AppPlain.AddLog l)] /\
        result (AppPlain.startScan h s) c = inr tt /\
        LogEntry.level l = ERROR /\
        LogEntry.message l = "Target URL is required." /\
        LogEntry.module l = CORE /\
        AppPlain.run (updates (script (AppPlain.startScan h s) c)) s =
          {| AppPlain.logs := AppPlain.logs s ++ [l];
             AppPlain.vulnerabilities := AppPlain.vulnerabilities s;
             AppPlain.isScanning := AppPlain.isScanning s;
             AppPlain.targetUrl := AppPlain.targetUrl s;
             AppPlain.stats := AppPlain.stats s |}).
Proof.
  split.
  - intros s c Hurl. unfold App.startScan. rewrite Hurl. reflexivity.
  - intros s c Hurl.
    assert (Hguard : AppPlain.startScan h s =
                     AppPlain.addLog h ERROR "Target URL is required." CORE).
    { unfold AppPlain.startScan. rewrite Hurl. reflexivity. }
    rewrite Hguard.
    eexists. split; [reflexivity |]. repeat split.
Qed.

(** The initial state has an empty target: starting a scan there changes
    nothing in the version with the site map. *)
Lemma startScan_without_target_witness :
  App.startScan Sample.host App.initial cursor0 = (inr tt, cursor0, []).
Proof.
  apply (proj1 (startScan_without_target Sample.host) App.initial cursor0).
  reflexivity.
Defined.

(** * Further properties *)

(** ** The static-analysis call and the SAST lab *)

Section CodeFacts.
Variable h : Host.

Lemma analyzeCodeSnippet_runs E code c : exists r,
  runs (geminiCode.analyzeCodeSnippet h (E:=E) code) c r
    {| randoms := randoms c; clocks := clocks c; calls := S (calls c) |}
    [AwaitGenerateContent (geminiCode.request code)] /\
  truthy r = true /\
  r = match generateContent_settles h (calls c) (geminiCode.request code) with
      | Rejects _ => geminiCode.analysisError
      | Resolves (Some t) => if truthy t then t else geminiCode.noAnalysis
      | Resolves None => geminiCode.noAnalysis
      end.
Proof.
  unfold runs, geminiCode.analyzeCodeSnippet, try_catch, bind, generateContent.
  destruct (generateContent_settles h (calls c) (geminiCode.request code))
    as [e | [t |]]; cbn.
  - eexists. repeat split.
  - destruct (truthy t) eqn:Ht; eexists; repeat split. exact Ht.
  - eexists. repeat split.
Qed.

(** X1: [analyzeCodeSnippet] sends one request and always returns a
    non-empty text, never an exception: the error notice when the call
    rejects, the notice of a missing analysis when the response has no
    text, and the text of the response otherwise. *)
Theorem analyzeCodeSnippet_answers E code c :
  exists r,
    geminiCode.analyzeCodeSnippet h (E:=E) code c =
      (inr r, {| randoms := randoms c; clocks := clocks c; calls := S (calls c) |},
       [AwaitGenerateContent (geminiCode.request code)]) /\
    truthy r = true /\
    (forall e,
        generateContent_settles h (calls c) (geminiCode.request code) = Rejects e ->
        r = geminiCode.analysisError) /\
    (forall text,
        generateContent_settles h (calls c) (geminiCode.request code) = Resolves text ->
        truthy_opt text = false -> r = geminiCode.noAnalysis) /\
    (forall t,
        generateContent_settles h (calls c) (geminiCode.request code) = Resolves (Some t) ->
        truthy t = true -> r = t).
Proof.
  destruct (analyzeCodeSnippet_runs E code c) as [r [Hrun [Hr Heq]]].
  exists r. split; [exact Hrun |]. split; [exact Hr |].
  split; [| split].
  - intros e Hs. rewrite Hs in Heq. exact Heq.
  - intros text Hs Hf. rewrite Hs in Heq. destruct text as [t |]; cbn in Hf.
    + rewrite Hf in Heq. exact Heq.
    + exact Heq.
  - intros t Hs Ht. rewrite Hs, Ht in Heq. exact Heq.
Qed.

(** X2: [analyzeCode] of the version with the site map.  A snippet that is
    empty or blank starts nothing: no update, no request.  Otherwise the
    run shows the notice of the start, sends one request and shows a
    non-empty answer; the update of its [catch] block never happens, and
    the panel does not fall back to its idle text. *)
Theorem analyzeCode_blank_or_answer :
  (forall s c,
      truthy (trim (CodeLab.codeSnippet s)) = false ->
      CodeLab.analyzeCode h s c = (inr tt, c, [])) /\
  (forall s c,
      truthy (trim (CodeLab.codeSnippet s)) = true ->
      exists r,
        script (CodeLab.analyzeCode h s) c =
          [Do (CodeLab.SetCodeAnalysis "Initializing Static Analysis Engine...");
           AwaitGenerateContent (geminiCode.request (CodeLab.codeSnippet s));
           Do (CodeLab.SetCodeAnalysis r)] /\
        result (CodeLab.analyzeCode h s) c = inr tt /\
        truthy r = true /\
        forall s0,
          CodeLab.shown (CodeLab.run (updates (script (CodeLab.analyzeCode h s) c)) s0) = r).
Proof.
  split.
  - intros s c Hblank. unfold CodeLab.analyzeCode. rewrite Hblank. reflexivity.
  - intros s c Hcode.
    destruct (analyzeCodeSnippet_runs CodeLab.Event (CodeLab.codeSnippet s) c)
      as [r [Hrun [Hr _]]].
    assert (Hall : runs (CodeLab.analyzeCode h s) c tt
                     {| randoms := randoms c; clocks := clocks c; calls := S (calls c) |}
                     ([Do (CodeLab.SetCodeAnalysis "Initializing Static Analysis Engine...")]
                      ++ [AwaitGenerateContent (geminiCode.request (CodeLab.codeSnippet s))]
                      ++ [Do (CodeLab.SetCodeAnalysis r)])).
    { unfold CodeLab.analyzeCode. rewrite Hcode. cbn [negb].
      eapply runs_bind; [apply runs_emit |].
      apply runs_try_catch.
      eapply runs_bind; [exact Hrun | apply runs_emit]. }
    exists r. unfold script, result. rewrite Hall. cbn -[truthy].
    repeat split; auto.
    intros s0. unfold CodeLab.shown. unfold runs in Hall. rewrite Hall.
    cbn -[truthy]. rewrite Hr. reflexivity.
Qed.

(** X3: [analyzeCode] of the version without the site map tests the raw
    snippet: only the empty snippet starts nothing, and a blank snippet is
    sent to the API.  The run has no [try] block of its own and still never
    throws; it shows the notice of the start, then a non-empty answer. *)
Theorem analyzeCodePlain_guard :
  (forall s c,
      CodeLab.codeSnippet s = EmptyString ->
      CodeLab.analyzeCodePlain h s c = (inr tt, c, [])) /\
  (forall s c,
      truthy (CodeLab.codeSnippet s) = true ->
      exists r,
        script (CodeLab.analyzeCodePlain h s) c =
          [Do (CodeLab.SetCodeAnalysis "Analyzing...");
           AwaitGenerateContent (geminiCode.request (CodeLab.codeSnippet s));
           Do (CodeLab.SetCodeAnalysis r)] /\
        result (CodeLab.analyzeCodePlain h s) c = inr tt /\
        truthy r = true /\
        forall s0,
          CodeLab.shownPlain
            (CodeLab.run (updates (script (CodeLab.analyzeCodePlain h s) c)) s0) = r).
Proof.
  split.
  - intros s c Hempty. unfold CodeLab.analyzeCodePlain. rewrite Hempty. reflexivity.
  - intros s c Hcode.
    destruct (analyzeCodeSnippet_runs CodeLab.Event (CodeLab.codeSnippet s) c)
      as [r [Hrun [Hr _]]].
    assert (Hall : runs (CodeLab.analyzeCodePlain h s) c tt
                     {| randoms := randoms c; clocks := clocks c; calls := S (calls c) |}
                     ([Do (CodeLab.SetCodeAnalysis "Analyzing...")]
                      ++ [AwaitGenerateContent (geminiCode.request (CodeLab.codeSnippet s))]
                      ++ [Do (CodeLab.SetCodeAnalysis r)])).
    { unfold CodeLab.analyzeCodePlain. rewrite Hcode. cbn [negb].
      eapply runs_bind; [apply runs_emit |].
      eapply runs_bind; [exact Hrun | apply runs_emit]. }
    exists r. unfold script, result. rewrite Hall. cbn -[truthy].
    repeat split; auto.
    intros s0. unfold CodeLab.shownPlain. unfold runs in Hall. rewrite Hall.
    cbn -[truthy]. rewrite Hr. reflexivity.
Qed.

(** X4: a response whose text does not parse gives the fallback of the
    simulation service, like a failed call; a text that parses gives the
    parsed data, and the parser receives the text without its fences and
    surrounding white space. *)
Theorem analyze_parses_clean_text E url c t :
  generateContent_settles h (calls c) (geminiService.request url) = Resolves (Some t) ->
  truthy t = true ->
  result (geminiService.analyzeTargetForSimulation h (E:=E) url) c =
    inr (match JSON_parse h (geminiService.cleanText t) with
         | inl _ => geminiService.fallback url
         | inr data => data
         end).
Proof.
  intros Hs Ht.
  unfold result, geminiService.analyzeTargetForSimulation, try_catch,
    geminiService.attempt, bind, generateContent.
  rewrite Hs. cbn. rewrite Ht.
  destruct (JSON_parse h (geminiService.cleanText t)); reflexivity.
Qed.
End CodeFacts.

(** The sample host rejects its first call: the lab shows the error notice. *)
Lemma analyzeCodeSnippet_answers_witness :
  result (geminiCode.analyzeCodeSnippet Sample.host (E:=CodeLab.Event) "eval(x)")
    (Sample.atCall 0) = inr geminiCode.analysisError.
Proof.
  destruct (analyzeCodeSnippet_answers Sample.host CodeLab.Event "eval(x)" (Sample.atCall 0))
    as [r [Hrun [_ [Hrej _]]]].
  unfold result. rewrite Hrun. cbn.
  rewrite (Hrej (Thrown "fetch failed")); reflexivity.
Defined.

(** A snippet of white space outside the ASCII range starts nothing in the
    version with the site map. *)
Lemma analyzeCode_blank_or_answer_witness :
  CodeLab.analyzeCode Sample.host Sample2.nbspLab cursor0 = (inr tt, cursor0, []).
Proof.
  apply (proj1 (analyzeCode_blank_or_answer Sample.host) Sample2.nbspLab cursor0).
  reflexivity.
Defined.

(** The same blank snippet is sent to the API by the other version. *)
Lemma analyzeCodePlain_guard_witness :
  exists r,
    script (CodeLab.analyzeCodePlain Sample.host Sample2.blankLab) cursor0 =
      [Do (CodeLab.SetCodeAnalysis "Analyzing...");
       AwaitGenerateContent (geminiCode.request "   ");
       Do (CodeLab.SetCodeAnalysis r)].
Proof.
  destruct (proj2 (analyzeCodePlain_guard Sample.host) Sample2.blankLab cursor0
              eq_refl) as [r [Hscript _]].
  exists r. exact Hscript.
Defined.

(** The second answer of the sample host is a fenced text that parses. *)
Lemma analyze_parses_clean_text_witness :
  result (geminiService.analyzeTargetForSimulation Sample.host (E:=App.Event)
            "https://example.com") (Sample.atCall 1) = inr Sample.batch.
Proof.
  rewrite (analyze_parses_clean_text Sample.host App.Event "https://example.com"
             (Sample.atCall 1) _ eq_refl eq_refl).
  reflexivity.
Defined.

(** ** The counters and the log window of the site-map version *)

Module CounterFacts.
Import App AppSpec Vocabulary.

Lemma gain_counts e s :
  ScanStats.pagesCrawled (gain e s) = Z.b2z (mergesLog CRAWLER e) /\
  ScanStats.formsDetected (gain e s) = Z.b2z (mergesLog FORM_BOT e) /\
  ScanStats.durationSeconds (gain e s) = Z.b2z (isDurationTick e).
Proof.
  destruct e; cbn; auto.
  destruct (SimLog.module log); cbn; auto.
Qed.

Lemma length_filter_cons {A} (f : A -> bool) x l :
  Z.of_nat (length (filter f (x :: l))) = Z.b2z (f x) + Z.of_nat (length (filter f l)).
Proof. cbn. destruct (f x); cbn [length Z.b2z]; lia. Qed.

(** Along updates that are not the reset of the stats, each counter grows
    by the number of its events. *)
Lemma run_counts tr : forall s,
  Forall (fun e => e <> ResetStats) tr ->
  ScanStats.pagesCrawled (stats (run tr s)) =
    ScanStats.pagesCrawled (stats s) + Z.of_nat (length (filter (mergesLog CRAWLER) tr)) /\
  ScanStats.formsDetected (stats (run tr s)) =
    ScanStats.formsDetected (stats s) + Z.of_nat (length (filter (mergesLog FORM_BOT) tr)) /\
  ScanStats.durationSeconds (stats (run tr s)) =
    ScanStats.durationSeconds (stats s) + Z.of_nat (length (filter isDurationTick tr)).
Proof.
  induction tr as [| e tr IH]; intros s Hall.
  - cbn. lia.
  - inversion Hall as [| e' tr' He Htr]; subst.
    rewrite AppFacts.run_cons.
    destruct (IH (step e s) Htr) as [Hp [Hf Hd]].
    rewrite Hp, Hf, Hd, !length_filter_cons, (AppFacts.step_gain e s He).
    destruct (gain_counts e s) as [Gp [Gf Gd]].
    unfold plus; cbn [ScanStats.pagesCrawled ScanStats.formsDetected
                        ScanStats.durationSeconds].
    rewrite Gp, Gf, Gd. lia.
Qed.

Lemma reset_free tr :
  Forall (fun e => isReset e = false) tr -> Forall (fun e => e <> ResetStats) tr.
Proof.
  apply Forall_impl. intros e He Heq. subst e. discriminate.
Qed.
End CounterFacts.

(** X5: in a session each counter counts its events: [pagesCrawled] is the
    number of merged CRAWLER logs, [formsDetected] the number of merged
    FORM_BOT logs and [durationSeconds] the number of ticks of the interval
    since the session start. *)
Theorem counters_count_events tr s :
  Forall (fun e => AppSpec.isReset e = false) tr ->
  let s' := App.run (App.sessionStart ++ tr) s in
  ScanStats.pagesCrawled (App.stats s') =
    Z.of_nat (length (filter (Vocabulary.mergesLog CRAWLER) tr)) /\
  ScanStats.formsDetected (App.stats s') =
    Z.of_nat (length (filter (Vocabulary.mergesLog FORM_BOT) tr)) /\
  ScanStats.durationSeconds (App.stats s') =
    Z.of_nat (length (filter Vocabulary.isDurationTick tr)).
Proof.
  intros Hall. cbn zeta. rewrite AppFacts.run_app.
  destruct (CounterFacts.run_counts tr (App.run App.sessionStart s)
              (CounterFacts.reset_free tr Hall)) as [Hp [Hf Hd]].
  rewrite Hp, Hf, Hd, AppFacts.sessionStart_run. cbn. repeat split.
Qed.

(** Two CRAWLER logs, one FORM_BOT log, one DAST log and three ticks. *)
Lemma counters_count_events_witness :
  let tr := [App.LogTimer (SimLog.mk INFO "GET /" CRAWLER) "a" "12:00:01";
             App.DurationTick;
             App.LogTimer (SimLog.mk INFO "input[name='q']" FORM_BOT) "b" "12:00:02";
             App.DurationTick;
             App.LogTimer (SimLog.mk INFO "GET /login" CRAWLER) "c" "12:00:03";
             App.LogTimer (SimLog.mk WARN "payload sent" DAST) "d" "12:00:03";
             App.DurationTick] in
  ScanStats.pagesCrawled (App.stats (App.run (App.sessionStart ++ tr) Sample.found)) = 2 /\
  ScanStats.formsDetected (App.stats (App.run (App.sessionStart ++ tr) Sample.found)) = 1 /\
  ScanStats.durationSeconds (App.stats (App.run (App.sessionStart ++ tr) Sample.found)) = 3.
Proof.
  intros tr. apply (counters_count_events tr Sample.found). repeat constructor.
Defined.

(** X6: the log window of the version with the site map slides: when the
    list holds 50 entries, adding one drops exactly the oldest entry and
    keeps the 49 others in order before the new one. *)
Theorem log_window_slides l s :
  length (App.logs s) = 50%nat ->
  App.logs (App.step (App.AddLog l) s) = tl (App.logs s) ++ [l] /\
  length (App.logs (App.step (App.AddLog l) s)) = 50%nat.
Proof.
  intros Hlen. cbn. unfold App.addLog_update, slice_last. rewrite Hlen.
  change (50 - 49)%nat with 1%nat.
  destruct (App.logs s) as [| x rest]; [discriminate |].
  cbn in *. split; [reflexivity |]. rewrite length_app. cbn. lia.
Qed.

(** Fifty entries, then one more: entry 0 leaves, entries 1 to 49 stay. *)
Lemma log_window_slides_witness :
  App.logs (App.step (App.AddLog (Sample.entry 50)) Sample2.fullLog)
  = tl (App.logs Sample2.fullLog) ++ [Sample.entry 50].
Proof.
  apply (log_window_slides (Sample.entry 50) Sample2.fullLog).
  reflexivity.
Defined.

(** ** The guards, the end and the button of a scan *)

Section GuardFacts.
Variable h : Host.

Lemma app_startScan_ends s c :
  truthy (App.targetUrl s) = true -> App.API_KEY_AVAILABLE h = true ->
  exists t, script (App.startScan h s) c = t ++ [Do (App.SetIsScanning false)].
Proof.
  intros Hurl Hkey.
  destruct (ScanFacts.prologue_runs h (App.targetUrl s) c) as [c1 [l1 [l2 [Hpro _]]]].
  destruct (ScanFacts.mission_runs h (App.targetUrl s) (App.isScanning s) c1)
    as [c2 [t2 [Hmis _]]].
  exists ((map Do App.sessionStart ++ [Do (App.AddLog l1); Do (App.AddLog l2)]) ++ t2).
  eapply runs_script.
  unfold App.startScan. rewrite Hurl, Hkey. cbn [negb].
  rewrite <- app_assoc.
  eapply runs_bind; [exact Hpro |].
  eapply runs_try_finally; [apply runs_try_catch; exact Hmis | apply runs_emit].
Qed.

Lemma plain_startScan_ends s c :
  truthy (AppPlain.targetUrl s) = true -> AppPlain.API_KEY_AVAILABLE h = true ->
  exists t, script (AppPlain.startScan h s) c = t ++ [Do (AppPlain.SetIsScanning false)].
Proof.
  intros Hurl Hkey.
  destruct (PlainFacts.plain_prologue_runs h (AppPlain.targetUrl s) c)
    as [c1 [l1 [l2 [l3 Hpro]]]].
  destruct (PlainFacts.plain_mission_runs h (AppPlain.targetUrl s) (AppPlain.isScanning s) c1)
    as [c2 [t2 [Hmis _]]].
  exists ((map Do AppPlain.sessionStart
           ++ [Do (AppPlain.AddLog l1); Do (AppPlain.AddLog l2); Do (AppPlain.AddLog l3)])
          ++ t2).
  eapply runs_script.
  unfold AppPlain.startScan. rewrite Hurl, Hkey. cbn [negb].
  rewrite <- app_assoc.
  eapply runs_bind; [exact Hpro |].
  eapply runs_try_finally; [apply runs_try_catch; exact Hmis | apply runs_emit].
Qed.

Lemma app_timers_keep_flag late : forall s,
  Forall (fun e => Vocabulary.isTimer e = true) late ->
  App.isScanning (App.run late s) = App.isScanning s.
Proof.
  induction late as [| e late IH]; intros s Hall; [reflexivity |].
  inversion Hall as [| e' l' He Hl]; subst.
  rewrite AppFacts.run_cons, (IH _ Hl).
  destruct e; try discriminate; cbn; [| reflexivity].
  unfold App.logTimer. destruct (SimLog.module log); reflexivity.
Qed.

Lemma plain_timers_keep_flag late : forall s,
  Forall (fun e => Vocabulary.isTimerPlain e = true) late ->
  AppPlain.isScanning (AppPlain.run late s) = AppPlain.isScanning s.
Proof.
  induction late as [| e late IH]; intros s Hall; [reflexivity |].
  inversion Hall as [| e' l' He Hl]; subst.
  rewrite PlainFacts.plain_run_cons, (IH _ Hl).
  destruct e; try discriminate; cbn; [| reflexivity].
  unfold AppPlain.logTimer. destruct (SimLog.module log); reflexivity.
Qed.

(** X7: without an API key, [startScan] (with a target) only logs one ERROR
    entry: nothing is reset, the flag, the findings, the nodes and the
    stats stay as they are, and no request is sent.  Both versions. *)
Theorem startScan_without_key :
  (forall s c,
      truthy (App.targetUrl s) = true -> App.API_KEY_AVAILABLE h = false ->
      exists l,
        script (App.startScan h s) c = [Do (App.AddLog l)] /\
        LogEntry.level l = ERROR /\
        LogEntry.message l = "API_KEY not found in environment." /\
        forall s0,
          App.run (updates (script (App.startScan h s) c)) s0 =
            {| App.logs := App.addLog_update l (App.logs s0);
               App.vulnerabilities := App.vulnerabilities s0;
               App.crawlNodes := App.crawlNodes s0;
               App.isScanning := App.isScanning s0;
               App.targetUrl := App.targetUrl s0;
               App.stats := App.stats s0 |}) /\
  (forall s c,
      truthy (AppPlain.targetUrl s) = true -> AppPlain.API_KEY_AVAILABLE h = false ->
      exists l,
        script (AppPlain.startScan h s) c = [Do (AppPlain.AddLog l)] /\
        LogEntry.level l = ERROR /\
        LogEntry.message l = "API_KEY not found in environment." /\
        forall s0,
          AppPlain.run (updates (script (AppPlain.startScan h s) c)) s0 =
            {| AppPlain.logs := AppPlain.logs s0 ++ [l];
               AppPlain.vulnerabilities := AppPlain.vulnerabilities s0;
               AppPlain.isScanning := AppPlain.isScanning s0;
               AppPlain.targetUrl := AppPlain.targetUrl s0;
               AppPlain.stats := AppPlain.stats s0 |}).
Proof.
  split.
  - intros s c Hurl Hkey.
    assert (Hguard : App.startScan h s =
                     App.addLog h ERROR "API_KEY not found in environment." CORE).
    { unfold App.startScan. rewrite Hurl, Hkey. reflexivity. }
    rewrite Hguard. eexists. split; [reflexivity |]. repeat split.
  - intros s c Hurl Hkey.
    assert (Hguard : AppPlain.startScan h s =
                     AppPlain.addLog h ERROR "API_KEY not found in environment." CORE).
    { unfold AppPlain.startScan. rewrite Hurl, Hkey. reflexivity. }
    rewrite Hguard. eexists. split; [reflexivity |]. repeat split.
Qed.

(** X8: a run of [startScan] past its guards ends by clearing the scanning
    flag: once its updates are applied the flag is [false], from any state,
    and the timers still pending (logs of a batch, the interval) do not
    raise it again.  Both versions. *)
Theorem startScan_clears_flag :
  (forall s c s0 late,
      truthy (App.targetUrl s) = true -> App.API_KEY_AVAILABLE h = true ->
      Forall (fun e => Vocabulary.isTimer e = true) late ->
      App.isScanning (App.run (updates (script (App.startScan h s) c) ++ late) s0) = false) /\
  (forall s c s0 late,
      truthy (AppPlain.targetUrl s) = true -> AppPlain.API_KEY_AVAILABLE h = true ->
      Forall (fun e => Vocabulary.isTimerPlain e = true) late ->
      AppPlain.isScanning
        (AppPlain.run (updates (script (AppPlain.startScan h s) c) ++ late) s0) = false).
Proof.
  split.
  - intros s c s0 late Hurl Hkey Hlate.
    destruct (app_startScan_ends s c Hurl Hkey) as [t Ht].
    rewrite Ht, updates_app, AppFacts.run_app, AppFacts.run_app.
    rewrite (app_timers_keep_flag late _ Hlate). reflexivity.
  - intros s c s0 late Hurl Hkey Hlate.
    destruct (plain_startScan_ends s c Hurl Hkey) as [t Ht].
    rewrite Ht, updates_app, PlainFacts.plain_run_app, PlainFacts.plain_run_app.
    rewrite (plain_timers_keep_flag late _ Hlate). reflexivity.
Qed.


(** X10: the main button of the version with the site map never sends a
    request, whatever the state; and it is disabled exactly in the states
    in which a click would do nothing. *)
Theorem button_never_requests s c :
  requests (script (AppButton.onClick h s) c) = [] /\
  (AppButton.disabled s = true <-> script (AppButton.onClick h s) c = []).
Proof.
  unfold AppButton.onClick, AppButton.disabled.
  destruct (App.isScanning s) eqn:Hscanning.
  - split; [reflexivity |]. rewrite andb_false_r. cbn. split; discriminate.
  - rewrite andb_true_r.
    destruct (truthy (App.targetUrl s)) eqn:Hurl.
    + destruct (App.API_KEY_AVAILABLE h) eqn:Hkey.
      * destruct (ScanFacts.startScan_runs h s c Hurl Hkey) as [c1 [rest [Hrun Hreq]]].
        rewrite (runs_script _ _ _ _ _ Hrun). rewrite Hscanning in Hreq.
        split.
        -- rewrite requests_app. apply length_zero_iff_nil.
           rewrite length_app, Hreq. reflexivity.
        -- cbn. split; discriminate.
      * unfold App.startScan. rewrite Hurl, Hkey. cbn. split; [reflexivity |].
        split; discriminate.
    + unfold App.startScan. rewrite Hurl. cbn. split; [reflexivity |].
      split; reflexivity.
Qed.

(** X11: the main button of the version without the site map sends one
    request when it starts a scan (a target, an API key, not scanning) and
    none otherwise; in particular STOP sends none and does not reset. *)
Theorem plain_button_requests s c :
  length (requests (script (AppPlainButton.onClick h s) c)) =
    (if negb (AppPlain.isScanning s) && truthy (AppPlain.targetUrl s)
        && AppPlain.API_KEY_AVAILABLE h then 1 else 0)%nat /\
  (AppPlain.isScanning s = true ->
   exists l,
     script (AppPlainButton.onClick h s) c =
       [Do (AppPlain.SetIsScanning false); Do (AppPlain.AddLog l)] /\
     LogEntry.level l = WARN /\
     LogEntry.message l = "Manual Override: Scan Aborted.").
Proof.
  unfold AppPlainButton.onClick.
  destruct (AppPlain.isScanning s) eqn:Hscanning.
  - split; [reflexivity |]. intros _. eexists. split; [reflexivity |]. split; reflexivity.
  - split; [| discriminate]. cbn [negb andb].
    destruct (truthy (AppPlain.targetUrl s)) eqn:Hurl.
    + destruct (AppPlain.API_KEY_AVAILABLE h) eqn:Hkey.
      * destruct (PlainFacts.plain_startScan_runs h s c Hurl Hkey)
          as [c1 [rest [Hrun Hreq]]].
        rewrite (runs_script _ _ _ _ _ Hrun), requests_app, length_app, Hreq, Hscanning.
        reflexivity.
      * unfold AppPlain.startScan. rewrite Hurl, Hkey. reflexivity.
    + unfold AppPlain.startScan. rewrite Hurl. reflexivity.
Qed.
End GuardFacts.

(** The sample host without its key: one ERROR entry, nothing else. *)
Lemma startScan_without_key_witness :
  exists l,
    script (App.startScan Sample.noKey Sample.idle) cursor0 = [Do (App.AddLog l)].
Proof.
  destruct (proj1 (startScan_without_key Sample.noKey) Sample.idle cursor0 eq_refl eq_refl)
    as [l [Hscript _]].
  exists l. exact Hscript.
Defined.

(** After a scan of the sample target and two late timers the flag is down. *)
Lemma startScan_clears_flag_witness :
  App.isScanning
    (App.run (updates (script (App.startScan Sample.host Sample.busy) cursor0)
              ++ [App.DurationTick;
                  App.LogTimer (SimLog.mk INFO "GET /" CRAWLER) "a" "12:00:09"])
       Sample.busy) = false.
Proof.
  apply (proj1 (startScan_clears_flag Sample.host)); try reflexivity.
  repeat constructor.
Defined.


(** A scanning App without site map: the button is STOP. *)
Lemma plain_button_requests_witness :
  exists l,
    script (AppPlainButton.onClick Sample.host Sample.busyPlain) cursor0 =
      [Do (AppPlain.SetIsScanning false); Do (AppPlain.AddLog l)].
Proof.
  destruct (proj2 (plain_button_requests Sample.host Sample.busyPlain cursor0) eq_refl)
    as [l [Hscript _]].
  exists l. exact Hscript.
Defined.

(** ** The shape of a tick and of the loop *)

Lemma script_bind {E A B} (m : M E A) (k : A -> M E B) c a c1 t1 :
  runs m c a c1 t1 -> script (bind m k) c = t1 ++ script (k a) c1.
Proof.
  unfold runs, script, bind. intros ->. destruct (k a c1) as [[r c2] t2]. reflexivity.
Qed.

Lemma delays_app {E} (t1 t2 : list (Item E)) :
  Vocabulary.delays (t1 ++ t2) = Vocabulary.delays t1 ++ Vocabulary.delays t2.
Proof. unfold Vocabulary.delays. apply flat_map_app. Qed.

Lemma delays_no_callback {E} (t : list (Item E)) :
  callbacks t = [] -> Vocabulary.delays t = [].
Proof.
  induction t as [| i t IH]; [reflexivity |].
  destruct i; cbn; auto. discriminate.
Qed.

(** ** Doubles

    Rounding to the nearest integer. *)
Lemma Qfloor_nonneg x : (0 <= x)%Q -> 0 <= Qfloor x.
Proof. intros H. apply (Qfloor_resp_le 0 x) in H. exact H. Qed.

Lemma rne_cases x :
  (rne x = Qfloor x /\ (x - inject_Z (Qfloor x) <= 1 # 2)%Q)
  \/ (rne x = Qfloor x + 1 /\ (1 # 2 <= x - inject_Z (Qfloor x))%Q).
Proof.
  unfold rne.
  destruct (Qcompare_spec (x - inject_Z (Qfloor x)) (1 # 2)) as [H | H | H].
  - destruct (Z.even (Qfloor x)); [left | right]; split; try reflexivity;
      rewrite H; apply Qle_refl.
  - left. split; [reflexivity | apply Qlt_le_weak; exact H].
  - right. split; [reflexivity | apply Qlt_le_weak; exact H].
Qed.

Lemma rne_nonneg x : (0 <= x)%Q -> 0 <= rne x.
Proof.
  intros H. pose proof (Qfloor_nonneg x H).
  destruct (rne_cases x) as [[-> _] | [-> _]]; lia.
Qed.

Lemma rne_below x N : (x < inject_Z N - (1 # 2))%Q -> rne x < N.
Proof.
  intros H.
  pose proof (Qfloor_le x) as Hf.
  destruct (rne_cases x) as [[-> _] | [-> Hd]].
  - rewrite Zlt_Qlt. lra.
  - rewrite Zlt_Qlt, inject_Z_plus. change (inject_Z 1) with 1%Q. lra.
Qed.

Lemma pow2_pos e : (0 < Qpower 2 e)%Q.
Proof. apply Qpower_0_lt. reflexivity. Qed.

(** Below a power of two, the logarithm is below its exponent. *)
Lemma flog2_le x j : 0 <= j -> (x < inject_Z (2 ^ (j + 1)))%Q -> flog2 x <= j.
Proof.
  intros Hj Hx. unfold flog2. destruct (Qle_bool 1 x) eqn:H1.
  - apply Qle_bool_iff in H1.
    assert (Hf : 1 <= Qfloor x) by (apply (Qfloor_resp_le 1 x) in H1; exact H1).
    assert (Hlt : Qfloor x < 2 ^ (j + 1)).
    { rewrite Zlt_Qlt. pose proof (Qfloor_le x). lra. }
    apply Z.log2_lt_pow2 in Hlt; lia.
  - pose proof (Z.log2_up_nonneg (Qceiling (/ x))). lia.
Qed.

(** The integer power of two, as a rational. *)
Lemma pow2_neg s : 0 <= s -> (Qpower 2 (- s) * inject_Z (2 ^ s) == 1)%Q.
Proof.
  intros Hs. rewrite Qpower_opp, (Zpower_Qpower 2 s Hs).
  change (inject_Z 2) with 2%Q.
  rewrite Qmult_comm. apply Qmult_inv_r.
  apply Qpower_not_0. discriminate.
Qed.

Lemma fl64_pos x :
  (0 < x)%Q ->
  fl64 x = (inject_Z (rne (x / Qpower 2 (Z.max (flog2 x - 52) (-1074))))
            * Qpower 2 (Z.max (flog2 x - 52) (-1074)))%Q.
Proof.
  intros Hx. unfold fl64.
  destruct (Qeq_bool x 0) eqn:H0.
  - apply Qeq_bool_iff in H0. lra.
  - assert (Hle : Qle_bool 0 x = true) by (apply Qle_bool_iff; lra).
    rewrite Hle.
    assert (Habs : Qabs x = x).
    { destruct x as [[| p | p] d]; try reflexivity.
      unfold Qlt in Hx. cbn in Hx. lia. }
    rewrite Habs. reflexivity.
Qed.

Lemma fl64_zero x : (x == 0)%Q -> fl64 x = 0%Q.
Proof. intros H. unfold fl64. apply Qeq_bool_iff in H. rewrite H. reflexivity. Qed.

(** The product of a double below one by [n] is rounded to a double below
    [n], for [n] between two consecutive powers of two. *)
Lemma fl64_below (x : Q) (n j : Z) :
  0 <= j <= 52 -> 2 ^ j < n <= 2 ^ (j + 1) ->
  (0 <= x)%Q -> (x <= inject_Z n * (1 - Qpower 2 (-53)))%Q ->
  (0 <= fl64 x)%Q /\ (fl64 x < inject_Z n)%Q.
Proof.
  intros Hj Hn H0 Hx.
  assert (Hc : (Qpower 2 (-53) == 1 # 9007199254740992)%Q) by reflexivity.
  assert (Hnpos : (0 < inject_Z n)%Q).
  { rewrite <- (Zlt_Qlt 0). pose proof (Z.pow_pos_nonneg 2 j). lia. }
  destruct (Qlt_le_dec 0 x) as [Hpos | Hneg].
  2:{ rewrite fl64_zero by lra. split; [apply Qle_refl | exact Hnpos]. }
  rewrite (fl64_pos x Hpos).
  assert (Hxn : (x < inject_Z (2 ^ (j + 1)))%Q).
  { apply Qlt_le_trans with (inject_Z n).
    - rewrite Hc in Hx. nra.
    - rewrite <- Zle_Qle. lia. }
  pose proof (flog2_le x j (proj1 Hj) Hxn) as Hlog.
  set (e := Z.max (flog2 x - 52) (-1074)).
  assert (He : e <= j - 52) by (unfold e; lia).
  set (s := - e).
  assert (Hs : 52 - j <= s) by (unfold s; lia).
  assert (Hs0 : 0 <= s) by lia.
  replace e with (- s) by (unfold s; lia).
  pose proof (pow2_neg s Hs0) as Hinv.
  pose proof (pow2_pos (- s)) as HP.
  set (P := Qpower 2 (- s)) in *.
  set (T := 2 ^ s) in *.
  assert (HT : 2 ^ (52 - j) <= T).
  { unfold T. apply Z.pow_le_mono_r; lia. }
  assert (HW : 2 ^ 52 < n * T).
  { replace (2 ^ 52) with (2 ^ j * 2 ^ (52 - j)).
    - pose proof (Z.pow_pos_nonneg 2 j). pose proof (Z.pow_pos_nonneg 2 (52 - j)). nia.
    - rewrite <- Z.pow_add_r by lia. f_equal. lia. }
  assert (HTq : (0 < inject_Z T)%Q).
  { rewrite <- (Zlt_Qlt 0). pose proof (Z.pow_pos_nonneg 2 (52 - j)). lia. }
  assert (Hdiv : (x / P == x * inject_Z T)%Q).
  { unfold Qdiv. rewrite <- (Qmult_1_r (/ P)), <- Hinv.
    field. lra. }
  assert (Hm : rne (x / P) < n * T).
  { apply rne_below. rewrite Hdiv, inject_Z_mult.
    assert (HWq : (inject_Z (2 ^ 52) < inject_Z n * inject_Z T)%Q).
    { rewrite <- inject_Z_mult, <- Zlt_Qlt. exact HW. }
    change (inject_Z (2 ^ 52)) with (4503599627370496 # 1)%Q in HWq.
    rewrite Hc in Hx.
    assert (Hx' : (x * inject_Z T <= inject_Z n * (1 - (1 # 9007199254740992)) * inject_Z T)%Q).
    { apply Qmult_le_compat_r; [exact Hx | lra]. }
    set (W := (inject_Z n * inject_Z T)%Q) in *.
    assert (Hx2 : (x * inject_Z T <= W * (1 - (1 # 9007199254740992)))%Q).
    { unfold W. eapply Qle_trans; [exact Hx' |]. apply Qle_lteq. right. ring. }
    lra. }
  pose proof (rne_nonneg (x / P)) as Hm0.
  assert (Hq0 : (0 <= x / P)%Q).
  { rewrite Hdiv. apply Qmult_le_0_compat; lra. }
  specialize (Hm0 Hq0).
  set (m := rne (x / P)) in *.
  split.
  - apply Qmult_le_0_compat; [| lra]. rewrite <- (Zle_Qle 0). exact Hm0.
  - assert (Hmq : (inject_Z m < inject_Z n * inject_Z T)%Q).
    { rewrite <- inject_Z_mult, <- Zlt_Qlt. exact Hm. }
    assert (H1 : (inject_Z m * P < inject_Z n * inject_Z T * P)%Q).
    { apply Qmult_lt_compat_r; assumption. }
    assert (H2 : (inject_Z n * inject_Z T * P == inject_Z n)%Q).
    { rewrite <- (Qmult_1_r (inject_Z n)) at 2. rewrite <- Hinv. ring. }
    rewrite H2 in H1. exact H1.
Qed.

(** [rne x] is an integer nearest to [x], and the even one when [x] is half
    way between two integers. *)
Lemma rne_nearest x :
  (inject_Z (rne x) - (1 # 2) <= x)%Q /\ (x <= inject_Z (rne x) + (1 # 2))%Q /\
  ((x == inject_Z (rne x) - (1 # 2))%Q \/ (x == inject_Z (rne x) + (1 # 2))%Q ->
   Z.even (rne x) = true).
Proof.
  pose proof (Qfloor_le x) as Hlo. pose proof (Qlt_floor x) as Hhi.
  rewrite inject_Z_plus in Hhi. change (inject_Z 1) with 1%Q in Hhi.
  unfold rne.
  destruct (Qcompare_spec (x - inject_Z (Qfloor x)) (1 # 2)) as [H | H | H].
  - destruct (Z.even (Qfloor x)) eqn:Hev.
    + split; [lra | split; [lra |]]. intros _. exact Hev.
    + rewrite inject_Z_plus. change (inject_Z 1) with 1%Q.
      split; [lra | split; [lra |]]. intros _.
      rewrite Z.even_add, Hev. reflexivity.
  - split; [lra | split; [lra |]]. intros [Ht | Ht]; lra.
  - rewrite inject_Z_plus. change (inject_Z 1) with 1%Q.
    split; [lra | split; [lra |]]. intros [Ht | Ht]; lra.
Qed.

(** [flog2 x] is the exponent of the leading bit of [x]. *)
Lemma flog2_spec x :
  (0 < x)%Q -> (Qpower 2 (flog2 x) <= x)%Q /\ (x < Qpower 2 (flog2 x + 1))%Q.
Proof.
  intros Hpos. unfold flog2. destruct (Qle_bool 1 x) eqn:H1.
  - apply Qle_bool_iff in H1.
    assert (Hf : 1 <= Qfloor x) by (apply (Qfloor_resp_le 1 x) in H1; exact H1).
    destruct (Z.log2_spec (Qfloor x)) as [Hlo Hhi]; [lia |].
    pose proof (Z.log2_nonneg (Qfloor x)) as Hl.
    change 2%Q with (inject_Z 2).
    rewrite <- !Zpower_Qpower by lia.
    pose proof (Qfloor_le x) as Hfl. pose proof (Qlt_floor x) as Hfu.
    split.
    + apply Qle_trans with (inject_Z (Qfloor x)); [| exact Hfl].
      rewrite <- Zle_Qle. exact Hlo.
    + apply Qlt_le_trans with (inject_Z (Qfloor x + 1)); [exact Hfu |].
      rewrite <- Zle_Qle. rewrite <- Z.add_1_r in Hhi. lia.
  - assert (Hx1 : (x < 1)%Q).
    { destruct (Qlt_le_dec x 1) as [Hlt | Hge]; [exact Hlt |].
      apply Qle_bool_iff in Hge. congruence. }
    assert (Hinv : (/ x * x == 1)%Q) by (rewrite Qmult_comm; apply Qmult_inv_r; lra).
    assert (Hipos : (0 < / x)%Q) by (apply Qinv_lt_0_compat; exact Hpos).
    assert (Hi1 : (1 < / x)%Q).
    { apply Qlt_shift_inv_l; [exact Hpos | lra]. }
    assert (Ha : 1 < Qceiling (/ x)).
    { rewrite Zlt_Qlt. apply Qlt_le_trans with (/ x)%Q; [exact Hi1 | apply Qle_ceiling]. }
    destruct (Z.log2_up_spec _ Ha) as [Hlo Hhi].
    set (L := Z.log2_up (Qceiling (/ x))) in *.
    assert (HL : 0 < L) by (apply Z.log2_up_pos; exact Ha).
    assert (Hup : (/ x <= inject_Z (2 ^ L))%Q).
    { apply Qle_trans with (inject_Z (Qceiling (/ x))); [apply Qle_ceiling |].
      rewrite <- Zle_Qle. exact Hhi. }
    assert (Hdn : (inject_Z (2 ^ Z.pred L) < / x)%Q).
    { apply Qle_lt_trans with (inject_Z (Qceiling (/ x) - 1)); [| apply Qceiling_lt].
      rewrite <- Zle_Qle. lia. }
    pose proof (pow2_neg L (Z.lt_le_incl _ _ HL)) as HpL.
    pose proof (pow2_pos (- L)) as HpLpos.
    assert (Hp1 : 0 <= Z.pred L) by lia.
    pose proof (pow2_neg (Z.pred L) Hp1) as HpP.
    pose proof (pow2_pos (- Z.pred L)) as HpPpos.
    replace (- L + 1) with (- Z.pred L) by lia.
    assert (HTL : (0 < inject_Z (2 ^ L))%Q).
    { rewrite <- (Zlt_Qlt 0). apply Z.pow_pos_nonneg; lia. }
    assert (HTP : (0 < inject_Z (2 ^ Z.pred L))%Q).
    { rewrite <- (Zlt_Qlt 0). apply Z.pow_pos_nonneg; lia. }
    set (P := Qpower 2 (- L)) in *. set (P' := Qpower 2 (- Z.pred L)) in *.
    set (T := inject_Z (2 ^ L)) in *. set (T' := inject_Z (2 ^ Z.pred L)) in *.
    set (y := (/ x)%Q) in *.
    split.
    + assert (H : (y * x * P <= T * x * P)%Q).
      { apply Qmult_le_compat_r; [| lra]. apply Qmult_le_compat_r; lra. }
      rewrite Hinv in H.
      assert (H2 : (T * x * P == x)%Q).
      { rewrite <- (Qmult_1_r x) at 2. rewrite <- HpL. fold P T. ring. }
      rewrite H2 in H. lra.
    + assert (H : (T' * x * P' < y * x * P')%Q).
      { apply Qmult_lt_compat_r; [lra |]. apply Qmult_lt_compat_r; lra. }
      rewrite Hinv in H.
      assert (H2 : (T' * x * P' == x)%Q).
      { rewrite <- (Qmult_1_r x) at 2. rewrite <- HpP. fold P' T'. ring. }
      rewrite H2 in H. lra.
Qed.

(** The rounding error of [fl64] is at most half the unit of the last place. *)
Lemma fl64_nearest x :
  (0 < x)%Q ->
  let e := Z.max (flog2 x - 52) (-1074) in
  (fl64 x == inject_Z (rne (x / Qpower 2 e)) * Qpower 2 e)%Q /\
  (fl64 x - (1 # 2) * Qpower 2 e <= x)%Q /\ (x <= fl64 x + (1 # 2) * Qpower 2 e)%Q.
Proof.
  intros Hpos e. rewrite (fl64_pos x Hpos). fold e.
  pose proof (pow2_pos e) as HP.
  destruct (rne_nearest (x / Qpower 2 e)) as [Hlo [Hhi _]].
  set (P := Qpower 2 e) in *. set (m := inject_Z (rne (x / P))) in *.
  assert (Hx : (x / P * P == x)%Q) by (field; lra).
  split; [reflexivity |]. split.
  - assert (H : ((m - (1 # 2)) * P <= x / P * P)%Q) by (apply Qmult_le_compat_r; lra).
    rewrite Hx in H. lra.
  - assert (H : (x / P * P <= (m + (1 # 2)) * P)%Q) by (apply Qmult_le_compat_r; lra).
    rewrite Hx in H. lra.
Qed.

Lemma isDouble_eq x : isDouble x = true -> (fl64 x == x)%Q.
Proof. unfold isDouble. apply Qeq_bool_iff. Qed.

(** The largest double below one is [1 - 2^-53]. *)
Lemma double_below_one r :
  isDouble r = true -> (0 <= r)%Q -> (r < 1)%Q -> (r <= 1 - Qpower 2 (-53))%Q.
Proof.
  intros Hd H0 H1. apply isDouble_eq in Hd.
  assert (Hc : (Qpower 2 (-53) == 1 # 9007199254740992)%Q) by reflexivity.
  destruct (Qlt_le_dec 0 r) as [Hpos | Hneg]; [| rewrite Hc; lra].
  rewrite (fl64_pos r Hpos) in Hd.
  assert (Hlog : flog2 r = - Z.log2_up (Qceiling (/ r))).
  { unfold flog2. destruct (Qle_bool 1 r) eqn:Hle; [| reflexivity].
    apply Qle_bool_iff in Hle. lra. }
  rewrite Hlog in Hd.
  set (L := Z.log2_up (Qceiling (/ r))) in *.
  pose proof (Z.log2_up_nonneg (Qceiling (/ r))) as HL. fold L in HL.
  destruct (Z_le_gt_dec L 1) as [Hsmall | Hbig].
  - set (e := Z.max (- L - 52) (-1074)) in *.
    assert (He : -53 <= e <= -52) by (unfold e; lia).
    set (s := - e).
    assert (Hs0 : 0 <= s) by (unfold s; lia).
    replace e with (- s) in * by (unfold s; lia).
    pose proof (pow2_neg s Hs0) as Hinv.
    pose proof (pow2_pos (- s)) as HP.
    assert (HP53 : (Qpower 2 (-53) <= Qpower 2 (- s))%Q).
    { apply Qpower_le_compat_l; [unfold s; lia | discriminate]. }
    set (P := Qpower 2 (- s)) in *.
    set (m := rne (r / P)) in *.
    set (T := 2 ^ s) in *.
    assert (HTq : (0 < inject_Z T)%Q).
    { rewrite <- (Zlt_Qlt 0). unfold T. apply Z.pow_pos_nonneg; lia. }
    assert (Hm : m < T).
    { rewrite Zlt_Qlt.
      assert (Hr : (inject_Z m == r * inject_Z T)%Q).
      { rewrite <- Hd. rewrite <- Qmult_assoc, Hinv. ring. }
      rewrite Hr. rewrite <- (Qmult_1_l (inject_Z T)) at 2.
      apply Qmult_lt_compat_r; assumption. }
    assert (Hm1 : (inject_Z m <= inject_Z T - 1)%Q).
    { assert (Hle : m <= T + - 1) by lia.
      rewrite Zle_Qle, inject_Z_plus in Hle.
      change (inject_Z (-1)) with (-1 # 1)%Q in Hle. lra. }
    assert (Hr : (r <= (inject_Z T - 1) * P)%Q).
    { rewrite <- Hd. apply Qmult_le_compat_r; [exact Hm1 | lra]. }
    assert (HTP : ((inject_Z T - 1) * P == 1 - P)%Q).
    { rewrite <- Hinv at 2. ring. }
    rewrite HTP in Hr. lra.
  - assert (Ha : 1 < Qceiling (/ r)).
    { destruct (Z_lt_le_dec 1 (Qceiling (/ r))) as [Hlt | Hle]; [exact Hlt |].
      apply Z.log2_up_eqn0 in Hle. unfold L in Hbig. lia. }
    pose proof (Z.log2_up_spec _ Ha) as [Hspec _]. fold L in Hspec.
    assert (H2 : 2 ^ 1 <= 2 ^ Z.pred L) by (apply Z.pow_le_mono_r; lia).
    change (2 ^ 1) with 2 in H2.
    pose proof (Qceiling_lt (/ r)) as Hceil.
    assert (H3 : (2 <= inject_Z (Qceiling (/ r) - 1))%Q).
    { change 2%Q with (inject_Z 2). rewrite <- Zle_Qle. lia. }
    assert (H4 : (2 * r < / r * r)%Q).
    { apply Qmult_lt_compat_r; [exact Hpos | lra]. }
    assert (H5 : (/ r * r == 1)%Q).
    { rewrite Qmult_comm. apply Qmult_inv_r. lra. }
    rewrite H5 in H4. rewrite Hc. lra.
Qed.

(** [Math.floor(Math.random() * n)] is one of 0, ..., n - 1. *)
Lemma floor_scaled (r : Q) (n j : Z) :
  0 <= j <= 52 -> 2 ^ j < n <= 2 ^ (j + 1) ->
  isDouble r = true -> (0 <= r)%Q -> (r < 1)%Q ->
  0 <= Qfloor (mul64 r (inject_Z n)) < n.
Proof.
  intros Hj Hn Hd H0 H1.
  pose proof (double_below_one r Hd H0 H1) as Hr.
  assert (Hnpos : (0 < inject_Z n)%Q).
  { rewrite <- (Zlt_Qlt 0). pose proof (Z.pow_pos_nonneg 2 j). lia. }
  assert (Hx0 : (0 <= r * inject_Z n)%Q) by (apply Qmult_le_0_compat; lra).
  assert (Hx : (r * inject_Z n <= inject_Z n * (1 - Qpower 2 (-53)))%Q).
  { rewrite (Qmult_comm r). apply Qmult_le_l; assumption. }
  destruct (fl64_below _ n j Hj Hn Hx0 Hx) as [Hlo Hhi].
  unfold mul64. split.
  - apply Qfloor_nonneg. exact Hlo.
  - rewrite Zlt_Qlt. apply Qle_lt_trans with (fl64 (r * inject_Z n)); [apply Qfloor_le | exact Hhi].
Qed.

Module TickFacts.
Import App AppSpec Vocabulary.

Section WithHost.
Variable h : Host.

(** The delays of the timers of a batch: 150 ms apart, in the order of the
    logs. *)
Lemma scheduleLogs_delays logs : forall idx c,
  delays (script (forEach_from idx logs (scheduleLog h)) c) =
    map (fun k => (idx + Z.of_nat k) * 150) (seq 0 (length logs)).
Proof.
  induction logs as [| log logs IH]; intros idx c; [reflexivity |].
  cbn [forEach_from length seq map].
  erewrite script_bind by reflexivity.
  rewrite delays_app, IH. cbn [delays flat_map app].
  rewrite Z.add_0_r. f_equal.
  rewrite <- seq_shift, map_map. apply map_ext. intros k. f_equal. lia.
Qed.

Lemma submitVulns_keep vs : forall idx c,
  Forall (fun e => keepsNodes e = true)
    (updates (script (forEach_from idx vs (submitVuln h)) c)).
Proof.
  induction vs as [| v vs IH]; intros idx c; [constructor |].
  cbn [forEach_from].
  erewrite script_bind by reflexivity.
  rewrite updates_app. apply Forall_app. split; [| apply IH].
  repeat constructor.
Qed.

(** The script of a tick, with the values that it draws. *)
Lemma tick_script url i c : exists data l tl tv,
  result (geminiService.analyzeTargetForSimulation h (E:=Event) url)
    {| randoms := S (randoms c); clocks := S (clocks c); calls := calls c |} = inr data /\
  script (tick h url i) c =
    [Do (AddLog l); AwaitGenerateContent (geminiService.request url);
     Do (PushNode (Number_toString h (Math_random h (S (S (S (randoms c))))) 10)
           (tickPath (Math_random h (S (randoms c))) (Math_random h (S (S (randoms c)))))
           data i)]
    ++ tl ++ tv ++ [AwaitTimeout 3000] /\
  delays tl = map (fun k => Z.of_nat k * 150) (seq 0 (length (SimData.logs data))) /\
  updates tl = [] /\
  callbacks tv = [] /\
  flat_map nodesOf (updates tv) = [] /\
  Forall (fun e => keepsNodes e = true) (updates tv).
Proof.
  pose (c0 := {| randoms := S (randoms c); clocks := S (clocks c); calls := calls c |}).
  destruct (ScanFacts.analyze_runs h url c0) as [data Hdata].
  pose (c2 := {| randoms := S (S (S (S (randoms c)))); clocks := S (clocks c);
                 calls := S (calls c) |}).
  destruct (ScanFacts.scheduleLogs_runs h (SimData.logs data) 0 c2)
    as [c3 [tl [Hlogs [_ [Hlupd _]]]]].
  assert (Hvs : exists c4 tv,
             runs (if (0 <? length (SimData.vulnerabilities data))%nat
                   then forEach (SimData.vulnerabilities data) (submitVuln h)
                   else ret tt) c3 tt c4 tv /\
             callbacks tv = [] /\ flat_map nodesOf (updates tv) = [] /\
             Forall (fun e => keepsNodes e = true) (updates tv)).
  { destruct (0 <? length (SimData.vulnerabilities data))%nat.
    - destruct (ScanFacts.submitVulns_runs h (SimData.vulnerabilities data) 0 c3)
        as [c4 [tv [Hrun [_ [Hcb [_ [_ Hnodes]]]]]]].
      exists c4, tv. repeat split; auto.
      rewrite <- (runs_script _ _ _ _ _ Hrun). apply submitVulns_keep.
    - exists c3, []. repeat split. constructor. }
  destruct Hvs as [c4 [tv [Hvrun [Hvcb [Hvnodes Hvkeep]]]]].
  exists data. eexists. exists tl, tv.
  split; [| split; [| split; [| split; [| split; [| split]]]]].
  - unfold result. unfold runs in Hdata. subst c0. rewrite Hdata. reflexivity.
  - unfold tick.
    erewrite script_bind by apply ScanFacts.addLog_runs.
    erewrite script_bind by exact Hdata.
    erewrite (script_bind _ _ _ (Math_random h (randoms c0))) by reflexivity.
    erewrite (script_bind _ _ _ (Math_random h (S (randoms c0)))) by reflexivity.
    erewrite (script_bind _ _ _ (Math_random h (S (S (randoms c0))))) by reflexivity.
    erewrite script_bind by apply runs_emit.
    erewrite script_bind by exact Hlogs.
    erewrite script_bind by exact Hvrun.
    reflexivity.
  - rewrite <- (runs_script _ _ _ _ _ Hlogs).
    unfold forEach. rewrite scheduleLogs_delays. reflexivity.
  - exact Hlupd.
  - exact Hvcb.
  - exact Hvnodes.
  - exact Hvkeep.
Qed.
End WithHost.
End TickFacts.

(** ** The site map after a scan *)

Module MapFacts.
Import App AppSpec Vocabulary.

Lemma step_nodes_append e s :
  keepsNodes e = true -> crawlNodes (step e s) = crawlNodes s ++ nodesOf e.
Proof.
  intros He. destruct e; try discriminate; cbn; rewrite ?app_nil_r; auto.
  - apply AppFacts.logTimer_crawlNodes.
  - unfold mergeVuln. destruct (known (vulnerabilities s) v); reflexivity.
Qed.

Lemma run_nodes_append tr : forall s,
  Forall (fun e => keepsNodes e = true) tr ->
  crawlNodes (run tr s) = crawlNodes s ++ flat_map nodesOf tr.
Proof.
  induction tr as [| e tr IH]; intros s Hall.
  - cbn. symmetry. apply app_nil_r.
  - inversion Hall as [| e' tr' He Htr]; subst.
    rewrite AppFacts.run_cons, (IH _ Htr), (step_nodes_append e s He).
    cbn [flat_map]. symmetry. apply app_assoc.
Qed.

Section WithHost.
Variable h : Host.

(** A tick adds one node, of depth [i + 1]. *)
Lemma tick_nodes url i c : exists c1 t1 n,
  runs (tick h url i) c tt c1 t1 /\
  Forall (fun e => keepsNodes e = true) (updates t1) /\
  flat_map nodesOf (updates t1) = [n] /\
  CrawlNode.depth n = i + 1.
Proof.
  destruct (ScanFacts.tick_runs h url i c) as [data [c1 [t1 [Hrun _]]]].
  destruct (TickFacts.tick_script h url i c)
    as [data' [l [tl [tv [_ [Hscript [_ [Hlupd [_ [Hvnodes Hvkeep]]]]]]]]]].
  rewrite (runs_script _ _ _ _ _ Hrun) in Hscript.
  exists c1, t1. eexists. split; [exact Hrun |].
  rewrite Hscript, !updates_app, Hlupd. cbn [updates flat_map app].
  split; [| split].
  - repeat constructor. rewrite app_nil_r. exact Hvkeep.
  - rewrite app_nil_r. cbn [flat_map nodesOf app]. rewrite Hvnodes. reflexivity.
  - reflexivity.
Qed.

(** The loop of a closure that captured [true]: [n] iterations from index
    [i] add nodes of depths [i + 1] to [i + n]. *)
Lemma loop_nodes url n : forall i c, exists c1 t1,
  runs (for_range i n (fun i => if negb true then ret Break
                                else tick h url i ;; ret Continue)) c tt c1 t1 /\
  Forall (fun e => keepsNodes e = true) (updates t1) /\
  map CrawlNode.depth (flat_map nodesOf (updates t1)) =
    map (fun k => i + 1 + Z.of_nat k) (seq 0 n).
Proof.
  induction n as [| n IH]; intros i c.
  - exists c, []. repeat split. constructor.
  - destruct (tick_nodes url i c) as [c1 [t1 [nd [Hrun [Hkeep [Hnodes Hdepth]]]]]].
    destruct (IH (i + 1) c1) as [c2 [t2 [Hrun2 [Hkeep2 Hdepths2]]]].
    exists c2, ((t1 ++ []) ++ t2). split; [| split].
    + cbn [for_range negb].
      eapply (runs_bind _ _ _ Continue).
      * eapply runs_bind; [exact Hrun | apply runs_ret].
      * exact Hrun2.
    + rewrite app_nil_r, updates_app. apply Forall_app. split; assumption.
    + rewrite app_nil_r, updates_app, flat_map_app, map_app, Hnodes, Hdepths2.
      cbn [map app seq]. rewrite Hdepth, Z.add_0_r. f_equal.
      rewrite <- seq_shift, map_map. apply map_ext. intros k. lia.
Qed.

Lemma mission_nodes url scanning c : exists c1 post,
  runs (mission h url scanning) c tt c1 ([AwaitTimeout 800; Do SeedRoot] ++ post) /\
  Forall (fun e => keepsNodes e = true) (updates post) /\
  map CrawlNode.depth (flat_map nodesOf (updates post)) =
    map (fun k => 1 + Z.of_nat k) (seq 0 (if scanning then 5 else 0)).
Proof.
  destruct scanning.
  - destruct (loop_nodes url 5 0 c) as [c1 [t1 [Hrun [Hkeep Hdepths]]]].
    eexists. eexists (t1 ++ [_]). split; [| split].
    + unfold mission.
      eapply (runs_bind _ _ _ tt _ [AwaitTimeout 800]); [apply runs_emit |].
      eapply (runs_bind _ _ _ tt _ [Do SeedRoot]); [apply runs_emit |].
      eapply runs_bind; [exact Hrun | apply ScanFacts.addLog_runs].
    + rewrite updates_app. apply Forall_app. split; [exact Hkeep |].
      repeat constructor.
    + rewrite updates_app, flat_map_app, map_app, Hdepths. cbn [updates flat_map app].
      rewrite app_nil_r. reflexivity.
  - eexists. eexists [_]. split; [| split].
    + reflexivity.
    + repeat constructor.
    + reflexivity.
Qed.
End WithHost.
End MapFacts.

(** X12: the list of crawl nodes once the updates of a scan past its
    guards are applied, from any state: the root node followed by one node
    per iteration of the loop, the depth of each being its position in the
    list (0 for the root, [i + 1] for the node of iteration [i]): six nodes
    for a closure that captured [isScanning = true], the root alone for one
    that captured [false]. *)
Theorem scan_nodes_depths h s c s0 :
  truthy (App.targetUrl s) = true -> App.API_KEY_AVAILABLE h = true ->
  map CrawlNode.depth
    (App.crawlNodes (App.run (updates (script (App.startScan h s) c)) s0)) =
  map Z.of_nat (seq 0 (if App.isScanning s then 6 else 1)).
Proof.
  intros Hurl Hkey.
  destruct (ScanFacts.prologue_runs h (App.targetUrl s) c) as [c1 [l1 [l2 [Hpro _]]]].
  destruct (MapFacts.mission_nodes h (App.targetUrl s) (App.isScanning s) c1)
    as [c2 [post [Hmis [Hkeep Hdepths]]]].
  assert (Hrun : runs (App.startScan h s) c tt c2
                   ((map Do App.sessionStart ++ [Do (App.AddLog l1); Do (App.AddLog l2)])
                    ++ ([AwaitTimeout 800; Do App.SeedRoot] ++ post)
                    ++ [Do (App.SetIsScanning false)])).
  { unfold App.startScan. rewrite Hurl, Hkey. cbn [negb].
    eapply runs_bind; [exact Hpro |].
    eapply runs_try_finally; [apply runs_try_catch; exact Hmis | apply runs_emit]. }
  rewrite (runs_script _ _ _ _ _ Hrun), !updates_app.
  cbn [updates flat_map app map App.sessionStart].
  rewrite !AppFacts.run_cons.
  rewrite MapFacts.run_nodes_append.
  - cbn [App.step App.crawlNodes App.setCrawlNodes App.pushLog].
    rewrite flat_map_app, map_app. cbn [map app flat_map AppSpec.nodesOf].
    rewrite app_nil_r, Hdepths.
    destruct (App.isScanning s); reflexivity.
  - apply Forall_app. split; [exact Hkeep | repeat constructor].
Qed.

(** The sample scan by a closure that captured [true]: depths 0 to 5. *)
Lemma scan_nodes_depths_witness :
  map CrawlNode.depth
    (App.crawlNodes
       (App.run (updates (script (App.startScan Sample.host Sample.busy) cursor0))
          Sample.found)) = [0; 1; 2; 3; 4; 5].
Proof.
  apply (scan_nodes_depths Sample.host Sample.busy cursor0 Sample.found); reflexivity.
Defined.

(** X13: the timers of a tick of the version with the site map.  A tick
    arms one timer per log of its batch, 150 ms apart in the order of the
    batch, then pauses 3000 ms; all its timers are due before the end of
    the pause exactly when the batch has at most 20 logs. *)
Theorem tick_timers_spaced h url i c :
  exists data,
    result (geminiService.analyzeTargetForSimulation h (E:=App.Event) url)
      {| randoms := S (randoms c); clocks := S (clocks c); calls := calls c |} = inr data /\
    Vocabulary.delays (script (App.tick h url i) c) =
      map (fun k => Z.of_nat k * 150) (seq 0 (length (SimData.logs data))) /\
    waits (script (App.tick h url i) c) = [3000] /\
    (Forall (fun ms => ms < 3000) (Vocabulary.delays (script (App.tick h url i) c)) <->
     (length (SimData.logs data) <= 20)%nat).
Proof.
  destruct (TickFacts.tick_script h url i c)
    as [data [l [tl [tv [Hres [Hscript [Hdelays [_ [Hvcb _]]]]]]]]].
  destruct (ScanFacts.tick_runs h url i c) as [data' [c1 [t1 [Hrun [_ [_ [_ [_ [_ Hw]]]]]]]]].
  assert (Hd : Vocabulary.delays (script (App.tick h url i) c) =
               map (fun k => Z.of_nat k * 150) (seq 0 (length (SimData.logs data)))).
  { rewrite Hscript, !delays_app, Hdelays, (delays_no_callback tv Hvcb).
    cbn [Vocabulary.delays flat_map app]. apply app_nil_r. }
  exists data. split; [exact Hres |]. split; [exact Hd |].
  split; [rewrite (runs_script _ _ _ _ _ Hrun); exact Hw |].
  rewrite Hd, Forall_forall. split.
  - intros Hall.
    destruct (Nat.le_gt_cases (length (SimData.logs data)) 20) as [Hle | Hgt]; [exact Hle |].
    exfalso.
    assert (Hin : In (Z.of_nat 20 * 150)
                    (map (fun k => Z.of_nat k * 150) (seq 0 (length (SimData.logs data))))).
    { apply in_map_iff. exists 20%nat. split; [reflexivity |]. apply in_seq. lia. }
    apply Hall in Hin. lia.
  - intros Hle ms Hin. apply in_map_iff in Hin. destruct Hin as [k [<- Hk]].
    apply in_seq in Hk. lia.
Qed.

(** X14: the URL of the node of a tick.  [Math.random] returns doubles
    from 0 (included) to 1 (excluded); the products by 8 and by 100 are
    rounded to doubles before they are floored.  The URL is then one of
    the eight listed paths, the one at the floor of the first product,
    followed by [?id=] and the floor of the second product, an integer
    from 0 to 99: the index never leaves the list. *)
Theorem tick_path_in_range h url i c :
  (forall n, isDouble (Math_random h n) = true
             /\ (0 <= Math_random h n)%Q /\ (Math_random h n < 1)%Q) ->
  let k := Qfloor (mul64 (Math_random h (S (randoms c))) (inject_Z 8)) in
  let n := Qfloor (mul64 (Math_random h (S (S (randoms c)))) (inject_Z 100)) in
  exists data id p,
    0 <= k < 8 /\ nth_error App.newPaths (Z.to_nat k) = Some p /\
    In p App.newPaths /\ 0 <= n <= 99 /\
    flat_map AppSpec.nodesOf (updates (script (App.tick h url i) c)) =
      [App.tickNode id (p ++ "?id=" ++ string_of_Z n)%string data i].
Proof.
  intros Hrange k n.
  destruct (TickFacts.tick_script h url i c)
    as [data [l [tl [tv [_ [Hscript [_ [Hlupd [_ [Hvnodes _]]]]]]]]]].
  destruct (Hrange (S (randoms c))) as [Hd1 [Hlo1 Hhi1]].
  destruct (Hrange (S (S (randoms c)))) as [Hd2 [Hlo2 Hhi2]].
  assert (Hk : 0 <= k < 8).
  { apply (floor_scaled _ 8 2); [lia | cbn; lia | assumption ..]. }
  assert (Hn : 0 <= n < 100).
  { apply (floor_scaled _ 100 6); [lia | cbn; lia | assumption ..]. }
  assert (Hnth : nth_error App.newPaths (Z.to_nat k)
                 = Some (nth (Z.to_nat k) App.newPaths "undefined")).
  { apply nth_error_nth'. change (length App.newPaths) with 8%nat. lia. }
  assert (Hitem : item App.newPaths k = nth (Z.to_nat k) App.newPaths "undefined").
  { unfold item. destruct (Z.ltb_spec k 0) as [Hneg | _]; [lia | reflexivity]. }
  exists data. eexists. exists (nth (Z.to_nat k) App.newPaths "undefined").
  split; [exact Hk |]. split; [exact Hnth |].
  split; [apply nth_error_In with (Z.to_nat k); exact Hnth |].
  split; [lia |].
  rewrite Hscript, !updates_app, Hlupd, !flat_map_app, Hvnodes.
  unfold Vocabulary.tickPath.
  change (inject_Z (Z.of_nat (length App.newPaths))) with (inject_Z 8).
  fold k. rewrite Hitem. reflexivity.
Qed.

(** A host whose values of [Math.random] are the double written 0.24 and
    the largest double below 1: the node of its first tick. *)
Lemma tick_path_in_range_witness :
  (exists data id p,
      0 <= 7 < 8 /\ nth_error App.newPaths 7 = Some p /\
      In p App.newPaths /\ 0 <= 24 <= 99 /\
      flat_map AppSpec.nodesOf
        (updates (script (App.tick Sample2.doubleHost "https://example.com" 0) cursor0)) =
        [App.tickNode id (p ++ "?id=" ++ string_of_Z 24)%string data 0])
  /\ map CrawlNode.url
       (flat_map AppSpec.nodesOf
          (updates (script (App.tick Sample2.doubleHost "https://example.com" 0) cursor0)))
     = ["/config.php?id=24"].
Proof.
  split; [| vm_compute; reflexivity].
  apply (tick_path_in_range Sample2.doubleHost "https://example.com" 0 cursor0).
  intros n. cbn [Math_random Sample2.doubleHost].
  destruct (Nat.even n); repeat split; vm_compute; congruence.
Defined.

(** The URL of that tick: the products are those of the doubles, 7 and 24
    once floored, where the exact product of 0.24 by 100 is below 24. *)
Example tick_path_sample :
  Vocabulary.tickPath Sample2.nearOne Sample2.point24 = "/config.php?id=24"
  /\ Qfloor (Sample2.point24 * 100) = 23
  /\ isDouble Sample2.point24 = true /\ isDouble (24 # 100) = false.
Proof. repeat split; vm_compute; reflexivity. Qed.

(** ** What the components show *)

(** X15: the pie chart of the stats panel.  Its two slices always add up
    to 100; in a session the Critical slice is five times the number of
    listed findings, and the Secure slice is negative exactly when more
    than 20 findings are listed. *)
Theorem stats_panel_slices tr s :
  Forall (fun e => AppSpec.isReset e = false) tr ->
  let s' := App.run (App.sessionStart ++ tr) s in
  let found := Z.of_nat (length (App.vulnerabilities s')) in
  StatsPanel.data (App.stats s') = [("Secure", 100 - found * 5); ("Critical", found * 5)] /\
  (100 - found * 5) + found * 5 = 100 /\
  (100 - found * 5 < 0 <-> (20 < length (App.vulnerabilities s'))%nat).
Proof.
  intros Hall. cbn zeta.
  assert (Hc : AppSpec.counted (App.run (App.sessionStart ++ tr) s)).
  { rewrite AppFacts.run_app.
    apply (AppFacts.run_invariant AppSpec.counted (fun e => AppSpec.isReset e = false));
      [exact AppFacts.step_counted | exact Hall | reflexivity]. }
  unfold AppSpec.counted in Hc. unfold StatsPanel.data. rewrite Hc.
  repeat split; lia.
Qed.

(** X16: the site map of a session never shows a node in the style of the
    pending status: every node is drawn in the style of 'vuln' or in that
    of 'visited'. *)
Theorem crawl_map_never_pending tr s :
  Forall (fun cell =>
            fst cell = "bg-red-500/20 border-red-500 text-red-400" \/
            fst cell = "bg-green-500/10 border-green-500/50 text-green-400")
    (CrawlMap.cells (App.crawlNodes (App.run (App.sessionStart ++ tr) s))).
Proof.
  assert (Hflat : Forall AppSpec.flat
                    (App.crawlNodes (App.run (App.sessionStart ++ tr) s))).
  { rewrite AppFacts.run_app.
    apply AppFacts.run_invariant_all; [apply AppFacts.step_nodes_flat |].
    rewrite AppFacts.sessionStart_run. constructor. }
  unfold CrawlMap.cells. apply Forall_map.
  apply (Forall_impl _ (P := AppSpec.flat)); [| exact Hflat].
  intros n [_ Hs]. unfold CrawlMap.nodeClass. cbn [fst].
  destruct (CrawlNode.status n); [contradiction | right | left]; reflexivity.
Qed.

(** Three findings of two types in the sample session: Critical is 10. *)
Lemma stats_panel_slices_witness :
  StatsPanel.data
    (App.stats
       (App.run (App.sessionStart
                 ++ [App.MergeVuln Sample.xss "0.a" "l1" "12:00:01";
                     App.MergeVuln Sample.sqli "0.b" "l2" "12:00:01";
                     App.MergeVuln Sample.xss "0.c" "l3" "12:00:01"]) Sample.found))
  = [("Secure", 90); ("Critical", 10)].
Proof.
  apply (stats_panel_slices
           [App.MergeVuln Sample.xss "0.a" "l1" "12:00:01";
            App.MergeVuln Sample.sqli "0.b" "l2" "12:00:01";
            App.MergeVuln Sample.xss "0.c" "l3" "12:00:01"] Sample.found).
  repeat constructor.
Defined.

(** ** The sanitizer of the simulation service *)

Module StringFacts.
Import Vocabulary.

Lemma prefix_nil_r pat : String.prefix pat EmptyString = match pat with EmptyString => true | _ => false end.
Proof. destruct pat; reflexivity. Qed.

Lemma prefix_tick1 ch rest : String.prefix "`" (String ch rest) = isTick ch.
Proof.
  unfold isTick. cbn [String.prefix]. destruct (ascii_dec "`" ch); [| reflexivity].
  destruct rest; reflexivity.
Qed.

Lemma prefix_tick2 ch rest :
  String.prefix "``" (String ch rest) = isTick ch && String.prefix "`" rest.
Proof.
  unfold isTick. cbn [String.prefix]. destruct (ascii_dec "`" ch); reflexivity.
Qed.

Lemma prefix_fence ch rest :
  String.prefix fence (String ch rest) = isTick ch && String.prefix "``" rest.
Proof.
  unfold isTick, fence. cbn [String.prefix]. destruct (ascii_dec "`" ch); reflexivity.
Qed.

Lemma prefix_json ch rest :
  String.prefix fenceJson (String ch rest) = true -> isTick ch = true.
Proof.
  unfold isTick, fenceJson. cbn [String.prefix].
  destruct (ascii_dec "`" ch); [reflexivity | discriminate].
Qed.

(** An occurrence of the longer pattern starts with the fence. *)
Lemma prefix_json_fence s : String.prefix fenceJson s = true -> String.prefix fence s = true.
Proof.
  unfold fenceJson, fence.
  destruct s as [| c1 [| c2 [| c3 s]]]; cbn [String.prefix];
    repeat match goal with
           | |- context [ascii_dec ?a ?b] => destruct (ascii_dec a b)
           end; try discriminate; intros _; destruct s; reflexivity.
Qed.

(** One step of the removal, for a pattern [pat]. *)
Lemma remove_step pat ch rest :
  remove_all_from 0 pat (String ch rest) =
    if String.prefix pat (String ch rest)
    then remove_all_from (Nat.pred (String.length pat)) pat rest
    else String ch (remove_all_from 0 pat rest).
Proof. reflexivity. Qed.

Lemma remove_skip k pat ch rest :
  remove_all_from (S k) pat (String ch rest) = remove_all_from k pat rest.
Proof. reflexivity. Qed.

Lemma remove_nil k pat : remove_all_from k pat EmptyString = EmptyString.
Proof. destruct k; reflexivity. Qed.

(** A text without occurrence of the pattern is left as it is. *)
Lemma remove_all_absent pat s : occurs pat s = false -> remove_all pat s = s.
Proof.
  unfold remove_all. induction s as [| ch rest IH]; intros Hocc; [reflexivity |].
  cbn [occurs] in Hocc. apply orb_false_iff in Hocc. destruct Hocc as [Hpre Hrest].
  rewrite remove_step, Hpre, (IH Hrest). reflexivity.
Qed.

Lemma occurs_json_fence s : occurs fenceJson s = true -> occurs fence s = true.
Proof.
  induction s as [| ch rest IH]; cbn [occurs]; intros Hocc.
  - rewrite orb_false_r in Hocc. discriminate.
  - apply orb_true_iff in Hocc. apply orb_true_iff. destruct Hocc as [Hpre | Hrest].
    + left. apply prefix_json_fence. exact Hpre.
    + right. apply IH. exact Hrest.
Qed.

(** What is left of a text that does not start with two backticks does not
    start with two backticks. *)
Lemma remove_keeps_head s :
  String.prefix "``" s = false -> String.prefix "``" (remove_all fence s) = false.
Proof.
  unfold remove_all. destruct s as [| x r1]; [reflexivity |].
  rewrite prefix_tick2, remove_step, prefix_fence.
  destruct (isTick x) eqn:Hx; cbn [andb]; intros H1.
  - assert (H2 : String.prefix "``" r1 = false).
    { destruct r1 as [| y r2]; [reflexivity |].
      rewrite prefix_tick1 in H1. rewrite prefix_tick2, H1. reflexivity. }
    rewrite H2, prefix_tick2, Hx. cbn [andb].
    destruct r1 as [| y r2]; [reflexivity |].
    rewrite prefix_tick1 in H1.
    rewrite remove_step, prefix_fence, H1. cbn [andb].
    rewrite prefix_tick1. exact H1.
  - rewrite prefix_tick2, Hx. reflexivity.
Qed.

Lemma remove_no_new_fence ch rest :
  String.prefix fence (String ch rest) = false ->
  String.prefix fence (String ch (remove_all fence rest)) = false.
Proof.
  rewrite !prefix_fence. destruct (isTick ch); cbn [andb]; [| reflexivity].
  apply remove_keeps_head.
Qed.

(** No fence is left after the removal, whatever was being skipped. *)
Lemma remove_all_from_clean s : forall k,
  occurs fence (remove_all_from k fence s) = false.
Proof.
  induction s as [| ch rest IH]; intros k.
  - rewrite remove_nil. reflexivity.
  - destruct k as [| k].
    + rewrite remove_step. destruct (String.prefix fence (String ch rest)) eqn:Hpre.
      * apply IH.
      * cbn [occurs]. rewrite (IH 0%nat), orb_false_r.
        apply (remove_no_new_fence ch rest Hpre).
    + rewrite remove_skip. apply IH.
Qed.

(** *** White space

    One step of [trimStart]: the white space at the head of a text, if
    there is one, is dropped. *)
Lemma trimStart_unfold s :
  trimStart s = match skipSpace s with Some r => trimStart r | None => s end.
Proof.
  destruct s as [| c1 [| c2 [| c3 r3]]]; cbn [trimStart skipSpace];
    try reflexivity.
  - destruct (space1 c1); reflexivity.
  - destruct (space1 c1); [reflexivity |]. destruct (space2 c1 c2); reflexivity.
  - destruct (space1 c1); [reflexivity |]. destruct (space2 c1 c2); [reflexivity |].
    destruct (space3 c1 c2 c3); reflexivity.
Qed.

Lemma skipSpace_split s r :
  skipSpace s = Some r ->
  exists w, s = (w ++ r)%string /\ (String.length r < String.length s)%nat.
Proof.
  destruct s as [| c1 [| c2 [| c3 r3]]]; cbn [skipSpace]; try discriminate.
  - destruct (space1 c1); [| discriminate]. intros [= <-].
    exists (String c1 EmptyString). split; [reflexivity | cbn; lia].
  - destruct (space1 c1).
    + intros [= <-]. exists (String c1 EmptyString). split; [reflexivity | cbn; lia].
    + destruct (space2 c1 c2); [| discriminate]. intros [= <-].
      exists (String c1 (String c2 EmptyString)). split; [reflexivity | cbn; lia].
  - destruct (space1 c1).
    + intros [= <-]. exists (String c1 EmptyString). split; [reflexivity | cbn; lia].
    + destruct (space2 c1 c2).
      * intros [= <-]. exists (String c1 (String c2 EmptyString)).
        split; [reflexivity | cbn; lia].
      * destruct (space3 c1 c2 c3); [| discriminate]. intros [= <-].
        exists (String c1 (String c2 (String c3 EmptyString))).
        split; [reflexivity | cbn; lia].
Qed.

Lemma skipSpace_app a b r :
  skipSpace a = Some r -> skipSpace (a ++ b) = Some (r ++ b)%string.
Proof.
  destruct a as [| c1 [| c2 [| c3 r3]]]; cbn [skipSpace append]; try discriminate.
  - destruct (space1 c1); [| discriminate]. intros [= <-]. reflexivity.
  - destruct (space1 c1); [intros [= <-]; reflexivity |].
    destruct (space2 c1 c2); [| discriminate]. intros [= <-]. reflexivity.
  - destruct (space1 c1); [intros [= <-]; reflexivity |].
    destruct (space2 c1 c2); [intros [= <-]; reflexivity |].
    destruct (space3 c1 c2 c3); [| discriminate]. intros [= <-]. reflexivity.
Qed.

(** Induction on the length of a text. *)
Lemma length_induction (P : string -> Prop) :
  (forall s, (forall r, (String.length r < String.length s)%nat -> P r) -> P s) ->
  forall s, P s.
Proof.
  intros Hstep s.
  assert (H : forall n r, (String.length r < n)%nat -> P r).
  { induction n as [| n IH]; intros r Hr; [lia |].
    apply Hstep. intros r' Hr'. apply IH. lia. }
  apply (H (S (String.length s))). lia.
Qed.

Lemma app_string_assoc a b c : ((a ++ b) ++ c = a ++ (b ++ c))%string.
Proof. induction a as [| ch a IH]; [reflexivity | cbn; f_equal; exact IH]. Qed.

(** Trimming keeps a part of the text. *)
Lemma trimStart_suffix s : exists w, s = (w ++ trimStart s)%string.
Proof.
  induction s as [s IH] using length_induction.
  rewrite trimStart_unfold. destruct (skipSpace s) as [r |] eqn:Hskip.
  - destruct (skipSpace_split s r Hskip) as [w [Hs Hlen]].
    destruct (IH r Hlen) as [w' Hr].
    exists (w ++ w')%string. rewrite Hs at 1. rewrite Hr at 1.
    symmetry. apply app_string_assoc.
  - exists EmptyString. reflexivity.
Qed.

(** What [trimStart] returns does not start with white space. *)
Lemma trimStart_head s : skipSpace (trimStart s) = None.
Proof.
  induction s as [s IH] using length_induction.
  rewrite trimStart_unfold. destruct (skipSpace s) as [r |] eqn:Hskip.
  - destruct (skipSpace_split s r Hskip) as [w [Hs Hlen]]. apply IH. exact Hlen.
  - exact Hskip.
Qed.

Lemma trimStart_fixed s : skipSpace s = None -> trimStart s = s.
Proof. intros H. rewrite trimStart_unfold, H. reflexivity. Qed.

(** White space only, before a text, is dropped with the white space at
    the head of the text. *)
Lemma blank_app a b : trimStart a = EmptyString -> trimStart (a ++ b) = trimStart b.
Proof.
  induction a as [a IH] using length_induction. intros Hblank.
  rewrite trimStart_unfold in Hblank.
  destruct (skipSpace a) as [r |] eqn:Hskip.
  - rewrite (trimStart_unfold (a ++ b)), (skipSpace_app a b r Hskip).
    destruct (skipSpace_split a r Hskip) as [w [Hs Hlen]].
    apply IH; assumption.
  - subst a. reflexivity.
Qed.

(** What [trimEnd] drops is white space only. *)
Lemma trimEnd_split s :
  exists w, s = (trimEnd s ++ w)%string /\ trimStart w = EmptyString.
Proof.
  induction s as [| ch rest [w [Hw Hb]]].
  - exists EmptyString. split; reflexivity.
  - cbn [trimEnd]. unfold blank.
    destruct (trimStart (String ch rest)) eqn:Hs.
    + exists (String ch rest). split; [reflexivity | exact Hs].
    + exists w. split; [cbn; f_equal; exact Hw | exact Hb].
Qed.

Lemma trimEnd_prefix s : exists w, s = (trimEnd s ++ w)%string.
Proof. destruct (trimEnd_split s) as [w [Hw _]]. exists w. exact Hw. Qed.

Lemma occurs_cons pat ch rest : occurs pat rest = true -> occurs pat (String ch rest) = true.
Proof. intros H. cbn [occurs]. rewrite H. apply orb_true_r. Qed.

Lemma occurs_suffix pat w s : occurs pat s = true -> occurs pat (w ++ s) = true.
Proof.
  induction w as [| ch w IH]; intros H; [exact H |].
  cbn [append]. apply occurs_cons, IH, H.
Qed.

Lemma occurs_trimStart pat s : occurs pat (trimStart s) = true -> occurs pat s = true.
Proof.
  intros H. destruct (trimStart_suffix s) as [w Hw]. rewrite Hw.
  apply occurs_suffix. exact H.
Qed.

Lemma prefix_app pat : forall a w,
  String.prefix pat a = true -> String.prefix pat (a ++ w) = true.
Proof.
  induction pat as [| p pat IH]; intros a w H.
  - destruct (a ++ w)%string; reflexivity.
  - destruct a as [| ch a]; [discriminate |].
    cbn [String.prefix append] in *. destruct (ascii_dec p ch); [| discriminate].
    apply IH. exact H.
Qed.

Lemma occurs_app pat a w : occurs pat a = true -> occurs pat (a ++ w) = true.
Proof.
  induction a as [| ch a IH]; cbn [occurs append]; intros H.
  - rewrite orb_false_r in H. destruct pat; [| discriminate].
    destruct w; reflexivity.
  - apply orb_true_iff in H. apply orb_true_iff. destruct H as [H | H].
    + left. apply (prefix_app pat (String ch a) w H).
    + right. apply IH. exact H.
Qed.

Lemma occurs_trimEnd pat s : occurs pat (trimEnd s) = true -> occurs pat s = true.
Proof.
  intros H. destruct (trimEnd_prefix s) as [w Hw]. rewrite Hw.
  apply occurs_app. exact H.
Qed.

Lemma occurs_trim pat s : occurs pat s = false -> occurs pat (trim s) = false.
Proof.
  intros Hs. unfold trim.
  destruct (occurs pat (trimEnd (trimStart s))) eqn:H; [| reflexivity].
  apply occurs_trimEnd, occurs_trimStart in H. congruence.
Qed.

(** Trimming twice is trimming once. *)
Lemma trimEnd_idem s : trimEnd (trimEnd s) = trimEnd s.
Proof.
  induction s as [| ch rest IH]; [reflexivity |].
  cbn [trimEnd]. destruct (blank (String ch rest)) eqn:Hb; [reflexivity |].
  cbn [trimEnd]. rewrite IH.
  destruct (blank (String ch (trimEnd rest))) eqn:Hb'; [| reflexivity].
  exfalso.
  destruct (trimEnd_split rest) as [w [Hw Hblank]].
  unfold blank in Hb, Hb'.
  rewrite Hw in Hb.
  change (String ch (trimEnd rest ++ w)) with (String ch (trimEnd rest) ++ w)%string in Hb.
  destruct (trimStart (String ch (trimEnd rest))) eqn:Hp; [| discriminate].
  rewrite (blank_app _ w Hp), Hblank in Hb. discriminate.
Qed.

Lemma skipSpace_trimEnd s : skipSpace s = None -> skipSpace (trimEnd s) = None.
Proof.
  intros Hs. destruct (skipSpace (trimEnd s)) as [r |] eqn:Hp; [| reflexivity].
  destruct (trimEnd_split s) as [w [Hw _]].
  rewrite Hw, (skipSpace_app _ w r Hp) in Hs. discriminate.
Qed.

Lemma trim_idem s : trim (trim s) = trim s.
Proof.
  unfold trim.
  rewrite (trimStart_fixed (trimEnd (trimStart s))).
  - apply trimEnd_idem.
  - apply skipSpace_trimEnd, trimStart_head.
Qed.
End StringFacts.

(** Trimming on sample texts: white space of one, two and three bytes is
    dropped at both ends and kept inside; a letter whose encoding ends
    with the byte A0 is kept. *)
Example trim_samples :
  trim (Sample2.nbsp ++ " {} " ++ Sample2.bom ++ Sample2.lineSeparator)%string = "{}"
  /\ trim (" a" ++ Sample2.nbsp ++ "b" ++ Sample2.agrave ++ " ")%string
     = ("a" ++ Sample2.nbsp ++ "b" ++ Sample2.agrave)%string
  /\ trim (Sample2.nbsp ++ Sample2.bom)%string = EmptyString.
Proof. repeat split; reflexivity. Qed.

(** X17: the text that [cleanText] hands to the parser never contains a
    Markdown fence (three backticks in a row), whatever the response. *)
Theorem cleanText_has_no_fence text :
  Vocabulary.occurs Vocabulary.fence (geminiService.cleanText text) = false.
Proof.
  unfold geminiService.cleanText. apply StringFacts.occurs_trim.
  apply (StringFacts.remove_all_from_clean _ 0%nat).
Qed.

(** X18: [cleanText] only trims a text without fence, and cleaning twice is
    cleaning once. *)
Theorem cleanText_trims_and_settles :
  (forall text,
      Vocabulary.occurs Vocabulary.fence text = false ->
      geminiService.cleanText text = trim text) /\
  (forall text,
      geminiService.cleanText (geminiService.cleanText text) = geminiService.cleanText text).
Proof.
  assert (Hplain : forall text,
             Vocabulary.occurs Vocabulary.fence text = false ->
             geminiService.cleanText text = trim text).
  { intros text Hfree.
    change (trim (remove_all Vocabulary.fence (remove_all Vocabulary.fenceJson text))
            = trim text).
    rewrite (StringFacts.remove_all_absent Vocabulary.fenceJson text).
    - rewrite (StringFacts.remove_all_absent Vocabulary.fence text Hfree). reflexivity.
    - destruct (Vocabulary.occurs Vocabulary.fenceJson text) eqn:Hj; [| reflexivity].
      apply StringFacts.occurs_json_fence in Hj. congruence. }
  split; [exact Hplain |].
  intros text. rewrite (Hplain _ (cleanText_has_no_fence text)).
  unfold geminiService.cleanText. apply StringFacts.trim_idem.
Qed.

(** A JSON text between spaces has no fence: it is only trimmed. *)
Lemma cleanText_trims_and_settles_witness :
  geminiService.cleanText "  {}  " = trim "  {}  ".
Proof.
  apply (proj1 cleanText_trims_and_settles). reflexivity.
Defined.

(** ** A fenced answer *)

Module FenceFacts.
Import Vocabulary StringFacts.

Lemma prefix_tick1_lf s w :
  String.prefix "`" s = false -> String.prefix "`" (s ++ String lfc w) = false.
Proof.
  destruct s as [| ch s]; intros H.
  - cbn [append]. rewrite prefix_tick1. reflexivity.
  - cbn [append]. rewrite prefix_tick1 in *. exact H.
Qed.

Lemma prefix_tick2_lf s w :
  String.prefix "``" s = false -> String.prefix "``" (s ++ String lfc w) = false.
Proof.
  destruct s as [| ch s]; intros H.
  - cbn [append]. rewrite prefix_tick2. reflexivity.
  - cbn [append]. rewrite prefix_tick2 in *.
    destruct (isTick ch); cbn [andb] in *; [| reflexivity].
    apply prefix_tick1_lf. exact H.
Qed.

(** A fence does not straddle a line feed. *)
Lemma prefix_fence_lf s w :
  String.prefix fence s = false -> String.prefix fence (s ++ String lfc w) = false.
Proof.
  destruct s as [| ch s]; intros H.
  - cbn [append]. rewrite prefix_fence. reflexivity.
  - cbn [append]. rewrite prefix_fence in *.
    destruct (isTick ch); cbn [andb] in *; [| reflexivity].
    apply prefix_tick2_lf. exact H.
Qed.

Lemma remove_fence_lf body w :
  occurs fence body = false ->
  remove_all fence (body ++ String lfc w) = (body ++ String lfc (remove_all fence w))%string.
Proof.
  unfold remove_all. induction body as [| ch body IH]; intros Hfree.
  - cbn [append]. rewrite remove_step, prefix_fence. reflexivity.
  - cbn [occurs] in Hfree. apply orb_false_iff in Hfree. destruct Hfree as [Hpre Hrest].
    cbn [append]. rewrite remove_step.
    change (String ch (body ++ String lfc w)) with (String ch body ++ String lfc w)%string.
    rewrite (prefix_fence_lf (String ch body) w Hpre).
    cbn [append]. rewrite (IH Hrest). reflexivity.
Qed.

Lemma occurs_json_lf body w :
  occurs fence body = false ->
  occurs fenceJson (body ++ String lfc w) = occurs fenceJson (String lfc w).
Proof.
  induction body as [| ch body IH]; intros Hfree; [reflexivity |].
  cbn [occurs] in Hfree. apply orb_false_iff in Hfree. destruct Hfree as [Hpre Hrest].
  cbn [append]. cbn [occurs]. fold (occurs fenceJson (body ++ String lfc w)).
  rewrite (IH Hrest).
  destruct (String.prefix fenceJson (String ch (body ++ String lfc w))) eqn:Hj;
    [| reflexivity].
  apply prefix_json_fence in Hj.
  change (String ch (body ++ String lfc w)) with (String ch body ++ String lfc w)%string in Hj.
  rewrite (prefix_fence_lf (String ch body) w Hpre) in Hj. discriminate.
Qed.

Lemma space2_lf c1 : space2 c1 lfc = false.
Proof. reflexivity. Qed.

Lemma space3_lf c1 c2 : space3 c1 c2 lfc = false.
Proof. unfold space3. cbn. reflexivity. Qed.

(** A line feed completes no white space of several bytes. *)
Lemma skipSpace_none_lf x :
  skipSpace x = None -> x <> EmptyString ->
  skipSpace (x ++ String lfc EmptyString) = None.
Proof.
  destruct x as [| c1 [| c2 [| c3 r3]]]; cbn [skipSpace append]; try congruence.
  - destruct (space1 c1); [discriminate |]. intros _ _. rewrite space2_lf. reflexivity.
  - destruct (space1 c1); [discriminate |]. destruct (space2 c1 c2); [discriminate |].
    intros _ _. rewrite space3_lf. reflexivity.
  - destruct (space1 c1); [discriminate |]. destruct (space2 c1 c2); [discriminate |].
    destruct (space3 c1 c2 c3); [discriminate | reflexivity].
Qed.

Lemma blank_lf x : blank (x ++ String lfc EmptyString) = blank x.
Proof.
  unfold blank. induction x as [x IH] using length_induction.
  rewrite (trimStart_unfold x).
  destruct (skipSpace x) as [r |] eqn:Hskip.
  - rewrite trimStart_unfold, (skipSpace_app x _ r Hskip).
    destruct (skipSpace_split x r Hskip) as [w [_ Hlen]]. apply IH. exact Hlen.
  - destruct x as [| ch x]; [reflexivity |].
    rewrite trimStart_unfold, (skipSpace_none_lf _ Hskip) by discriminate.
    reflexivity.
Qed.

Lemma trimEnd_lf u : trimEnd (u ++ String lfc EmptyString) = trimEnd u.
Proof.
  induction u as [| ch u IH]; [reflexivity |].
  cbn [append trimEnd].
  change (String ch (u ++ String lfc EmptyString))
    with (String ch u ++ String lfc EmptyString)%string.
  rewrite blank_lf, IH. reflexivity.
Qed.

Lemma length_app_string a b :
  String.length (a ++ b) = (String.length a + String.length b)%nat.
Proof. induction a as [| ch a IH]; [reflexivity | cbn; rewrite IH; reflexivity]. Qed.

(** A text that trimming leaves alone has no white space at either end. *)
Lemma trim_fixed s : trim s = s -> trimStart s = s /\ trimEnd s = s.
Proof.
  unfold trim. intros H.
  destruct (trimStart_suffix s) as [w Hw].
  destruct (trimEnd_prefix (trimStart s)) as [w' Hw'].
  assert (Hlen : String.length s =
                 (String.length w
                  + (String.length (trimEnd (trimStart s)) + String.length w'))%nat).
  { rewrite Hw at 1. rewrite length_app_string. rewrite Hw' at 1.
    rewrite length_app_string. reflexivity. }
  rewrite H in Hlen.
  assert (w = EmptyString) by (destruct w; [reflexivity | cbn in Hlen; lia]).
  subst w. cbn [append] in Hw. rewrite <- Hw in H. split; [symmetry; exact Hw | exact H].
Qed.

Lemma trim_between_lf body :
  trim body = body -> trim (String lfc (body ++ String lfc EmptyString)) = body.
Proof.
  intros H. destruct (trim_fixed body H) as [Hstart Hend].
  unfold trim. rewrite trimStart_unfold.
  change (skipSpace (String lfc (body ++ String lfc EmptyString)))
    with (Some (body ++ String lfc EmptyString)%string).
  destruct body as [| ch body].
  - reflexivity.
  - pose proof (trimStart_head (String ch body)) as Hhead. rewrite Hstart in Hhead.
    rewrite trimStart_unfold, (skipSpace_none_lf _ Hhead) by discriminate.
    rewrite trimEnd_lf. exact Hend.
Qed.
End FenceFacts.

(** X19: a fenced answer is reduced to its body.  When the response is a
    block that opens with the fence and the word json, holds after a line
    feed a body without fence and without white space at its ends, and
    closes after a line feed with the fence, [cleanText] returns the body:
    this is what the parser receives. *)
Theorem cleanText_unwraps_fenced_body body :
  Vocabulary.occurs Vocabulary.fence body = false ->
  trim body = body ->
  geminiService.cleanText
    ("```json" ++ Vocabulary.lf ++ body ++ Vocabulary.lf ++ "```")%string = body.
Proof.
  intros Hfree Htrim.
  change (trim (remove_all Vocabulary.fence
                  (remove_all Vocabulary.fenceJson
                     (String Vocabulary.lfc
                        (body ++ String Vocabulary.lfc Vocabulary.fence)))) = body).
  rewrite (StringFacts.remove_all_absent Vocabulary.fenceJson).
  - change (String Vocabulary.lfc (body ++ String Vocabulary.lfc Vocabulary.fence))
      with (EmptyString ++ String Vocabulary.lfc
              (body ++ String Vocabulary.lfc Vocabulary.fence))%string.
    rewrite (FenceFacts.remove_fence_lf EmptyString) by reflexivity.
    rewrite (FenceFacts.remove_fence_lf body _ Hfree).
    apply FenceFacts.trim_between_lf. exact Htrim.
  - cbn [Vocabulary.occurs].
    rewrite (FenceFacts.occurs_json_lf body _ Hfree). reflexivity.
Qed.

(** The fenced sample answer: the parser receives the two braces. *)
Lemma cleanText_unwraps_fenced_body_witness :
  geminiService.cleanText
    ("```json" ++ Vocabulary.lf ++ "{}" ++ Vocabulary.lf ++ "```")%string = "{}".
Proof.
  apply (cleanText_unwraps_fenced_body "{}"); reflexivity.
Defined.

(** ** What a tick and a session do with the findings *)

(** X20: a tick of the version with the site map passes its whole batch
    on: it sends one request, arms one timer per log of the batch that the
    request returned, in the order of the batch, and submits each finding
    of the batch once, in order. *)
Theorem tick_merges_batch h url i c :
  exists data,
    result (geminiService.analyzeTargetForSimulation h (E:=App.Event) url)
      {| randoms := S (randoms c); clocks := S (clocks c); calls := calls c |} = inr data /\
    requests (script (App.tick h url i) c) = [geminiService.request url] /\
    flat_map AppSpec.logOf (callbacks (script (App.tick h url i) c)) = SimData.logs data /\
    flat_map AppSpec.findingOf (updates (script (App.tick h url i) c)) =
      SimData.vulnerabilities data.
Proof.
  destruct (ScanFacts.tick_runs h url i c)
    as [data [c1 [t1 [Hrun [Hres [Hreq [_ [Hlogs [Hvulns _]]]]]]]]].
  exists data. rewrite (runs_script _ _ _ _ _ Hrun). auto.
Qed.

Module FindingFacts.
Import App AppSpec.

Lemma known_app prev added v : known prev v = true -> known (prev ++ added) v = true.
Proof. unfold known. rewrite existsb_app. intros ->. reflexivity. Qed.

Lemma known_snoc prev v id : known (prev ++ [Finding.with_id v id]) v = true.
Proof.
  unfold known. rewrite existsb_app. cbn. rewrite String.eqb_refl.
  rewrite orb_true_r. reflexivity.
Qed.

(** Outside the reset, an update only appends to the list of findings. *)
Lemma step_extends e s :
  isReset e = false -> exists added, vulnerabilities (step e s) = vulnerabilities s ++ added.
Proof.
  intros He. destruct e; try discriminate; cbn;
    try (exists []; rewrite app_nil_r; reflexivity).
  - exists []. rewrite app_nil_r. apply AppFacts.logTimer_vulnerabilities.
  - unfold mergeVuln. destruct (known (vulnerabilities s) v).
    + exists []. rewrite app_nil_r. reflexivity.
    + eexists. reflexivity.
Qed.

Lemma run_extends tr : forall s,
  Forall (fun e => isReset e = false) tr ->
  exists added, vulnerabilities (run tr s) = vulnerabilities s ++ added.
Proof.
  induction tr as [| e tr IH]; intros s Hall.
  - exists []. rewrite app_nil_r. reflexivity.
  - inversion Hall as [| e' tr' He Htr]; subst.
    rewrite AppFacts.run_cons.
    destruct (step_extends e s He) as [a1 H1].
    destruct (IH (step e s) Htr) as [a2 H2].
    exists (a1 ++ a2). rewrite H2, H1. symmetry. apply app_assoc.
Qed.

Lemma step_merge_known v id logId ts s :
  known (vulnerabilities (step (MergeVuln v id logId ts) s)) v = true.
Proof.
  cbn. unfold mergeVuln. destruct (known (vulnerabilities s) v) eqn:Hk.
  - exact Hk.
  - cbn. apply known_snoc.
Qed.

Lemma run_covers tr : forall s v id logId ts,
  Forall (fun e => isReset e = false) tr ->
  In (MergeVuln v id logId ts) tr ->
  known (vulnerabilities (run tr s)) v = true.
Proof.
  induction tr as [| e tr IH]; intros s v id logId ts Hall Hin; [contradiction |].
  inversion Hall as [| e' tr' He Htr]; subst.
  rewrite AppFacts.run_cons. destruct Hin as [-> | Hin].
  - destruct (run_extends tr (step (MergeVuln v id logId ts) s) Htr) as [added Hadd].
    rewrite Hadd. apply known_app. apply step_merge_known.
  - apply (IH _ v id logId ts Htr Hin).
Qed.
End FindingFacts.

(** X21: during a session the list of findings only grows at its end:
    entries are never removed, reordered or replaced, so the first finding
    of a type is the one that stays; and every finding that was submitted
    has its type in the list. *)
Theorem findings_kept_and_covered tr s :
  Forall (fun e => AppSpec.isReset e = false) tr ->
  (exists added,
      App.vulnerabilities (App.run tr s) = App.vulnerabilities s ++ added) /\
  (forall v id logId ts,
      In (App.MergeVuln v id logId ts) tr ->
      exists p,
        In p (App.vulnerabilities (App.run tr s)) /\
        Vulnerability.type p = Finding.type v).
Proof.
  intros Hall. split.
  - apply FindingFacts.run_extends. exact Hall.
  - intros v id logId ts Hin. apply known_spec.
    apply (FindingFacts.run_covers tr s v id logId ts Hall Hin).
Qed.

(** The sample state holds an XSS finding: a later XSS finding with other
    details and an SQLi finding leave it first, and both types are listed. *)
Lemma findings_kept_and_covered_witness :
  exists added,
    App.vulnerabilities
      (App.run [App.MergeVuln
                  (Finding.mk "XSS" LOW "Stored input in the profile" "/settings" None)
                  "0.d" "l1" "12:00:04";
                App.MergeVuln Sample.sqli "0.e" "l2" "12:00:04"] Sample.found)
    = App.vulnerabilities Sample.found ++ added.
Proof.
  apply (findings_kept_and_covered
           [App.MergeVuln
              (Finding.mk "XSS" LOW "Stored input in the profile" "/settings" None)
              "0.d" "l1" "12:00:04";
            App.MergeVuln Sample.sqli "0.e" "l2" "12:00:04"] Sample.found).
  repeat constructor.
Defined.
